(** * Procedural terrain core of the math-function generator

    A shallow embedding of the terrain core found in [src/script.js] and in
    its later revision [src/unnamed/part_000]: the integer hash, the octave
    combinator over the simplex field, the formula compiler, the biome ladder,
    the windowed terrain refresh and the random formula builder; besides
    them the seeding of the permutation table, the themed formula
    generator of the later revision and the history and the saved list of
    its sidebar.

    Number model.  A finite JavaScript Number is modelled by the exact rational
    it denotes ([Q]); integers that the code produces with [Math.floor] are
    modelled by [Z].  Values for which [Number.isFinite] is false (NaN, the
    infinities, and every value that is not a Number) are a separate
    constructor wherever the code tests for them.  Rounding of intermediate
    floating-point results is not modelled, except where a definition says
    so; statements that depend on it bound their arguments. *)

From Stdlib Require Import ZArith QArith Qround String Ascii List Lia Bool.
From Stdlib Require Import Qabs Lqa DecimalString DecimalFacts DecimalN.
From stdpp Require Import list.
From Equations Require Import Equations.

Local Open Scope Z_scope.

(* ===================================================================== *)
(** ** 32-bit integer operations of the host language *)
(* ===================================================================== *)

Module Int32.

(** [ToInt32]: the signed 32-bit integer congruent to [n] modulo 2^32. *)
Definition toInt32 (n : Z) : Z := (n + 2 ^ 31) mod 2 ^ 32 - 2 ^ 31.

(** [ToUint32]: the unsigned 32-bit integer congruent to [n] modulo 2^32. *)
Definition toUint32 (n : Z) : Z := n mod 2 ^ 32.

(** [a & b] *)
Definition and (a b : Z) : Z := toInt32 (Z.land (toInt32 a) (toInt32 b)).

(** [a ^ b] *)
Definition xor (a b : Z) : Z := toInt32 (Z.lxor (toInt32 a) (toInt32 b)).

(** [Math.imul(a, b)] *)
Definition imul (a b : Z) : Z := toInt32 (toInt32 a * toInt32 b).

(** [a >>> 0] *)
Definition ushr0 (a : Z) : Z := toUint32 a.

Definition is_int32 (n : Z) : Prop := - 2 ^ 31 <= n < 2 ^ 31.

End Int32.

(* ===================================================================== *)
(** ** Hash  (script.js 51-69, part_000 49-63) *)
(* ===================================================================== *)

Module Hash.

(** The 32-bit state [h] just before the final [(h >>> 0) / 4294967296]. *)
Definition intHashMix (x z : Z) : Z :=
  let h := 0x811c9dc5 in
  let h := Int32.xor h (Int32.and x 0xFFFFFFFF) in
  let h := Int32.imul h 0x01000193 in
  let h := Int32.xor h (Int32.and z 0xFFFFFFFF) in
  let h := Int32.imul h 0x01000193 in
  h.

Definition intHash (x z : Z) : Q :=
  Qmake (Int32.ushr0 (intHashMix x z)) 4294967296.

(** The mix as the specification words it: an FNV-1a fold over unsigned
    32-bit words, starting from the basis, xor then multiply by the prime. *)
Definition fnv_basis : Z := 2166136261.
Definition fnv_prime : Z := 16777619.
Definition fnv_fold (h v : Z) : Z :=
  (Z.lxor h (v mod 2 ^ 32) * fnv_prime) mod 2 ^ 32.
Definition fnv1a (x z : Z) : Z := fnv_fold (fnv_fold fnv_basis x) z.

End Hash.

(* ===================================================================== *)
(** ** Biome ladder  (script.js 293-304, part_000 374-384) *)
(* ===================================================================== *)

Inductive Biome : Set := WATER | SAND | GRASS | STONE | SNOW | ALIEN | LAVA.

(** [a < b] on rationals, as a boolean. *)
Definition Qltb (a b : Q) : bool := negb (Qle_bool b a).

Module BiomeClassifier.

(** The base ladder on the integer surface level. *)
Definition ladder (surfaceY : Z) : Biome :=
  if surfaceY <? -2 then WATER
  else if surfaceY <? 2 then SAND
  else if surfaceY <? 15 then GRASS
  else if surfaceY <? 40 then STONE
  else SNOW.

(** The classification as [updateTerrain] performs it, inline, on the finite
    height [y]: the ladder on [Math.floor(y)], then the two overrides on [y]. *)
Definition classify (y : Q) : Biome :=
  let surfaceY := Qfloor y in
  let biome := GRASS in
  let biome := ladder surfaceY in
  let biome := if Qltb 60 y then ALIEN else biome in
  let biome := if Qltb y (-30) then LAVA else biome in
  biome.

End BiomeClassifier.


(* ===================================================================== *)
(** ** Numbers that may fail to be finite *)
(* ===================================================================== *)

(** What a computation of the host language leaves: a finite Number, or a
    value on which [Number.isFinite] is false. *)
Inductive Number : Set :=
  | Finite (q : Q)
  | NotFinite.

(** [a / b] where [a] and [b] are finite: a zero divisor leaves NaN or an
    infinity. *)
Definition Number_div (a b : Q) : Number :=
  if Qeq_bool b 0 then NotFinite else Finite (a / b).

(** [v || d] on a finite Number: zero is falsy. *)
Definition orDefault (v d : Q) : Q := if Qeq_bool v 0 then d else v.

(** The number of passes of [for (let i = 0; i < bound; i++)]: the number of
    naturals below [bound]. *)
Definition passes (bound : Q) : nat := Z.to_nat (Qceiling bound).

(* ===================================================================== *)
(** ** Integers as doubles *)
(* ===================================================================== *)

Module Double.

(** The double nearest to the integer [n], the one with the even
    significand of two that are equally near; [None] when that is an
    infinity.  Integers below 2^53 in magnitude are doubles; above, a
    double keeps the 53 leading bits. *)
Definition round_integer (n : Z) : option Z :=
  let a := Z.abs n in
  if a <? 2 ^ 53 then Some n
  else
    let k := Z.log2 a - 52 in
    let m := a / 2 ^ k in
    let r := a mod 2 ^ k in
    let half := 2 ^ (k - 1) in
    let m := if (half <? r) || ((r =? half) && Z.odd m) then m + 1 else m in
    let v := m * 2 ^ k in
    if 2 ^ 1024 <=? v then None else Some (Z.sgn n * v).

(** [ToInt32] of a double with an integer value or of an infinity, before
    the reduction modulo 2^32: an infinity converts to 0. *)
Definition integer_operand (d : option Z) : Z :=
  match d with
  | Some n => n
  | None => 0
  end.

End Double.

(* ===================================================================== *)
(** ** Noise  (script.js 8-47, part_000 8-46) *)
(* ===================================================================== *)

Module Noise.

(** The double nearest to the square root of 3, [Math.sqrt(3.0)]. *)
Definition sqrt3 : Q := 3900231685776981 # 2251799813685248.

Definition grad3 : list (Z * Z * Z) :=
  [ (1,1,0); (-1,1,0); (1,-1,0); (-1,-1,0); (1,0,1); (-1,0,1);
    (1,0,-1); (-1,0,-1); (0,1,1); (0,-1,1); (0,1,-1); (0,-1,-1) ].

Definition dot (g : Z * Z * Z) (x y : Q) : Q :=
  let '(g0, g1, _) := g in (inject_Z g0 * x + inject_Z g1 * y)%Q.

Section Simplex.

(** The permutation table [Noise.perm] that the last [Noise.seed()] left:
    512 bytes, the second half repeating the first. *)
Variable perm : list Z.

Definition perm_at (k : Z) : Z := nth (Z.to_nat k) perm 0.
Definition grad_at (k : Z) : Z * Z * Z := nth (Z.to_nat k) grad3 (0, 0, 0).

(** One corner's contribution: [if(t<0) n = 0.0; else {t *= t; n = t * t *
    dot(grad3[gi], x, y);}] *)
Definition corner (t : Q) (gi : Z) (x y : Q) : Q :=
  if Qltb t 0 then 0%Q
  else let t := (t * t)%Q in (t * t * dot (grad_at gi) x y)%Q.

Definition simplex (x y : Q) : Q :=
  let F2 := ((1 # 2) * (sqrt3 - 1))%Q in
  let G2 := ((3 - sqrt3) / 6)%Q in
  let s := ((x + y) * F2)%Q in
  let i := Qfloor (x + s) in
  let j := Qfloor (y + s) in
  let t := (inject_Z (i + j) * G2)%Q in
  let X0 := (inject_Z i - t)%Q in
  let Y0 := (inject_Z j - t)%Q in
  let x0 := (x - X0)%Q in
  let y0 := (y - Y0)%Q in
  let '(i1, j1) := if Qltb y0 x0 then (1, 0) else (0, 1) in
  let x1 := (x0 - inject_Z i1 + G2)%Q in
  let y1 := (y0 - inject_Z j1 + G2)%Q in
  let x2 := (x0 - 1 + 2 * G2)%Q in
  let y2 := (y0 - 1 + 2 * G2)%Q in
  let ii := Int32.and i 255 in
  let jj := Int32.and j 255 in
  let gi0 := Z.rem (perm_at (ii + perm_at jj)) 12 in
  let gi1 := Z.rem (perm_at (ii + i1 + perm_at (jj + j1))) 12 in
  let gi2 := Z.rem (perm_at (ii + 1 + perm_at (jj + 1))) 12 in
  let t0 := ((1 # 2) - x0 * x0 - y0 * y0)%Q in
  let n0 := corner t0 gi0 x0 y0 in
  let t1 := ((1 # 2) - x1 * x1 - y1 * y1)%Q in
  let n1 := corner t1 gi1 x1 y1 in
  let t2 := ((1 # 2) - x2 * x2 - y2 * y2)%Q in
  let n2 := corner t2 gi2 x2 y2 in
  (70 * (n0 + n1 + n2))%Q.

End Simplex.

(** The table that [Noise.seed()] builds when every swap is with the entry
    itself: the identity on bytes, written twice. *)
Definition identity_perm : list Z :=
  map (fun i => Z.of_nat i mod 256) (seq 0 512).

End Noise.

(* ===================================================================== *)
(** ** Ctx: the evaluation context  (script.js 72-108, part_000 65-95) *)
(* ===================================================================== *)

Module Ctx.

(** The two mutable coordinate fields [Ctx._x] and [Ctx._z]. *)
Record Coords : Set := mkCoords { _x : Z; _z : Z }.

(** [mod: (x, y) => ((x % y) + y) % y] on doubles with integer values.
    The remainder [%] is exact and has the sign of the dividend; the sum is
    rounded to a double; the remainder by zero and the remainder of an
    infinity are NaN. *)
Definition mod_ (x y : Z) : Number :=
  if y =? 0 then NotFinite
  else
    match Double.round_integer (Z.rem x y + y) with
    | Some s => Finite (inject_Z (Z.rem s y))
    | None => NotFinite
    end.

(** The keys of the object [Ctx] whose values are numbers. *)
Definition constants : list string :=
  ["_x"; "_z"; "pi"; "π"; "e"; "phi"]%string.

(** The keys of [Ctx] whose values are functions, in script.js. *)
Definition functions_script : list string :=
  ["sin"; "cos"; "tan"; "abs"; "floor"; "ceil"; "round"; "sqrt"; "pow";
   "mod"; "max"; "min"; "csc"; "sec"; "sinh"; "cosh"; "tanh"; "ln"; "lg";
   "exp"; "rand"; "randnormal"; "simplex"; "perlin"; "octaved"]%string.

(** The same in part_000, which adds [normal] and [blended]. *)
Definition functions_part_000 : list string :=
  ["sin"; "cos"; "tan"; "abs"; "floor"; "ceil"; "round"; "sqrt"; "pow";
   "mod"; "max"; "min"; "csc"; "sec"; "sinh"; "cosh"; "tanh"; "ln"; "lg";
   "exp"; "rand"; "randnormal"; "simplex"; "perlin"; "normal"; "blended";
   "octaved"]%string.

(** [rand: () => Hash.intHash(Ctx._x, Ctx._z)] *)
Definition rand (c : Coords) : Q := Hash.intHash (_x c) (_z c).

Section Fields.

Variable perm : list Z.

(** [simplex: (x,y,z) => Noise.simplex(x,z)] and its alias [perlin]. *)
Definition simplex (x y z : Q) : Q := Noise.simplex perm x z.
Definition perlin (x y z : Q) : Q := Noise.simplex perm x z.

(** The loop state of [octaved]: [total], [amp], [freq], [max]. *)
Record Octaves : Set :=
  mkOctaves { total : Q; amp : Q; freq : Q; max : Q }.

(** One pass of the loop body. *)
Definition octave_pass (x z per : Q) (s : Octaves) : Octaves :=
  let total := (total s + Noise.simplex perm (x * freq s) (z * freq s) * amp s)%Q in
  let max := (max s + amp s)%Q in
  let amp := (amp s * orDefault per (1 # 2))%Q in
  let freq := (freq s * 2)%Q in
  mkOctaves total amp freq max.

Definition octaved (x z oct per : Q) : Number :=
  let s := mkOctaves 0 1 1 0 in
  let s := Nat.iter (passes (orDefault oct 4)) (octave_pass x z per) s in
  Number_div (total s) (max s).

End Fields.

(** The two hash values that [randnormal] starts from, the first one after
    [if(u<=0) u=0.0001].  The products [Ctx._x * 167] and [Ctx._x * 253]
    are rounded to doubles before [Hash.intHash] converts them to 32-bit
    integers. *)
Definition randnormal_seeds (c : Coords) : Q * Q :=
  let operand (n : Z) := Double.integer_operand (Double.round_integer n) in
  let u := Hash.intHash (operand (_x c * 167)) (operand (_z c * 167)) in
  let v := Hash.intHash (operand (_x c * 253)) (operand (_z c * 253)) in
  let u := if Qle_bool u 0 then 1 # 10000 else u in
  (u, v).

End Ctx.

(* ===================================================================== *)
(** ** The expression engine  (script.js 241-254, part_000 333-345) *)
(* ===================================================================== *)

(** What a call leaves: a value, or an exception with its message. *)
Inductive Outcome : Set :=
  | Returns (v : Number)
  | Throws (msg : string).

(** A compiled formula, called as [f(Ctx, x, z)].  The body reads its two
    arguments and, through [with(C)], the coordinate fields of the context;
    formula bodies are expressions and leave the context as it is. *)
Definition HeightFunction : Set := Ctx.Coords -> Z -> Z -> Outcome.

(** What [new Function('C', 'x', 'z', body)] leaves: a callable, or a
    [SyntaxError] with its message. *)
Inductive Built : Set :=
  | Callable (f : HeightFunction)
  | SyntaxError (msg : string).

(** The element [#error-msg] of the page: its text and whether the class
    [error-hidden] is set. *)
Record ErrorBox : Set := mkErrorBox { textContent : string; error_hidden : bool }.

(** [str.replace(/\^/g, '**')] *)
Fixpoint replace_caret (str : string) : string :=
  match str with
  | EmptyString => EmptyString
  | String c rest =>
      if Ascii.eqb c "^"%char
      then String "*"%char (String "*"%char (replace_caret rest))
      else String c (replace_caret rest)
  end.

(** The body handed to [new Function]: [`with(C){return ${safeStr};}`] *)
Definition function_body (safeStr : string) : string :=
  String.append "with(C){return " (String.append safeStr ";}").

(** The sign that precedes the message in the error box. *)
Definition warning_sign : string := "⚠ ".

Section Compile.

(** The host's [Function] constructor with the parameter names C, x, z. *)
Variable newFunction : string -> Built.

(** [compileFormula(str)]: the result ([None] for [null]) and the error box
    afterwards.  [c] holds the coordinate fields at the time of the call. *)
Definition compileFormula (str : string) (c : Ctx.Coords) (box : ErrorBox)
  : option HeightFunction * ErrorBox :=
  let safeStr := replace_caret str in
  match newFunction (function_body safeStr) with
  | SyntaxError msg =>
      (None, mkErrorBox (String.append warning_sign msg) false)
  | Callable f =>
      match f c 0 0 with
      | Throws msg =>
          (None, mkErrorBox (String.append warning_sign msg) false)
      | Returns _ =>
          (Some f, mkErrorBox (textContent box) true)
      end
  end.

End Compile.

(* ===================================================================== *)
(** ** A fragment of the host's expression language *)
(* ===================================================================== *)

(** The [Function] constructor restricted to formula texts built from the
    identifiers [x], [z], [_x], [_z], decimal integer literals, the operators
    [+], [-], [*], parentheses, spaces and tabs.  On these texts the definitions
    below follow the grammar and the evaluation of the host language; any
    other text is outside the fragment and is reported as a syntax error
    here (in particular the power operator, decimal fractions, calls, the
    other members of [Ctx] and the globals of the host). *)
Module Host.

Inductive token : Set :=
  | TIdent (s : string)
  | TNum (n : Z)
  | TPlus | TMinus | TStar
  | TLParen | TRParen | TLBrace | TRBrace | TSemi
  | TOther.

Definition code (c : ascii) : Z := Z.of_nat (nat_of_ascii c).

Definition is_digit (c : ascii) : bool := (48 <=? code c) && (code c <=? 57).

Definition is_ident_start (c : ascii) : bool :=
  ((65 <=? code c) && (code c <=? 90))
  || ((97 <=? code c) && (code c <=? 122))
  || (code c =? 95) || (code c =? 36).

(** Space and tab.  A line break is no blank here: after [return] it ends
    the statement in the host language. *)
Definition is_blank (c : ascii) : bool := (code c =? 32) || (code c =? 9).

(** What the lexer holds while it reads a token: nothing, the characters of
    an identifier, the value of a literal, or one operator character that a
    second one may follow ([**], [++], [--] are single tokens). *)
Inductive pending : Set :=
  | PNone
  | PIdent (s : string)
  | PNum (n : Z)
  | POp (c : ascii).

Definition op_token (c : ascii) : token :=
  if Ascii.eqb c "+"%char then TPlus
  else if Ascii.eqb c "-"%char then TMinus
  else if Ascii.eqb c "*"%char then TStar
  else TOther.

Definition flush (p : pending) : list token :=
  match p with
  | PNone => []
  | PIdent s => [TIdent s]
  | PNum n => [TNum n]
  | POp c => [op_token c]
  end.

Definition is_op (c : ascii) : bool :=
  Ascii.eqb c "+"%char || Ascii.eqb c "-"%char || Ascii.eqb c "*"%char.

Definition punct (c : ascii) : token :=
  if Ascii.eqb c "("%char then TLParen
  else if Ascii.eqb c ")"%char then TRParen
  else if Ascii.eqb c "{"%char then TLBrace
  else if Ascii.eqb c "}"%char then TRBrace
  else if Ascii.eqb c ";"%char then TSemi
  else TOther.

Definition snoc (s : string) (c : ascii) : string :=
  String.append s (String c EmptyString).

Fixpoint lex (p : pending) (s : string) : list token :=
  match s with
  | EmptyString => flush p
  | String c rest =>
      if is_digit c then
        match p with
        | PIdent b => lex (PIdent (snoc b c)) rest
        | PNum n =>
            (* a literal that starts with 0 and goes on is not decimal *)
            if n =? 0 then TOther :: lex PNone rest
            else lex (PNum (10 * n + (code c - 48))) rest
        | _ => flush p ++ lex (PNum (code c - 48)) rest
        end
      else if is_ident_start c then
        match p with
        | PIdent b => lex (PIdent (snoc b c)) rest
        | _ => flush p ++ lex (PIdent (String c EmptyString)) rest
        end
      else if is_op c then
        match p with
        | POp c' =>
            if Ascii.eqb c c' then TOther :: lex PNone rest
            else flush p ++ lex (POp c) rest
        | _ => flush p ++ lex (POp c) rest
        end
      else if is_blank c then flush p ++ lex PNone rest
      else flush p ++ punct c :: lex PNone rest
  end.

Definition tokens (s : string) : list token := lex PNone s.

Inductive expr : Set :=
  | Lit (n : Z)
  | Var (name : string)
  | Neg (e : expr)
  | Plus (e : expr)
  | Add (a b : expr)
  | Sub (a b : expr)
  | Mul (a b : expr).

(** Recursive descent with a budget that bounds the depth of the descent;
    every nested call is on fewer tokens than its caller, and the budget
    given at the top is the number of tokens plus one.
    primary ::= literal | identifier | ( additive )
    unary ::= - unary | + unary | primary
    multiplicative ::= unary ( * unary )...
    additive ::= multiplicative ( (+|-) multiplicative )... *)
Fixpoint parse_unary (fuel : nat) (ts : list token) : option (expr * list token) :=
  match fuel with
  | O => None
  | S fuel =>
      match ts with
      | TMinus :: ts =>
          match parse_unary fuel ts with
          | Some (e, ts) => Some (Neg e, ts)
          | None => None
          end
      | TPlus :: ts =>
          match parse_unary fuel ts with
          | Some (e, ts) => Some (Plus e, ts)
          | None => None
          end
      | TNum n :: ts => Some (Lit n, ts)
      | TIdent s :: ts => Some (Var s, ts)
      | TLParen :: ts =>
          match parse_unary fuel ts with
          | Some (a, ts) =>
              match parse_additive_rest fuel (parse_mul_rest fuel a ts) with
              | Some (e, TRParen :: ts) => Some (e, ts)
              | _ => None
              end
          | None => None
          end
      | _ => None
      end
  end
with parse_mul_rest (fuel : nat) (a : expr) (ts : list token)
  : option (expr * list token) :=
  match fuel with
  | O => None
  | S fuel =>
      match ts with
      | TStar :: ts =>
          match parse_unary fuel ts with
          | Some (b, ts) => parse_mul_rest fuel (Mul a b) ts
          | None => None
          end
      | _ => Some (a, ts)
      end
  end
with parse_additive_rest (fuel : nat) (r : option (expr * list token))
  : option (expr * list token) :=
  match fuel with
  | O => None
  | S fuel =>
      match r with
      | Some (a, TPlus :: ts) =>
          match parse_unary fuel ts with
          | Some (b, ts) =>
              match parse_mul_rest fuel b ts with
              | Some (b, ts) => parse_additive_rest fuel (Some (Add a b, ts))
              | None => None
              end
          | None => None
          end
      | Some (a, TMinus :: ts) =>
          match parse_unary fuel ts with
          | Some (b, ts) =>
              match parse_mul_rest fuel b ts with
              | Some (b, ts) => parse_additive_rest fuel (Some (Sub a b, ts))
              | None => None
              end
          | None => None
          end
      | r => r
      end
  end.

Definition parse_expression (ts : list token) : option (expr * list token) :=
  let fuel := S (length ts) in
  match parse_unary fuel ts with
  | Some (a, ts) => parse_additive_rest fuel (parse_mul_rest fuel a ts)
  | None => None
  end.

(** The statement [with(C){return e;}]; [None] in the result stands for a
    [return;] without an expression. *)
Definition parse_body (ts : list token) : option (option expr) :=
  match ts with
  | TIdent w :: TLParen :: TIdent c :: TRParen :: TLBrace :: TIdent r :: ts =>
      if String.eqb w "with" && String.eqb c "C" && String.eqb r "return" then
        match ts with
        | [TSemi; TRBrace] => Some None
        | _ =>
            match parse_expression ts with
            | Some (e, [TSemi; TRBrace]) => Some (Some e)
            | _ => None
            end
        end
      else None
  | _ => None
  end.

(** Evaluation on integers: [inl] a value, [inr] the message of the
    exception thrown. *)
Fixpoint eval (e : expr) (c : Ctx.Coords) (x z : Z) : Z + string :=
  let bin (op : Z -> Z -> Z) (a b : expr) :=
    match eval a c x z with
    | inl va =>
        match eval b c x z with
        | inl vb => inl (op va vb)
        | inr m => inr m
        end
    | inr m => inr m
    end in
  match e with
  | Lit n => inl n
  | Var name =>
      if String.eqb name "x" then inl x
      else if String.eqb name "z" then inl z
      else if String.eqb name "_x" then inl (Ctx._x c)
      else if String.eqb name "_z" then inl (Ctx._z c)
      else inr (String.append name " is not defined")
  | Neg a =>
      match eval a c x z with
      | inl v => inl (- v)
      | inr m => inr m
      end
  | Plus a => eval a c x z
  | Add a b => bin Z.add a b
  | Sub a b => bin Z.sub a b
  | Mul a b => bin Z.mul a b
  end.

Definition call (body : option expr) : HeightFunction :=
  fun c x z =>
    match body with
    | None => Returns NotFinite
    | Some e =>
        match eval e c x z with
        | inl v => Returns (Finite (inject_Z v))
        | inr m => Throws m
        end
    end.

Definition newFunction (body : string) : Built :=
  match parse_body (tokens body) with
  | Some b => Callable (call b)
  | None => SyntaxError "Unexpected token"
  end.

End Host.

(* ===================================================================== *)
(** ** The voxel window  (script.js 203-337, part_000 298-411) *)
(* ===================================================================== *)

(** The matrix of an instance: the position set on [dummy] before
    [updateMatrix]; rotation and scale stay the identity. *)
Definition Position : Set := (Z * Z * Z)%type.

(** A colour of the rendering library, as the hexadecimal colour it was
    copied from and the scalar it has been multiplied by since. *)
Record Color : Set := mkColor { hex : Z; shade : Q }.

Module colors.
Definition water : Color := mkColor 0x3273a8 1.
Definition sand : Color := mkColor 0xdec28a 1.
Definition grass : Color := mkColor 0x56a34c 1.
Definition dirt : Color := mkColor 0x795548 1.
Definition stone : Color := mkColor 0x808080 1.
Definition snow : Color := mkColor 0xffffff 1.
Definition alien : Color := mkColor 0x9c27b0 1.
Definition lava : Color := mkColor 0xff5722 1.
Definition neon : Color := mkColor 0x00e5ff 1.
End colors.

(** [c.multiplyScalar(s)] *)
Definition multiplyScalar (c : Color) (s : Q) : Color :=
  mkColor (hex c) (shade c * s).

(** What the loops of [updateTerrain] write: the coordinate fields of the
    context, the two instance buffers of the mesh, and the scratch colour
    [color]. *)
Record Scene : Set := mkScene {
  ctx : Ctx.Coords;
  instanceMatrix : list Position;
  instanceColor : list Color;
  color : Color
}.

(** The module-level state: [compiledFunc] ([None] for [null]),
    [lastUpdateX], [lastUpdateZ], the scene and the error box. *)
Record State : Set := mkState {
  compiledFunc : option HeightFunction;
  lastUpdateX : Z;
  lastUpdateZ : Z;
  scene : Scene;
  error_msg : ErrorBox
}.

(** [for (let i = 0; i < n; i++) body] on a threaded state. *)
Definition for_upto {S : Type} (n : nat) (body : nat -> S -> S) (s : S) : S :=
  fold_left (fun s i => body i s) (seq 0 n) s.

(** The height of one column: the call of the compiled function guarded by
    [try]/[catch] and by [Number.isFinite].  script.js tests finiteness
    inside the [try], part_000 after it; both leave this value. *)
Definition height (f : HeightFunction) (c : Ctx.Coords) (wx wz : Z) : Q :=
  let y := 0%Q in
  match f c wx wz with
  | Returns (Finite v) => v
  | Returns NotFinite => 0%Q
  | Throws _ => y
  end.

(** The colour of the top layer of a biome. *)
Definition surface_color (biome : Biome) : Color :=
  match biome with
  | WATER => colors.water
  | SAND => colors.sand
  | GRASS => colors.grass
  | STONE => colors.stone
  | SNOW => colors.snow
  | ALIEN => colors.alien
  | LAVA => colors.lava
  end.

(** [biome==='GRASS' ? colors.dirt : colors.stone] *)
Definition under_color (biome : Biome) : Color :=
  match biome with
  | GRASS => colors.dirt
  | _ => colors.stone
  end.

Section Window.

(** [GRID] and [LAYERS]: 160 and 4 in script.js, 200 and 4 in part_000. *)
Variables GRID LAYERS : nat.

Definition TOTAL_INSTANCES : nat := (GRID * GRID * LAYERS)%nat.

(** The body of the innermost loop, on the instance index and the scene. *)
Definition layer (wx wz surfaceY : Z) (biome : Biome) (d : nat)
    (l : nat * Scene) : nat * Scene :=
  let '(idx, s) := l in
  let matrix : Position := (wx, surfaceY - Z.of_nat d, wz) in
  let instanceMatrix := <[idx := matrix]> (instanceMatrix s) in
  let c := color s in
  let c := if Nat.eqb d 0 then surface_color biome else under_color biome in
  let c := if Nat.ltb 0 d then multiplyScalar c (85 # 100) else c in
  let instanceColor := <[idx := c]> (instanceColor s) in
  (S idx, mkScene (ctx s) instanceMatrix instanceColor c).

(** The body of the loop over [j]: one column. *)
Definition column (f : HeightFunction) (cx cz offset : Z) (i j : nat)
    (l : nat * Scene) : nat * Scene :=
  let '(idx, s) := l in
  let wx := cx - offset + Z.of_nat i in
  let wz := cz - offset + Z.of_nat j in
  let c := Ctx.mkCoords wx wz in
  let s := mkScene c (instanceMatrix s) (instanceColor s) (color s) in
  let y := height f c wx wz in
  let surfaceY := Qfloor y in
  let biome := BiomeClassifier.classify y in
  for_upto LAYERS (layer wx wz surfaceY biome) (idx, s).

(** [updateTerrain(force)]; [ref] is the horizontal position that the scene
    reports at the time of the call ([camera.position] in script.js,
    [controls.target] in part_000).  The light that follows the centre is
    not part of the state modelled here. *)
Definition updateTerrain (force : bool) (ref : Q * Q) (st : State) : State :=
  match compiledFunc st with
  | None => st
  | Some f =>
      let cx := Qfloor (fst ref) in
      let cz := Qfloor (snd ref) in
      if negb force
         && (Z.abs (cx - lastUpdateX st) <? 2)
         && (Z.abs (cz - lastUpdateZ st) <? 2)
      then st
      else
        let idx := 0%nat in
        let offset := Z.of_nat GRID / 2 in
        let '(idx, sc) :=
          for_upto GRID
            (fun i => for_upto GRID (fun j => column f cx cz offset i j))
            (idx, scene st) in
        mkState (compiledFunc st) cx cz sc (error_msg st)
  end.

(** The state before the first compilation: no compiled function, the
    centre far away, every instance at the origin and white. *)
Definition initial (box : ErrorBox) : State :=
  mkState None (-999999) (-999999)
    (mkScene (Ctx.mkCoords 0 0)
       (replicate TOTAL_INSTANCES (0, 0, 0))
       (replicate TOTAL_INSTANCES (mkColor 0xffffff 1))
       (mkColor 0xffffff 1))
    box.

Section Handlers.

Variable newFunction : string -> Built.

(** The listener of the formula input:
    [compiledFunc = compileFormula(ui.input.value); updateTerrain(true);] *)
Definition on_input (text : string) (ref : Q * Q) (st : State) : State :=
  let '(f, box) :=
    compileFormula newFunction text (ctx (scene st)) (error_msg st) in
  updateTerrain true ref
    (mkState f (lastUpdateX st) (lastUpdateZ st) (scene st) box).

End Handlers.

(** *** The window as a list of descriptors *)

(** World coordinate of the column of index [i] on an axis centred on [c]. *)
Definition world (c : Z) (i : nat) : Z := c - Z.of_nat GRID / 2 + Z.of_nat i.

Definition column_height (f : HeightFunction) (cx cz : Z) (i j : nat) : Q :=
  height f (Ctx.mkCoords (world cx i) (world cz j)) (world cx i) (world cz j).

(** The descriptor of layer [d] of column [(i, j)]: its matrix and colour. *)
Definition descriptor (f : HeightFunction) (cx cz : Z) (i j d : nat)
  : Position * Color :=
  let y := column_height f cx cz i j in
  let biome := BiomeClassifier.classify y in
  ((world cx i, Qfloor y - Z.of_nat d, world cz j),
   if Nat.eqb d 0 then surface_color biome
   else multiplyScalar (under_color biome) (85 # 100)).

Definition column_descriptors (f : HeightFunction) (cx cz : Z) (i j : nat)
  : list (Position * Color) :=
  map (descriptor f cx cz i j) (seq 0 LAYERS).

Definition row_descriptors (f : HeightFunction) (cx cz : Z) (i : nat)
  : list (Position * Color) :=
  concat (map (column_descriptors f cx cz i) (seq 0 GRID)).

(** Row-major: the outer index is [i], then [j], then the layers. *)
Definition window_descriptors (f : HeightFunction) (cx cz : Z)
  : list (Position * Color) :=
  concat (map (row_descriptors f cx cz) (seq 0 GRID)).

(** The guard of [updateTerrain] lets the call through. *)
Definition passes_guard (force : bool) (ref : Q * Q) (st : State) : Prop :=
  force = true
  \/ 2 <= Z.abs (Qfloor (fst ref) - lastUpdateX st)
  \/ 2 <= Z.abs (Qfloor (snd ref) - lastUpdateZ st).

End Window.

Definition GRID_script : nat := 160.
Definition LAYERS_source : nat := 4.

(* ===================================================================== *)
(** ** The random formula builder  (script.js 113-135, part_000 114-144) *)
(* ===================================================================== *)

(** The values that the successive calls of [Math.random()] return, and the
    number of calls made so far. *)
Record Random : Type := mkRandom { draws : nat -> Q; used : nat }.

(** Code that draws random numbers: a result and the generator afterwards. *)
Definition Gen (A : Type) : Type := Random -> A * Random.

Definition ret {A : Type} (a : A) : Gen A := fun r => (a, r).

Definition bind {A B : Type} (m : Gen A) (k : A -> Gen B) : Gen B :=
  fun r => let '(a, r') := m r in k a r'.

Notation "x <- m ;; k" := (bind m (fun x => k))
  (at level 100, m at next level, right associativity).

(** [Math.random()] *)
Definition random : Gen Q :=
  fun r => (draws r (used r), mkRandom (draws r) (S (used r))).

Local Infix "+++" := String.append (right associativity, at level 60).

(** The decimal digits of a natural number, without leading zeros. *)
Definition digits_of (n : Z) : list ascii :=
  list_ascii_of_string (NilZero.string_of_uint (N.to_uint (Z.to_N n))).

Definition pad_zeros (k : nat) (m : list ascii) : list ascii :=
  replicate (k - length m) "0"%char ++ m.

(** [x.toFixed(f)] for a finite [x] below 10^21: the sign, then the integer
    [n] nearest to [|x| * 10^f] (the larger one of two), written with at
    least [f + 1] digits and a point before the last [f]. *)
Definition toFixed (x : Q) (f : nat) : string :=
  let sign := if Qltb x 0 then ["-"%char] else [] in
  let x := Qabs x in
  let n := Qfloor (x * inject_Z (10 ^ Z.of_nat f) + (1 # 2)) in
  let m := digits_of n in
  if Nat.eqb f 0 then string_of_list_ascii (sign ++ m)
  else
    let m := pad_zeros (S f) m in
    let k := length m in
    string_of_list_ascii (sign ++ take (k - f) m ++ "."%char :: drop (k - f) m).

(** [arr[Math.floor(Math.random()*arr.length)]]; an index outside the array
    reads [undefined], which a template prints as such. *)
Definition pick (arr : list string) : Gen string :=
  r <- random ;;
  let idx := Qfloor (r * inject_Z (Z.of_nat (length arr))) in
  ret (if idx <? 0 then "undefined"%string
       else nth (Z.to_nat idx) arr "undefined"%string).

Definition lower (c : ascii) : ascii :=
  let n := nat_of_ascii c in
  if (Nat.leb 65 n && Nat.leb n 90)%bool then ascii_of_nat (n + 32) else c.

(** [s.toLowerCase()] on the letters A to Z. *)
Fixpoint toLowerCase (s : string) : string :=
  match s with
  | EmptyString => EmptyString
  | String c rest => String (lower c) (toLowerCase rest)
  end.

(** The generator of script.js. *)
Module Generator_script.

Definition ops : list string := ["+"; "-"; "*"]%string.
Definition funcs : list string := ["sin"; "cos"; "abs"; "floor"]%string.
Definition noise : list string := ["simplex"; "octaved"]%string.

Equations genExpr (depth : Z) : Gen string by wf (Z.to_nat depth) lt :=
genExpr depth with Z_le_gt_dec depth 0 := {
  | left _ =>
      r <- random ;;
      if Qltb r (6 # 10) then
        c <- random ;;
        v <- random ;;
        ret ((if Qltb c (1 # 2) then "x" else "z")
             +++ "*" +++ toFixed (v * (15 # 100)) 3)
      else
        v <- random ;;
        ret (toFixed (v * 10) 1)
  | right _ =>
      type <- random ;;
      if Qltb type (3 # 10) then
        a <- genExpr (depth - 1) ;;
        op <- pick ops ;;
        b <- genExpr (depth - 1) ;;
        ret ("(" +++ a +++ " " +++ op +++ " " +++ b +++ ")")
      else if Qltb type (6 # 10) then
        f <- pick funcs ;;
        a <- genExpr (depth - 1) ;;
        ret (f +++ "(" +++ a +++ ")")
      else
        n <- pick noise ;;
        ret (n +++ "(x*0.05, 0, z*0.05) * 10") }.
Next Obligation. lia. Qed.
Next Obligation. lia. Qed.
Next Obligation. lia. Qed.

(** [create(type)]: a fixed text, the sum of two expressions of depth 2, or
    an expression of depth 3 times 15. *)
Definition create (type : string) : Gen string :=
  if String.eqb type "HARDCODED"
  then ret "floor(sin(x*0.1)*cos(z*0.1)*10)"%string
  else if String.eqb type "LONG MATH" then
    a <- genExpr 2 ;;
    b <- genExpr 2 ;;
    ret (a +++ " + " +++ b)
  else
    a <- genExpr 3 ;;
    ret (a +++ " * 15").

(** [const Categories] of script.js. *)
Definition Categories : list string :=
  ["HARDCODED"; "INTERMEDIATE"; "EXPERT"; "UNREAL"; "LONG MATH"]%string.

End Generator_script.

(** The generator of part_000; [genExpr] takes the name of the noise
    function besides the depth. *)
Module Generator_part_000.

Definition ops : list string := ["+"; "-"; "*"]%string.
Definition funcs : list string :=
  ["sin"; "cos"; "abs"; "floor"; "round"; "sqrt"]%string.
Definition noiseTypes : list string :=
  ["Perlin"; "Simplex"; "Normal"; "Blended"]%string.

Equations genExpr (depth : Z) (noiseKey : string) : Gen string
  by wf (Z.to_nat depth) lt :=
genExpr depth noiseKey with Z_le_gt_dec depth 0 := {
  | left _ =>
      r <- random ;;
      if Qltb r (6 # 10) then
        c <- random ;;
        v <- random ;;
        ret ((if Qltb c (1 # 2) then "x" else "z")
             +++ "*" +++ toFixed (v * (15 # 100) + (1 # 100)) 3)
      else
        v <- random ;;
        ret (toFixed (v * 15) 1)
  | right _ =>
      type <- random ;;
      if Qltb type (3 # 10) then
        a <- genExpr (depth - 1) noiseKey ;;
        op <- pick ops ;;
        b <- genExpr (depth - 1) noiseKey ;;
        ret ("(" +++ a +++ " " +++ op +++ " " +++ b +++ ")")
      else if Qltb type (6 # 10) then
        f <- pick funcs ;;
        a <- genExpr (depth - 1) noiseKey ;;
        ret (f +++ "(" +++ a +++ ")")
      else
        let name := toLowerCase noiseKey in
        fx <- random ;;
        fz <- random ;;
        k <- random ;;
        ret (name +++ "(x*" +++ toFixed (fx * (1 # 10)) 3
             +++ ", 0, z*" +++ toFixed (fz * (1 # 10)) 3
             +++ ") * " +++ toFixed (k * 20 + 5) 0) }.
Next Obligation. lia. Qed.
Next Obligation. lia. Qed.
Next Obligation. lia. Qed.

(** The object that [create] returns. *)
Record Generated : Set :=
  mkGenerated { formula : string; noise : string; type : string; level : string }.

Definition themes : list string :=
  [ "Blocky"; "Smooth"; "Upwards"; "Downward"; "Reverse"; "Forward";
    "FlipX"; "FlipY"; "FlipZ"; "Void"; "Tower"; "Skyscraper"; "Holes";
    "Cavern"; "Fantasy"; "Underwater"; "Hell"; "Realistic"; "One Block";
    "X-Ray"; "Sphere"; "Cubes"; "Pyramid"; "Torus"; "Star"; "Notch";
    "Underworld"; "Floating"; "Floating Island"; "Upside Down"; "Digital";
    "Modern"; "Cyberpunk2077"; "Maze"; "Giant Maze"; "Auto Maze" ]%string.

Definition levels : list string :=
  ["Hardcoded"; "Expert"; "Unreal"; "Long Math"; "Intermediate"]%string.

(** The [switch(theme)] of [getFormulaForTheme]. *)
Definition theme_formula (theme baseNoise randExpr : string) : string :=
  if String.eqb theme "Upwards" then
    "abs(" +++ randExpr +++ ") + (x + z) * 0.1"
  else if String.eqb theme "Downward" then
    "abs(" +++ randExpr +++ ") - (x + z) * 0.1"
  else if String.eqb theme "Reverse" then
    "-1 * (" +++ randExpr +++ ")"
  else if String.eqb theme "Forward" then
    "(" +++ randExpr +++ ") + z * 0.5"
  else if String.eqb theme "FlipX" then
    "sin(-x*0.1) * 10 + " +++ baseNoise +++ "*10"
  else if String.eqb theme "FlipY" then
    "-1 * abs(" +++ randExpr +++ ")"
  else if String.eqb theme "FlipZ" then
    "cos(-z*0.1) * 10 + " +++ baseNoise +++ "*10"
  else if String.eqb theme "Upside Down" then
    "-1 * (" +++ randExpr +++ " + 20)"
  else if String.eqb theme "Blocky" then
    "floor(" +++ baseNoise +++ " * 15) * 2"
  else if String.eqb theme "Cubes" then
    "floor(x/4)*4 + floor(z/4)*4 + " +++ baseNoise +++ "*5"
  else if String.eqb theme "Digital" then
    "round(" +++ baseNoise +++ " * 10) * 2 + mod(x, 2)"
  else if String.eqb theme "Modern" then
    "max(abs(x%10), abs(z%10)) + " +++ baseNoise +++ "*5"
  else if String.eqb theme "Cyberpunk2077" then
    "mod(floor(x), 5) * mod(floor(z), 5) * 5 + " +++ baseNoise +++ "*10"
  else if String.eqb theme "One Block" then
    "(abs(x)<1 && abs(z)<1) ? 10 : 0"
  else if String.eqb theme "X-Ray" then
    "(mod(x, 2) > 1 && mod(z, 2) > 1) ? " +++ baseNoise +++ "*20 : 0"
  else if String.eqb theme "Sphere" then
    "sqrt(max(0, 900 - x*x - z*z))"
  else if String.eqb theme "Torus" then
    "sqrt(max(0, 100 - pow(sqrt(x*x+z*z) - 30, 2)))"
  else if String.eqb theme "Pyramid" then
    "max(0, 40 - max(abs(x), abs(z)))"
  else if String.eqb theme "Star" then
    "max(0, 30 - sqrt(x*x+z*z) + sin(atan2(z,x)*5)*10)"
  else if String.eqb theme "Tower" then
    "max(0, 50 - sqrt(x*x+z*z)*2)"
  else if String.eqb theme "Smooth" then
    "sin(x*0.05)*10 + cos(z*0.05)*10 + " +++ baseNoise +++ "*5"
  else if String.eqb theme "Realistic" then
    "octaved(x*0.01, z*0.01, 4, 0.5) * 40"
  else if String.eqb theme "Fantasy" then
    "sin(x*0.1)*cos(z*0.1)*10 + pow(abs(" +++ baseNoise +++ "), 3)*15"
  else if String.eqb theme "Underwater" then
    "min(-2, " +++ baseNoise +++ " * 20)"
  else if String.eqb theme "Cavern" then
    "abs(" +++ baseNoise +++ "*20) * -1 + 10"
  else if String.eqb theme "Holes" then
    "10 - max(0, sin(x*0.2)*sin(z*0.2)*20)"
  else if String.eqb theme "Notch" then
    baseNoise +++ " * 20 + (rand() > 0.9 ? 10 : 0)"
  else if String.eqb theme "Maze" then
    "floor(sin(x*0.2) + cos(z*0.2) + 1.5) * 10"
  else if String.eqb theme "Giant Maze" then
    "floor(sin(x*0.05) + cos(z*0.05) + 1.2) * 20"
  else if String.eqb theme "Auto Maze" then
    "(perlin(x*0.1,0,z*0.1) > 0.2) ? 10 : 0"
  else if String.eqb theme "Skyscraper" then
    "(mod(x, 10) < 3 && mod(z, 10) < 3) ? " +++ randExpr +++ " + 20 : 0"
  else if String.eqb theme "Void" then
    "(sqrt(x*x+z*z) > 20) ? " +++ randExpr +++ " : -50"
  else if String.eqb theme "Floating" then
    baseNoise +++ "*10 + 30"
  else if String.eqb theme "Floating Island" then
    "max(0, 30 - sqrt(x*x+z*z)) + " +++ baseNoise +++ "*5 + 20"
  else if String.eqb theme "Hell" then
    "abs(tan(x*0.05 + z*0.05)) * 10 + " +++ baseNoise +++ "*5"
  else if String.eqb theme "Underworld" then
    baseNoise +++ " * 10 - 30"
  else randExpr.

(** [getFormulaForTheme(theme, noiseKey, level)], with the value of the
    global [isRealisticOnly] at the time of the call. *)
Definition getFormulaForTheme (isRealisticOnly : bool)
    (theme noiseKey level : string) : Gen string :=
  if String.eqb theme "Realistic" && isRealisticOnly then
    s <- random ;;
    let scale := toFixed (s * (2 # 100) + (5 # 1000)) 4 in
    h <- random ;;
    let height := toFixed (h * 30 + 15) 0 in
    ret ("octaved(x*" +++ scale +++ ", z*" +++ scale +++ ", 4, 0.5) * "
         +++ height)
  else
    let depth := 3 in
    let depth := if String.eqb level "Expert" then 4 else depth in
    let depth := if String.eqb level "Long Math" then 5 else depth in
    let depth := if String.eqb level "Hardcoded" then 1 else depth in
    let baseNoise := toLowerCase noiseKey +++ "(x*0.05, 0, z*0.05)" in
    randExpr <- genExpr depth noiseKey ;;
    ret (theme_formula theme baseNoise randExpr).

(** [create()], with the value of the global [isRealisticOnly]. *)
Definition create (isRealisticOnly : bool) : Gen Generated :=
  if isRealisticOnly then
    let theme := "Realistic"%string in
    let level := "Intermediate"%string in
    noise <- pick noiseTypes ;;
    formula <- getFormulaForTheme isRealisticOnly theme noise level ;;
    ret (mkGenerated formula noise theme level)
  else
    theme <- pick themes ;;
    level <- pick levels ;;
    noise <- pick noiseTypes ;;
    formula <- getFormulaForTheme isRealisticOnly theme noise level ;;
    ret (mkGenerated formula noise theme level).

End Generator_part_000.

(** An upper bound on the number of draws of a call at depth [d]. *)
Definition draws_bound (d : nat) : nat := (5 * 2 ^ d - 2)%nat.

(* ===================================================================== *)
(** ** The syntax of formula texts *)
(* ===================================================================== *)

(** The expressions of the host language that are built from decimal
    literals, names, parentheses, the operators [+], [-], [*] and calls. *)
Module Syntax.

Fixpoint all_chars (p : ascii -> bool) (s : string) : bool :=
  match s with
  | EmptyString => true
  | String c rest => p c && all_chars p rest
  end.

Definition is_ident_part (c : ascii) : bool :=
  Host.is_ident_start c || Host.is_digit c.

(** The reserved words of the host language. *)
Definition reserved : list string :=
  [ "break"; "case"; "catch"; "class"; "const"; "continue"; "debugger";
    "default"; "delete"; "do"; "else"; "enum"; "export"; "extends"; "false";
    "finally"; "for"; "function"; "if"; "import"; "in"; "instanceof"; "new";
    "null"; "return"; "super"; "switch"; "this"; "throw"; "true"; "try";
    "typeof"; "var"; "void"; "while"; "with" ]%string.

Definition is_identifier (s : string) : bool :=
  match s with
  | EmptyString => false
  | String c rest => Host.is_ident_start c && all_chars is_ident_part rest
  end
  && negb (existsb (String.eqb s) reserved).

Definition Identifier (s : string) : Prop := is_identifier s = true.

Definition digit (c : ascii) : Prop := Host.is_digit c = true.

(** The integer part of a decimal literal: [0], or digits that do not start
    with [0]. *)
Inductive IntegerPart : list ascii -> Prop :=
  | IP_zero : IntegerPart ["0"%char]
  | IP_nonzero (c : ascii) (rest : list ascii) :
      digit c -> c <> "0"%char -> Forall digit rest -> IntegerPart (c :: rest).

Inductive Numeral : string -> Prop :=
  | N_integer (ip : list ascii) :
      IntegerPart ip -> Numeral (string_of_list_ascii ip)
  | N_fraction (ip fp : list ascii) :
      IntegerPart ip -> fp <> [] -> Forall digit fp ->
      Numeral (string_of_list_ascii (ip ++ "."%char :: fp)).

Definition Blank (s : string) : Prop :=
  all_chars (fun c => Ascii.eqb c " "%char) s = true.

Definition Operator (s : string) : Prop :=
  s = "+"%string \/ s = "-"%string \/ s = "*"%string.

Inductive Formula : string -> Prop :=
  | F_numeral (s : string) : Numeral s -> Formula s
  | F_name (s : string) : Identifier s -> Formula s
  | F_paren (e : string) : Formula e -> Formula ("(" +++ e +++ ")")
  | F_binary (a w1 op w2 b : string) :
      Formula a -> Blank w1 -> Operator op -> Blank w2 -> Formula b ->
      Formula (a +++ w1 +++ op +++ w2 +++ b)
  | F_call (f args : string) :
      Identifier f -> Arguments args -> Formula (f +++ "(" +++ args +++ ")")
with Arguments : string -> Prop :=
  | A_last (e : string) : Formula e -> Arguments e
  | A_more (e w rest : string) :
      Formula e -> Blank w -> Arguments rest ->
      Arguments (e +++ "," +++ w +++ rest).

(** What the builder leaves at depth 0: a coordinate times a literal, or a
    literal. *)
Definition BaseTerm (s : string) : Prop :=
  Numeral s
  \/ exists v num, (v = "x"%string \/ v = "z"%string) /\ Numeral num
                   /\ s = v +++ "*" +++ num.

End Syntax.

(* ===================================================================== *)
(** ** Noise.seed  (script.js 10-18, part_000 10-18) *)
(* ===================================================================== *)

(** A loop whose body draws random numbers. *)
Definition for_upto_gen {St : Type} (n : nat) (body : nat -> St -> Gen St)
    (s : St) : Gen St :=
  fold_left (fun m i => bind m (body i)) (seq 0 n) (ret s).

(** Reads and writes of a [Uint8Array].  A read outside the array is
    [undefined], which every use below stores into a byte array, where it
    becomes 0; a write outside the array does nothing; a value is stored
    modulo 256. *)
Module Uint8Array.

Definition get (p : list Z) (k : Z) : Z :=
  if k <? 0 then 0 else nth (Z.to_nat k) p 0.

Definition set (p : list Z) (k : Z) (v : Z) : list Z :=
  if k <? 0 then p else <[Z.to_nat k := v mod 256]> p.

(** [new Uint8Array(n)] *)
Definition make (n : nat) : list Z := replicate n 0.

End Uint8Array.

Module NoiseSeed.

(** The body of the second loop: a swap of [p[i]] with a random entry. *)
Definition swap (i : nat) (p : list Z) : Gen (list Z) :=
  q <- random ;;
  let r := Qfloor (q * 256) in
  let t := Uint8Array.get p (Z.of_nat i) in
  let p := Uint8Array.set p (Z.of_nat i) (Uint8Array.get p r) in
  let p := Uint8Array.set p r t in
  ret p.

(** [Noise.seed()]: the new contents of [Noise.perm], given the old ones. *)
Definition seed (perm : list Z) : Gen (list Z) :=
  let p := Uint8Array.make 256 in
  let p := for_upto 256 (fun i p => Uint8Array.set p (Z.of_nat i) (Z.of_nat i)) p in
  p <- for_upto_gen 256 swap p ;;
  ret (for_upto 512
         (fun i perm =>
            Uint8Array.set perm (Z.of_nat i)
              (Uint8Array.get p (Int32.and (Z.of_nat i) 255)))
         perm).

End NoiseSeed.

(* ===================================================================== *)
(** ** The history and the saved list  (part_000 436-490) *)
(* ===================================================================== *)

Module Sidebar.

(** An entry of [historyList] or [savedList]. *)
Record Item : Set :=
  mkItem { formula : string; noise : string; type : string; name : string }.

(** [historyList.unshift(item); if(historyList.length > 50)
    historyList.pop();]: the new contents of [historyList]. *)
Definition addToHistory (item : Item) (historyList : list Item) : list Item :=
  let historyList := item :: historyList in
  if Nat.ltb 50 (length historyList) then removelast historyList
  else historyList.

(** [saveCurrent()], [item] being read from the page: the new contents of
    [savedList] and the text of the toast. *)
Definition saveCurrent (item : Item) (savedList : list Item)
  : list Item * string :=
  if negb (existsb (fun s => String.eqb (formula s) (formula item)) savedList)
  then (item :: savedList, "SAVED!"%string)
  else (savedList, "ALREADY SAVED"%string).

(** The history after [initGen] has logged the items of a list, the first
    one first. *)
Definition logged (items : list Item) : list Item :=
  fold_left (fun historyList item => addToHistory item historyList) items [].

(** The saved list after the items of a list were saved, the first one
    first. *)
Definition saved (items : list Item) : list Item :=
  fold_left (fun savedList item => fst (saveCurrent item savedList)) items [].

(** The delete button of the row of index [index]:
    [list.splice(index, 1)] on the list that the sidebar shows. *)
Definition deleteRow (index : nat) (l : list Item) : list Item :=
  delete index l.

(** What changes the two lists: [initGen] logs an item, the save button
    saves one, the delete button of a row removes an entry of the history
    or of the saved list. *)
Inductive Action : Set :=
  | Log (item : Item)
  | Save (item : Item)
  | DeleteFromHistory (index : nat)
  | DeleteFromSaved (index : nat).

Record Lists : Set :=
  mkLists { historyList : list Item; savedList : list Item }.

Definition act (l : Lists) (a : Action) : Lists :=
  match a with
  | Log item => mkLists (addToHistory item (historyList l)) (savedList l)
  | Save item => mkLists (historyList l) (fst (saveCurrent item (savedList l)))
  | DeleteFromHistory index =>
      mkLists (deleteRow index (historyList l)) (savedList l)
  | DeleteFromSaved index =>
      mkLists (historyList l) (deleteRow index (savedList l))
  end.

(** The two lists of a page, both empty at the start, after the actions of
    a list, the first one first. *)
Definition after (actions : list Action) : Lists :=
  fold_left act actions (mkLists [] []).

End Sidebar.

(* ===================================================================== *)
(** ** The host's expression language with calls *)
(* ===================================================================== *)

(** The [Function] constructor on a larger fragment than [Host]: formula
    texts built from identifiers, decimal integer literals, the operators
    [+], [-], [*], parentheses, spaces, tabs and calls [name(e, ..., e)].

    What the definitions below fix is what the language fixes: the grammar,
    the order of evaluation, the resolution of names and the exceptions it
    raises.  The values and the primitives of the host (its arithmetic, the
    functions of [Math] behind the members of [Ctx]) are a parameter.  A name
    is resolved as in [with(C){...}] inside a function of the parameters
    [C], [x] and [z]: first among the keys of [Ctx], then among the
    parameters, then elsewhere (a property that [Ctx] inherits, a property of
    the global object), and a name found nowhere raises a ReferenceError.
    Texts that use the parameter [C] or a name that is found elsewhere are
    outside the fragment and are reported as a syntax error here, like every
    text outside the grammar.  A call of a function of [Ctx] is taken to
    return, which [octaved] does not on an octave count beyond 2^53. *)
Module HostCalls.

Record Primitives : Type := mkPrimitives {
  (** The values of the host. *)
  value : Type;
  (** The value of a decimal integer literal and of an argument [x] or [z]. *)
  literal : Z -> value;
  coordinate : Z -> value;
  (** The value of a key of [Ctx] that holds a number, and of one that
      holds a function. *)
  constant : Ctx.Coords -> string -> value;
  function : string -> value;
  (** What the function under a key of [Ctx] returns on these arguments. *)
  apply : Ctx.Coords -> string -> list value -> value;
  negate : value -> value;
  plus : value -> value;
  add : value -> value -> value;
  subtract : value -> value -> value;
  multiply : value -> value -> value;
  (** The Number that a returned value is, as [Number.isFinite] sees it. *)
  number : value -> Number;
  (** The name is found elsewhere than among the keys of [Ctx] and the
      parameters. *)
  elsewhere : string -> bool
}.

Inductive token : Set :=
  | Tok (t : Host.token)
  | TComma.

(** The pieces of a text between its commas.  No token of the fragment
    holds a comma, so that a comma ends the token before it. *)
Fixpoint pieces (s piece : string) : list string :=
  match s with
  | EmptyString => [piece]
  | String c rest =>
      if Ascii.eqb c ","%char then piece :: pieces rest EmptyString
      else pieces rest (Host.snoc piece c)
  end.

Fixpoint join (l : list (list Host.token)) : list token :=
  match l with
  | [] => []
  | [ts] => map Tok ts
  | ts :: rest => map Tok ts ++ TComma :: join rest
  end.

Definition tokens (s : string) : list token :=
  join (map Host.tokens (pieces s EmptyString)).

#[local] Unset Elimination Schemes.
Inductive expr : Set :=
  | Lit (n : Z)
  | Var (name : string)
  | Neg (e : expr)
  | Plus (e : expr)
  | Add (a b : expr)
  | Sub (a b : expr)
  | Mul (a b : expr)
  | Call (callee : string) (args : list expr).
#[local] Set Elimination Schemes.

(** The reserved words of the host language are no identifiers. *)
Definition is_name (s : string) : bool :=
  negb (existsb (String.eqb s) Syntax.reserved).

(** Recursive descent with a budget that the descent cannot exhaust: every
    call consumes a token or is followed by one that does.
    arguments ::= additive ( , additive )... [ , ] )
    primary ::= literal | identifier | identifier ( [ arguments ] | ( additive )
    unary ::= - unary | + unary | primary
    multiplicative ::= unary ( * unary )...
    additive ::= multiplicative ( (+|-) multiplicative )... *)
Fixpoint parse_unary (fuel : nat) (ts : list token) : option (expr * list token) :=
  match fuel with
  | O => None
  | S fuel =>
      match ts with
      | Tok Host.TMinus :: ts =>
          match parse_unary fuel ts with
          | Some (e, ts) => Some (Neg e, ts)
          | None => None
          end
      | Tok Host.TPlus :: ts =>
          match parse_unary fuel ts with
          | Some (e, ts) => Some (Plus e, ts)
          | None => None
          end
      | Tok (Host.TNum n) :: ts => Some (Lit n, ts)
      | Tok (Host.TIdent s) :: Tok Host.TLParen :: Tok Host.TRParen :: ts =>
          if is_name s then Some (Call s [], ts) else None
      | Tok (Host.TIdent s) :: Tok Host.TLParen :: ts =>
          if is_name s then
            match parse_arguments fuel ts with
            | Some (args, ts) => Some (Call s args, ts)
            | None => None
            end
          else None
      | Tok (Host.TIdent s) :: ts =>
          if is_name s then Some (Var s, ts) else None
      | Tok Host.TLParen :: ts =>
          match parse_unary fuel ts with
          | Some (a, ts) =>
              match parse_additive_rest fuel (parse_mul_rest fuel a ts) with
              | Some (e, Tok Host.TRParen :: ts) => Some (e, ts)
              | _ => None
              end
          | None => None
          end
      | _ => None
      end
  end
with parse_mul_rest (fuel : nat) (a : expr) (ts : list token)
  : option (expr * list token) :=
  match fuel with
  | O => None
  | S fuel =>
      match ts with
      | Tok Host.TStar :: ts =>
          match parse_unary fuel ts with
          | Some (b, ts) => parse_mul_rest fuel (Mul a b) ts
          | None => None
          end
      | _ => Some (a, ts)
      end
  end
with parse_additive_rest (fuel : nat) (r : option (expr * list token))
  : option (expr * list token) :=
  match fuel with
  | O => None
  | S fuel =>
      match r with
      | Some (a, Tok Host.TPlus :: ts) =>
          match parse_unary fuel ts with
          | Some (b, ts) =>
              match parse_mul_rest fuel b ts with
              | Some (b, ts) => parse_additive_rest fuel (Some (Add a b, ts))
              | None => None
              end
          | None => None
          end
      | Some (a, Tok Host.TMinus :: ts) =>
          match parse_unary fuel ts with
          | Some (b, ts) =>
              match parse_mul_rest fuel b ts with
              | Some (b, ts) => parse_additive_rest fuel (Some (Sub a b, ts))
              | None => None
              end
          | None => None
          end
      | r => r
      end
  end
with parse_arguments (fuel : nat) (ts : list token)
  : option (list expr * list token) :=
  match fuel with
  | O => None
  | S fuel =>
      match parse_unary fuel ts with
      | Some (a, ts) =>
          match parse_additive_rest fuel (parse_mul_rest fuel a ts) with
          | Some (e, Tok Host.TRParen :: ts) => Some ([e], ts)
          | Some (e, TComma :: Tok Host.TRParen :: ts) => Some ([e], ts)
          | Some (e, TComma :: ts) =>
              match parse_arguments fuel ts with
              | Some (es, ts) => Some (e :: es, ts)
              | None => None
              end
          | _ => None
          end
      | None => None
      end
  end.

Definition parse_expression (ts : list token) : option (expr * list token) :=
  let fuel := S (2 * length ts) in
  match parse_unary fuel ts with
  | Some (a, ts) => parse_additive_rest fuel (parse_mul_rest fuel a ts)
  | None => None
  end.

(** The statement [with(C){return e;}]; [None] in the result stands for a
    [return;] without an expression. *)
Definition parse_body (ts : list token) : option (option expr) :=
  match ts with
  | Tok (Host.TIdent w) :: Tok Host.TLParen :: Tok (Host.TIdent c)
    :: Tok Host.TRParen :: Tok Host.TLBrace :: Tok (Host.TIdent r) :: ts =>
      if String.eqb w "with" && String.eqb c "C" && String.eqb r "return" then
        match ts with
        | [Tok Host.TSemi; Tok Host.TRBrace] => Some None
        | _ =>
            match parse_expression ts with
            | Some (e, [Tok Host.TSemi; Tok Host.TRBrace]) => Some (Some e)
            | _ => None
            end
        end
      else None
  | _ => None
  end.

(** The names that an expression mentions. *)
Fixpoint names (e : expr) : list string :=
  match e with
  | Lit _ => []
  | Var name => [name]
  | Neg a | Plus a => names a
  | Add a b | Sub a b | Mul a b => names a ++ names b
  | Call callee args => callee :: flat_map names args
  end.

Section Evaluation.

Variable host : Primitives.

(** The keys of [Ctx] that hold functions, in the revision at hand. *)
Variable functions : list string.

(** What a name is bound to. *)
Inductive binding : Type :=
  | Data (v : value host)
  | Method (name : string)
  | Unbound.

Definition resolve (c : Ctx.Coords) (x z : Z) (name : string) : binding :=
  if existsb (String.eqb name) Ctx.constants then Data (constant host c name)
  else if existsb (String.eqb name) functions then Method name
  else if String.eqb name "x" then Data (coordinate host x)
  else if String.eqb name "z" then Data (coordinate host z)
  else Unbound.

(** Evaluation: [inl] a value, [inr] the message of the exception thrown.
    A call resolves its callee first, then evaluates its arguments from
    left to right, then tests that the callee is a function. *)
Fixpoint eval (e : expr) (c : Ctx.Coords) (x z : Z) : value host + string :=
  let unary (op : value host -> value host) (a : expr) :=
    match eval a c x z with
    | inl v => inl (op v)
    | inr m => inr m
    end in
  let binary (op : value host -> value host -> value host) (a b : expr) :=
    match eval a c x z with
    | inl va =>
        match eval b c x z with
        | inl vb => inl (op va vb)
        | inr m => inr m
        end
    | inr m => inr m
    end in
  match e with
  | Lit n => inl (literal host n)
  | Var name =>
      match resolve c x z name with
      | Data v => inl v
      | Method f => inl (function host f)
      | Unbound => inr (String.append name " is not defined")
      end
  | Neg a => unary (negate host) a
  | Plus a => unary (plus host) a
  | Add a b => binary (add host) a b
  | Sub a b => binary (subtract host) a b
  | Mul a b => binary (multiply host) a b
  | Call callee args =>
      match resolve c x z callee with
      | Unbound => inr (String.append callee " is not defined")
      | target =>
          let fix eval_arguments (l : list expr) : list (value host) + string :=
            match l with
            | [] => inl []
            | a :: l =>
                match eval a c x z with
                | inl v =>
                    match eval_arguments l with
                    | inl vs => inl (v :: vs)
                    | inr m => inr m
                    end
                | inr m => inr m
                end
            end in
          match eval_arguments args with
          | inl vs =>
              match target with
              | Method f => inl (apply host c f vs)
              | _ => inr (String.append callee " is not a function")
              end
          | inr m => inr m
          end
      end
  end.

Definition call (body : option expr) : HeightFunction :=
  fun c x z =>
    match body with
    | None => Returns NotFinite
    | Some e =>
        match eval e c x z with
        | inl v => Returns (number host v)
        | inr m => Throws m
        end
    end.

(** The name is a key of [Ctx] or one of the arguments [x] and [z]. *)
Definition bound_here (name : string) : bool :=
  existsb (String.eqb name) Ctx.constants
  || existsb (String.eqb name) functions
  || String.eqb name "x" || String.eqb name "z".

(** The text stays inside the fragment: every name that is not bound here
    is found nowhere (it is not the parameter [C] and is not found
    elsewhere). *)
Definition inside (body : option expr) : bool :=
  match body with
  | None => true
  | Some e =>
      forallb (fun name =>
                 bound_here name
                 || negb (String.eqb name "C" || elsewhere host name))
        (names e)
  end.

Definition newFunction (body : string) : Built :=
  match parse_body (tokens body) with
  | Some b =>
      if inside b then Callable (call b) else SyntaxError "Unexpected token"
  | None => SyntaxError "Unexpected token"
  end.

End Evaluation.

End HostCalls.

(* ===================================================================== *)
(** ** Predicates and sample states used in the statements *)
(* ===================================================================== *)

(** The two ways a compilation fails: the text does not parse, or the call
    at the coordinate (0, 0) throws. *)
Definition compile_error (newFunction : string -> Built) (str : string)
    (c : Ctx.Coords) : Prop :=
  (exists msg,
     newFunction (function_body (replace_caret str)) = SyntaxError msg)
  \/ (exists f msg,
        newFunction (function_body (replace_caret str)) = Callable f
        /\ f c 0 0 = Throws msg).

(** The loops have written the descriptors [ds], in order, over the first
    entries of the buffers [m0] and [c0], and the index stands after them. *)
Definition written (m0 : list Position) (c0 : list Color)
    (ds : list (Position * Color)) (l : nat * Scene) : Prop :=
  fst l = length ds
  /\ instanceMatrix (snd l) = map fst ds ++ drop (length ds) m0
  /\ instanceColor (snd l) = map snd ds ++ drop (length ds) c0.

(** The formula [x + z] as the host fragment compiles it. *)
Definition sum_function : HeightFunction :=
  Host.call (Some (Host.Add (Host.Var "x") (Host.Var "z"))).

(** A formula that throws on the column at the origin and is the sum
    elsewhere. *)
Definition throwing_at_origin : HeightFunction :=
  fun c x z =>
    if (x =? 0) && (z =? 0) then Throws "undefined is not a function"
    else sum_function c x z.

(** The reference point at the origin. *)
Definition origin : Q * Q := (0%Q, 0%Q).

(** The error box of a page that shows no error. *)
Definition hidden_box : ErrorBox := mkErrorBox "" true.

(** The state after a first compilation of [f] and before any refresh. *)
Definition compiled_state (GRID LAYERS : nat) (f : HeightFunction) : State :=
  let st := initial GRID LAYERS hidden_box in
  mkState (Some f) (lastUpdateX st) (lastUpdateZ st) (scene st) (error_msg st).

(** The same state with another compiled function installed. *)
Definition with_function (g : HeightFunction) (st : State) : State :=
  mkState (Some g) (lastUpdateX st) (lastUpdateZ st) (scene st) (error_msg st).

(** The page of script.js after the text [x + z] was typed into the formula
    input of the initial page, the scene reporting the origin. *)
Definition after_sum : State :=
  on_input GRID_script LAYERS_source Host.newFunction "x + z" origin
    (initial GRID_script LAYERS_source hidden_box).

(** The same page after the text was then shortened to [x +]. *)
Definition after_dangling : State :=
  on_input GRID_script LAYERS_source Host.newFunction "x +" origin after_sum.

(** A reference point 3 units east of the origin. *)
Definition three_east : Q * Q := (3%Q, 0%Q).

(** [Math.random()] returns values from 0 inclusive to 1 exclusive. *)
Definition unit_draws (r : Random) : Prop :=
  forall n, (0 <= draws r n)%Q /\ (draws r n < 1)%Q.

(** Run from a generator with unit draws, [m] leaves a result that satisfies
    [P], draws from the same sequence, and makes at most [n] calls. *)
Definition yields {A : Type} (n : nat) (m : Gen A) (P : A -> Prop) : Prop :=
  forall r, unit_draws r ->
    P (fst (m r))
    /\ draws (snd (m r)) = draws r
    /\ (used r <= used (snd (m r)) <= used r + n)%nat.

(** Every draw is one half. *)
Definition half_draws : Random := mkRandom (fun _ => 1 # 2) 0.

(** The draws 0, 0.37, 0.74, 0.11, ... *)
Definition stepping_draws : Random :=
  mkRandom (fun n => Qmake (Z.of_nat ((n * 37) mod 100)) 100) 0.

(** The loops of a refresh of [updateTerrain], from the instance index 0
    and the scene [sc]. *)
Definition refresh_loops (GRID LAYERS : nat) (f : HeightFunction) (cx cz : Z)
    (sc : Scene) : nat * Scene :=
  for_upto GRID
    (fun i => for_upto GRID
                (fun j => column LAYERS f cx cz (Z.of_nat GRID / 2) i j))
    (0%nat, sc).

(** The characters of a text, to speak of the ones it holds. *)
Fixpoint has_char (c : ascii) (s : string) : bool :=
  match s with
  | EmptyString => false
  | String d rest => Ascii.eqb c d || has_char c rest
  end.

(** The number of carets of a text. *)
Fixpoint carets (s : string) : nat :=
  match s with
  | EmptyString => 0
  | String d rest => ((if Ascii.eqb d "^"%char then 1 else 0) + carets rest)%nat
  end.

(** The bytes 0 to 255, each once, in some order. *)
Definition shuffled (p : list Z) : Prop :=
  length p = 256%nat /\ NoDup p /\ Forall (fun x => 0 <= x < 256) p.

(** The table that [Noise.seed] leaves: 512 entries whose first 256 are the
    bytes 0 to 255, each once, and whose second half repeats the first. *)
Definition seeded (t : list Z) : Prop :=
  length t = 512%nat
  /\ take 256 t ≡ₚ map Z.of_nat (seq 0 256)
  /\ (forall i, (i < 256)%nat -> t !! (256 + i)%nat = t !! i)
  /\ Forall (fun x => 0 <= x < 256) t.

(** The loop state of [octaved] while the persistence is positive. *)
Definition balanced (s : Ctx.Octaves) : Prop :=
  (0 < Ctx.amp s /\ 0 <= Ctx.max s
   /\ - (105 # 8) * Ctx.max s <= Ctx.total s
   /\ Ctx.total s <= (105 # 8) * Ctx.max s)%Q.

(** The text of the realistic mode: [octaved(x*s, z*s, 4, 0.5) * h] with
    one literal [s] for both coordinates and a literal [h]. *)
Definition realistic_formula (t : string) : Prop :=
  exists s h,
    Syntax.Numeral s /\ Syntax.Numeral h
    /\ t = String.append "octaved(x*"
             (String.append s
                (String.append ", z*"
                   (String.append s (String.append ", 4, 0.5) * " h)))).

(** The text of a theme: its template, filled with the base noise call of
    the noise [noiseKey] and with an expression of the formula syntax. *)
Definition themed_formula (theme noiseKey t : string) : Prop :=
  exists randExpr,
    Syntax.Formula randExpr
    /\ t = Generator_part_000.theme_formula theme
             (String.append (toLowerCase noiseKey) "(x*0.05, 0, z*0.05)")
             randExpr.

(** What [create] of part_000 leaves in the object it returns. *)
Definition listed (isRealisticOnly : bool) (d : Generator_part_000.Generated)
  : Prop :=
  In (Generator_part_000.noise d) Generator_part_000.noiseTypes
  /\ In (Generator_part_000.type d) Generator_part_000.themes
  /\ In (Generator_part_000.level d) Generator_part_000.levels
  /\ (isRealisticOnly = true ->
      Generator_part_000.type d = "Realistic"%string
      /\ Generator_part_000.level d = "Intermediate"%string
      /\ realistic_formula (Generator_part_000.formula d))
  /\ (isRealisticOnly = false ->
      themed_formula (Generator_part_000.type d) (Generator_part_000.noise d)
        (Generator_part_000.formula d)).

(** A coordinate within the range of the world coordinates of the terrain,
    2^31 in magnitude.  There the code stays far from overflow, beyond which
    the number model of this file says nothing about it. *)
Definition in_world (q : Q) : Prop := (Qabs q <= inject_Z (2 ^ 31))%Q.


(** The template of the theme Star (part_000 213). *)
Definition star_formula : string :=
  "max(0, 30 - sqrt(x*x+z*z) + sin(atan2(z,x)*5)*10)".

(** The expression that the text of the theme Star denotes. *)
Definition star_expression : HostCalls.expr :=
  HostCalls.Call "max"
    [ HostCalls.Lit 0;
      HostCalls.Add
        (HostCalls.Sub (HostCalls.Lit 30)
           (HostCalls.Call "sqrt"
              [ HostCalls.Add
                  (HostCalls.Mul (HostCalls.Var "x") (HostCalls.Var "x"))
                  (HostCalls.Mul (HostCalls.Var "z") (HostCalls.Var "z")) ]))
        (HostCalls.Mul
           (HostCalls.Call "sin"
              [ HostCalls.Mul
                  (HostCalls.Call "atan2"
                     [ HostCalls.Var "z"; HostCalls.Var "x" ])
                  (HostCalls.Lit 5) ])
           (HostCalls.Lit 10)) ].

(** A host to run the definitions on: its numbers are the rationals, its
    arithmetic is exact, every function of [Ctx] returns NaN and no name is
    found outside [Ctx] and the parameters. *)
Definition exact_host : HostCalls.Primitives :=
  let lift1 (op : Q -> Q) (a : Number) :=
    match a with
    | Finite p => Finite (op p)
    | NotFinite => NotFinite
    end in
  let lift2 (op : Q -> Q -> Q) (a b : Number) :=
    match a, b with
    | Finite p, Finite q => Finite (op p q)
    | _, _ => NotFinite
    end in
  HostCalls.mkPrimitives Number
    (fun n => Finite (inject_Z n))
    (fun n => Finite (inject_Z n))
    (fun c name =>
       if String.eqb name "_x" then Finite (inject_Z (Ctx._x c))
       else if String.eqb name "_z" then Finite (inject_Z (Ctx._z c))
       else NotFinite)
    (fun _ => NotFinite)
    (fun _ _ _ => NotFinite)
    (lift1 Qopp) (lift1 (fun p => p))
    (lift2 Qplus) (lift2 Qminus) (lift2 Qmult)
    (fun v => v)
    (fun _ => false).
(* ===================================================================== *)
(** ** Properties of the 32-bit operations and of the hash *)
(* ===================================================================== *)

Section Int32Facts.
Import Int32.

Lemma toInt32_range (n : Z) : is_int32 (toInt32 n).
Proof.
  unfold is_int32, toInt32.
  pose proof (Z.mod_pos_bound (n + 2 ^ 31) (2 ^ 32) ltac:(lia)). lia.
Qed.

Lemma toInt32_id (n : Z) : is_int32 n -> toInt32 n = n.
Proof.
  unfold is_int32, toInt32. intros H.
  rewrite Z.mod_small by lia. lia.
Qed.

Lemma toUint32_range (n : Z) : 0 <= toUint32 n < 2 ^ 32.
Proof. unfold toUint32. apply Z.mod_pos_bound. lia. Qed.

Lemma toUint32_toInt32 (n : Z) : toUint32 (toInt32 n) = toUint32 n.
Proof.
  unfold toUint32, toInt32.
  rewrite Zminus_mod, Zmod_mod, <- Zminus_mod.
  f_equal. lia.
Qed.

Lemma toUint32_idem (n : Z) : toUint32 (toUint32 n) = toUint32 n.
Proof. unfold toUint32. apply Zmod_mod. Qed.

Lemma toUint32_mul (a b : Z) :
  toUint32 (a * b) = toUint32 (toUint32 a * toUint32 b).
Proof. unfold toUint32. apply Zmult_mod. Qed.

Lemma toUint32_testbit (n i : Z) :
  Z.testbit (toUint32 n) i = (i <? 32) && Z.testbit n i.
Proof.
  unfold toUint32. destruct (Z.ltb_spec i 32) as [Hlt | Hge]; simpl.
  - destruct (Z.neg_nonneg_cases i) as [Hneg | Hnn].
    + now rewrite !Z.testbit_neg_r.
    + apply Z.mod_pow2_bits_low. lia.
  - apply Z.mod_pow2_bits_high. lia.
Qed.

Lemma toUint32_lxor (a b : Z) :
  toUint32 (Z.lxor a b) = Z.lxor (toUint32 a) (toUint32 b).
Proof.
  apply Z.bits_inj'. intros i _.
  rewrite Z.lxor_spec, !toUint32_testbit, Z.lxor_spec.
  now destruct (i <? 32).
Qed.

Lemma toUint32_land_ones (a : Z) :
  toUint32 (Z.land a (toInt32 0xFFFFFFFF)) = toUint32 a.
Proof.
  replace (toInt32 0xFFFFFFFF) with (-1) by reflexivity.
  now rewrite Z.land_m1_r.
Qed.

Lemma toUint32_xor (a b : Z) :
  toUint32 (xor a b) = Z.lxor (toUint32 a) (toUint32 b).
Proof.
  unfold xor. now rewrite toUint32_toInt32, toUint32_lxor, !toUint32_toInt32.
Qed.

Lemma toUint32_and_mask (a : Z) : toUint32 (and a 0xFFFFFFFF) = toUint32 a.
Proof.
  unfold and. now rewrite toUint32_toInt32, toUint32_land_ones, toUint32_toInt32.
Qed.

Lemma toUint32_imul (a b : Z) :
  toUint32 (imul a b) = toUint32 (toUint32 a * toUint32 b).
Proof.
  unfold imul.
  now rewrite toUint32_toInt32, toUint32_mul, !toUint32_toInt32.
Qed.

End Int32Facts.

(** The signed mix of the code and the unsigned FNV-1a fold leave the same
    32-bit word. *)
Lemma intHashMix_fnv1a (x z : Z) :
  Int32.ushr0 (Hash.intHashMix x z) = Hash.fnv1a x z.
Proof.
  unfold Hash.intHashMix, Hash.fnv1a, Hash.fnv_fold, Int32.ushr0.
  rewrite !toUint32_imul, !toUint32_xor, !toUint32_imul, !toUint32_xor,
    !toUint32_and_mask.
  unfold Int32.toUint32, Hash.fnv_basis, Hash.fnv_prime.
  change (16777619 mod 2 ^ 32) with 16777619.
  change (2166136261 mod 2 ^ 32) with 2166136261.
  rewrite ?Zmod_mod. reflexivity.
Qed.

Example intHash_origin : Hash.intHash 0 0 = Qmake 292984781 4294967296.
Proof. vm_compute. reflexivity. Qed.

Example intHash_negative : Hash.intHash (-1) 5 = Qmake 3313953041 4294967296.
Proof. vm_compute. reflexivity. Qed.

(** C5.  [Hash.intHash] is a function of its two arguments alone (equal
    arguments give the equal value), its value lies in the half-open interval
    from 0 to 1, and it is the unsigned 32-bit FNV-1a fold of the two
    arguments divided by 2^32.  This holds for every pair of integers, hence
    for every pair of 32-bit signed integers. *)
Theorem intHash_pure_unit_interval (a b : Z) :
  (forall a' b', a' = a -> b' = b -> Hash.intHash a' b' = Hash.intHash a b)
  /\ (0 <= Hash.intHash a b)%Q
  /\ (Hash.intHash a b < 1)%Q
  /\ Hash.intHash a b = Qmake (Hash.fnv1a a b) 4294967296.
Proof.
  split; [ now intros a' b' -> -> | ].
  split; [ | split ]; [ | | unfold Hash.intHash; f_equal; apply intHashMix_fnv1a ].
  all: pose proof (toUint32_range (Hash.intHashMix a b)) as [Hlo Hhi].
  all: unfold Hash.intHash, Int32.ushr0.
  all: generalize dependent (Int32.toUint32 (Hash.intHashMix a b)); intros u Hlo Hhi.
  all: change (2 ^ 32) with 4294967296 in Hhi.
  - unfold Qle. cbn [Qnum Qden]. lia.
  - unfold Qlt. cbn [Qnum Qden]. lia.
Qed.

(* ===================================================================== *)
(** ** Properties of the biome ladder *)
(* ===================================================================== *)

Lemma Qltb_lt (a b : Q) : Qltb a b = true <-> (a < b)%Q.
Proof.
  unfold Qltb. rewrite negb_true_iff, <- not_true_iff_false, Qle_bool_iff.
  split; [ apply Qnot_le_lt | apply Qlt_not_le ].
Qed.

Lemma Qltb_nlt (a b : Q) : Qltb a b = false <-> ~ (a < b)%Q.
Proof. rewrite <- Qltb_lt. now destruct (Qltb a b). Qed.

Lemma ladder_intervals (s : Z) :
  (s < -2 -> BiomeClassifier.ladder s = WATER)
  /\ (-2 <= s < 2 -> BiomeClassifier.ladder s = SAND)
  /\ (2 <= s < 15 -> BiomeClassifier.ladder s = GRASS)
  /\ (15 <= s < 40 -> BiomeClassifier.ladder s = STONE)
  /\ (40 <= s -> BiomeClassifier.ladder s = SNOW).
Proof.
  unfold BiomeClassifier.ladder.
  repeat match goal with |- context [?a <? ?b] => destruct (Z.ltb_spec a b) end;
    repeat split; intros; first [ reflexivity | lia ].
Qed.

Lemma classify_between (h : Q) :
  ~ (60 < h)%Q -> ~ (h < -30)%Q ->
  BiomeClassifier.classify h = BiomeClassifier.ladder (Qfloor h).
Proof.
  intros Hhi Hlo. unfold BiomeClassifier.classify.
  apply Qltb_nlt in Hhi, Hlo. now rewrite Hhi, Hlo.
Qed.

(** C1.  For every height [h], [classify h] is the base ladder on the
    truncated height [Qfloor h] (below -2 water, from -2 below 2 sand, from 2
    below 15 grass, from 15 below 40 stone, from 40 on snow) unless one of the
    two overrides on the untruncated height fires: [h > 60] gives ALIEN and
    [h < -30] gives LAVA.  The seven sample heights of the specification
    classify as stated, and a height of 60.5, whose truncation is not above
    60, is ALIEN. *)
Theorem classify_ladder_then_overrides (h : Q) :
  ((h < -30)%Q -> BiomeClassifier.classify h = LAVA)
  /\ ((60 < h)%Q -> BiomeClassifier.classify h = ALIEN)
  /\ (~ (60 < h)%Q -> ~ (h < -30)%Q ->
        (Qfloor h < -2 -> BiomeClassifier.classify h = WATER)
        /\ (-2 <= Qfloor h < 2 -> BiomeClassifier.classify h = SAND)
        /\ (2 <= Qfloor h < 15 -> BiomeClassifier.classify h = GRASS)
        /\ (15 <= Qfloor h < 40 -> BiomeClassifier.classify h = STONE)
        /\ (40 <= Qfloor h -> BiomeClassifier.classify h = SNOW))
  /\ BiomeClassifier.classify (-3) = WATER
  /\ BiomeClassifier.classify 0 = SAND
  /\ BiomeClassifier.classify 10 = GRASS
  /\ BiomeClassifier.classify 20 = STONE
  /\ BiomeClassifier.classify 50 = SNOW
  /\ BiomeClassifier.classify 65 = ALIEN
  /\ BiomeClassifier.classify (-35) = LAVA
  /\ BiomeClassifier.classify (121 # 2) = ALIEN.
Proof.
  split; [ | split; [ | split ] ].
  - intros Hlava. unfold BiomeClassifier.classify.
    apply Qltb_lt in Hlava. now rewrite Hlava.
  - intros Halien. unfold BiomeClassifier.classify.
    assert (Hn : ~ (h < -30)%Q).
    { intros Hlt. apply (Qlt_irrefl 60).
      apply Qlt_trans with h; [ exact Halien | ].
      apply Qlt_trans with (-30)%Q; [ exact Hlt | reflexivity ]. }
    apply Qltb_lt in Halien. apply Qltb_nlt in Hn. now rewrite Halien, Hn.
  - intros Hhi Hlo. rewrite (classify_between h Hhi Hlo).
    apply ladder_intervals.
  - repeat split; reflexivity.
Qed.

(** The ladder cases and the overrides at the sample heights. *)
Lemma classify_ladder_then_overrides_witness :
  BiomeClassifier.classify (-35) = LAVA
  /\ BiomeClassifier.classify 65 = ALIEN
  /\ BiomeClassifier.classify 10 = GRASS.
Proof.
  split; [ | split ].
  - apply (proj1 (classify_ladder_then_overrides (-35))). reflexivity.
  - apply (proj1 (proj2 (classify_ladder_then_overrides 65))). reflexivity.
  - assert (Hhi : ~ (60 < 10)%Q) by discriminate.
    assert (Hlo : ~ (10 < -30)%Q) by discriminate.
    destruct (proj1 (proj2 (proj2 (classify_ladder_then_overrides 10))) Hhi Hlo)
      as (_ & _ & Hgrass & _).
    apply Hgrass. change (Qfloor 10) with 10. lia.
Defined.

(* ===================================================================== *)
(** ** Properties of the octave combinator *)
(* ===================================================================== *)

Section OctavedFacts.

Variable perm : list Z.

Lemma Qmult_1_r_eq (q : Q) : (q * 1)%Q = q.
Proof.
  destruct q as [n d]. unfold Qmult. cbn [Qnum Qden].
  now rewrite Z.mul_1_r, Pos.mul_1_r.
Qed.

Lemma Qplus_0_l_eq (q : Q) : (0 + q)%Q = q.
Proof.
  destruct q as [n d]. unfold Qplus. cbn [Qnum Qden].
  now rewrite Z.mul_0_l, Z.add_0_l, Z.mul_1_r, Pos.mul_1_l.
Qed.

Lemma Qdiv_1_r_eq (q : Q) : (q / 1)%Q = q.
Proof.
  unfold Qdiv. change (/ 1)%Q with 1%Q. apply Qmult_1_r_eq.
Qed.

Lemma orDefault_zero (v d : Q) : (v == 0)%Q -> orDefault v d = d.
Proof.
  intros Hz. unfold orDefault. apply Qeq_bool_iff in Hz. now rewrite Hz.
Qed.

Lemma orDefault_nonzero (v d : Q) : ~ (v == 0)%Q -> orDefault v d = v.
Proof.
  intros Hnz. unfold orDefault.
  destruct (Qeq_bool v 0) eqn:E; [ | reflexivity ].
  now apply Qeq_bool_iff in E.
Qed.

Example simplex_origin : (Noise.simplex Noise.identity_perm 0 0 == 0)%Q.
Proof. vm_compute. reflexivity. Qed.

(** A negative octave count leaves no pass at all and the quotient 0/0. *)
Example octaved_negative_count (x z per : Q) :
  Ctx.octaved perm x z (-1) per = NotFinite.
Proof. reflexivity. Qed.

(** C7.  With a single octave the combinator is the base field: for every
    permutation table, every [x], [z] and every persistence [p],
    [octaved(x, z, 1, p)] is the finite number [Noise.simplex(x, z)],
    whatever [p] is. *)
Theorem octaved_single_octave (x z p : Q) :
  Ctx.octaved perm x z 1 p = Finite (Noise.simplex perm x z).
Proof.
  unfold Ctx.octaved.
  change (passes (orDefault 1 4)) with 1%nat.
  cbn [Nat.iter nat_rect]. unfold Ctx.octave_pass.
  cbn [Ctx.total Ctx.amp Ctx.freq Ctx.max].
  rewrite !Qmult_1_r_eq, Qplus_0_l_eq.
  unfold Number_div.
  change (Qeq_bool (0 + 1) 0) with false. cbn iota.
  change (0 + 1)%Q with 1%Q.
  now rewrite Qdiv_1_r_eq.
Qed.

Lemma octave_pass_default (x z per : Q) :
  (per == 0)%Q -> Ctx.octave_pass perm x z per = Ctx.octave_pass perm x z (1 # 2).
Proof.
  intros Hz. unfold Ctx.octave_pass. now rewrite (orDefault_zero per _ Hz).
Qed.

(** C10.  Falsy arguments are replaced by the defaults: a persistence of 0
    computes what a persistence of 0.5 computes, and an octave count of 0
    computes what an octave count of 4 computes (four passes of the loop).
    The same holds for every representation of zero, and an argument that is
    not zero is used as it is. *)
Theorem octaved_falsy_defaults (x z oct per : Q) :
  Ctx.octaved perm x z oct 0 = Ctx.octaved perm x z oct (1 # 2)
  /\ Ctx.octaved perm x z 0 per = Ctx.octaved perm x z 4 per
  /\ passes (orDefault 0 4) = 4%nat
  /\ (forall zero : Q, (zero == 0)%Q ->
        Ctx.octaved perm x z oct zero = Ctx.octaved perm x z oct (1 # 2)
        /\ Ctx.octaved perm x z zero per = Ctx.octaved perm x z 4 per)
  /\ (forall v d : Q, ~ (v == 0)%Q -> orDefault v d = v).
Proof.
  split; [ reflexivity | split; [ reflexivity | split; [ reflexivity | ] ] ].
  split.
  - intros zero Hz. split.
    + unfold Ctx.octaved. now rewrite (octave_pass_default x z zero Hz).
    + unfold Ctx.octaved. now rewrite (orDefault_zero zero 4 Hz).
  - intros v d Hv. now apply orDefault_nonzero.
Qed.

End OctavedFacts.

(* ===================================================================== *)
(** ** Properties of the expression engine *)
(* ===================================================================== *)

Example replace_caret_power : replace_caret "x^2 + z^3" = "x**2 + z**3"%string.
Proof. reflexivity. Qed.

Example tokens_sum :
  Host.tokens "x + z" = [Host.TIdent "x"; Host.TPlus; Host.TIdent "z"].
Proof. reflexivity. Qed.

Example parse_precedence :
  Host.parse_expression (Host.tokens "1 + x * -(z - 2)")
  = Some (Host.Add (Host.Lit 1)
            (Host.Mul (Host.Var "x")
               (Host.Neg (Host.Sub (Host.Var "z") (Host.Lit 2)))), []).
Proof. reflexivity. Qed.

Example parse_body_sum :
  Host.parse_body (Host.tokens (function_body "x + z"))
  = Some (Some (Host.Add (Host.Var "x") (Host.Var "z"))).
Proof. reflexivity. Qed.

Example parse_body_dangling :
  Host.parse_body (Host.tokens (function_body "x +")) = None.
Proof. reflexivity. Qed.

Example parse_body_empty :
  Host.parse_body (Host.tokens (function_body "")) = Some None.
Proof. reflexivity. Qed.

Section CompileFacts.

Variable newFunction : string -> Built.


Lemma compileFormula_error (str : string) (c : Ctx.Coords) (box : ErrorBox) :
  compile_error newFunction str c ->
  exists msg,
    compileFormula newFunction str c box
    = (None, mkErrorBox (String.append warning_sign msg) false).
Proof.
  unfold compileFormula.
  intros [[msg Hsyn] | (f & msg & Hbuilt & Hthrow)].
  - exists msg. now rewrite Hsyn.
  - exists msg. now rewrite Hbuilt, Hthrow.
Qed.

Lemma compileFormula_none (str : string) (c : Ctx.Coords) (box : ErrorBox) :
  fst (compileFormula newFunction str c box) = None
  <-> compile_error newFunction str c.
Proof.
  split.
  - unfold compileFormula, compile_error.
    destruct (newFunction _) as [f | msg] eqn:Hbuilt.
    + destruct (f c 0 0) as [v | msg] eqn:Hcall; [ discriminate | ].
      intros _. right. now exists f, msg.
    + intros _. left. now exists msg.
  - intros Herr. destruct (compileFormula_error str c box Herr) as [msg ->].
    reflexivity.
Qed.

(** Acceptance of a callable depends on the canary call alone. *)
Lemma compileFormula_canary (str : string) (c : Ctx.Coords) (box : ErrorBox)
    (f : HeightFunction) :
  newFunction (function_body (replace_caret str)) = Callable f ->
  (fst (compileFormula newFunction str c box) = Some f
   <-> exists v, f c 0 0 = Returns v)
  /\ (fst (compileFormula newFunction str c box) = None
      <-> exists msg, f c 0 0 = Throws msg).
Proof.
  intros Hbuilt. unfold compileFormula. rewrite Hbuilt.
  destruct (f c 0 0) as [v | msg]; cbn [fst]; split; split;
    first [ discriminate | reflexivity | now eexists
          | intros [? ?]; discriminate ].
Qed.

End CompileFacts.

(** An identifier that is bound nowhere parses, and the canary call throws. *)
Example compile_unbound_symbol (c : Ctx.Coords) (box : ErrorBox) :
  compileFormula Host.newFunction "x + y" c box
  = (None, mkErrorBox (String.append warning_sign "y is not defined") false).
Proof. reflexivity. Qed.

(** An empty text compiles: the body [return ;] throws nothing. *)
Example compile_empty_text (c : Ctx.Coords) (box : ErrorBox) :
  exists f, compileFormula Host.newFunction "" c box
            = (Some f, mkErrorBox (textContent box) true)
            /\ f c 0 0 = Returns NotFinite.
Proof. eexists. split; reflexivity. Qed.

(** C6.  In the host fragment, compiling [x + z] succeeds, hides the error
    box and gives a function that returns 5 at x = 2, z = 3 under any
    context; compiling [x +] fails with no function and a message shown
    after the warning sign.  For any host, a text that builds a callable is
    accepted exactly when the one call at the coordinate (0, 0) returns, and
    rejected exactly when that call throws; a text that does not build is
    rejected with the host's message. *)
Theorem compile_sum_accepts_dangling_rejects (c : Ctx.Coords) (box : ErrorBox) :
  (exists f,
     compileFormula Host.newFunction "x + z" c box
     = (Some f, mkErrorBox (textContent box) true)
     /\ forall c', f c' 2 3 = Returns (Finite 5))
  /\ (exists msg,
        compileFormula Host.newFunction "x +" c box
        = (None, mkErrorBox (String.append warning_sign msg) false)
        /\ msg <> ""%string)
  /\ (forall (newFunction : string -> Built) (str : string) (f : HeightFunction),
        newFunction (function_body (replace_caret str)) = Callable f ->
        (fst (compileFormula newFunction str c box) = Some f
         <-> exists v, f c 0 0 = Returns v)
        /\ (fst (compileFormula newFunction str c box) = None
            <-> exists msg, f c 0 0 = Throws msg))
  /\ (forall (newFunction : string -> Built) (str msg : string),
        newFunction (function_body (replace_caret str)) = SyntaxError msg ->
        compileFormula newFunction str c box
        = (None, mkErrorBox (String.append warning_sign msg) false)).
Proof.
  split; [ | split; [ | split ] ].
  - eexists. split; [ reflexivity | intros c'; reflexivity ].
  - eexists. split; [ reflexivity | discriminate ].
  - intros newFunction str f Hbuilt.
    exact (compileFormula_canary newFunction str c box f Hbuilt).
  - intros newFunction str msg Hsyn. unfold compileFormula. now rewrite Hsyn.
Qed.

(** The two sample texts, with the canary call observed on [x + z]. *)
Lemma compile_sum_accepts_dangling_rejects_witness :
  Host.newFunction (function_body (replace_caret "x + z"))
  = Callable (Host.call (Some (Host.Add (Host.Var "x") (Host.Var "z"))))
  /\ fst (compileFormula Host.newFunction "x + z" (Ctx.mkCoords 0 0)
            (mkErrorBox "" true))
     = Some (Host.call (Some (Host.Add (Host.Var "x") (Host.Var "z")))).
Proof.
  split; [ reflexivity | ].
  apply (proj1 (proj2 (proj2 (compile_sum_accepts_dangling_rejects
                                (Ctx.mkCoords 0 0) (mkErrorBox "" true))))
           Host.newFunction "x + z"%string _ eq_refl).
  eexists. reflexivity.
Defined.

(* ===================================================================== *)
(** ** Properties of the voxel window *)
(* ===================================================================== *)

Section LoopFacts.

Context {St : Type}.

Lemma for_upto_succ (n : nat) (body : nat -> St -> St) (s : St) :
  for_upto (S n) body s = body n (for_upto n body s).
Proof.
  unfold for_upto. rewrite seq_S, fold_left_app. reflexivity.
Qed.

Lemma for_upto_zero (body : nat -> St -> St) (s : St) : for_upto 0 body s = s.
Proof. reflexivity. Qed.

End LoopFacts.

Section ListFacts.

Context {A : Type}.

(** Writing at the end of the part already written extends that part. *)
Lemma insert_after_prefix (vs l : list A) (v : A) :
  (length vs < length l)%nat ->
  <[length vs := v]> (vs ++ drop (length vs) l)
  = (vs ++ [v]) ++ drop (length (vs ++ [v])) l.
Proof.
  intros Hlt.
  destruct (lookup_lt_is_Some_2 l (length vs) Hlt) as [x Hx].
  rewrite insert_app_r_alt by lia.
  rewrite Nat.sub_diag, (drop_S l x (length vs) Hx). cbn [list_insert insert].
  rewrite length_app. cbn [length].
  rewrite <- app_assoc, Nat.add_1_r. reflexivity.
Qed.

Lemma insert_after_mapped {B : Type} (g : B -> A) (ds : list B) (l : list A)
    (b : B) :
  (length ds < length l)%nat ->
  <[length ds := g b]> (map g ds ++ drop (length ds) l)
  = map g (ds ++ [b]) ++ drop (length (ds ++ [b])) l.
Proof.
  intros Hlt.
  pose proof (insert_after_prefix (map g ds) l (g b)) as H.
  rewrite length_app, !length_map in H.
  rewrite map_app, length_app. cbn [map length]. apply H. exact Hlt.
Qed.

Lemma concat_map_singleton {B : Type} (g : B -> A) (l : list B) :
  concat (map (fun b => [g b]) l) = map g l.
Proof. induction l as [| b l IH]; [ reflexivity | cbn; now rewrite IH ]. Qed.

Lemma length_concat_uniform (block : nat -> list A) (m n : nat) :
  (forall i, (i < n)%nat -> length (block i) = m) ->
  length (concat (map block (seq 0 n))) = (n * m)%nat.
Proof.
  induction n as [| n IH]; intros Hlen; [ reflexivity | ].
  rewrite seq_S, map_app, concat_app, length_app, IH by (intros; apply Hlen; lia).
  cbn [map concat Nat.add]. rewrite app_nil_r, Hlen by lia. lia.
Qed.

(** In a concatenation of blocks of one length, the entry [r] of block [i]
    stands at index [i * m + r]. *)
Lemma lookup_concat_uniform (block : nat -> list A) (m n i r : nat) :
  (forall k, (k < n)%nat -> length (block k) = m) ->
  (i < n)%nat -> (r < m)%nat ->
  concat (map block (seq 0 n)) !! (i * m + r)%nat = block i !! r.
Proof.
  induction n as [| n IH]; intros Hlen Hi Hr; [ lia | ].
  rewrite seq_S, map_app, concat_app. cbn [map concat Nat.add].
  rewrite app_nil_r.
  assert (Hpre : length (concat (map block (seq 0 n))) = (n * m)%nat)
    by (apply length_concat_uniform; intros; apply Hlen; lia).
  destruct (Nat.eq_dec i n) as [-> | Hne].
  - rewrite lookup_app_r by lia. rewrite Hpre. f_equal. lia.
  - rewrite lookup_app_l by (rewrite Hpre; nia).
    apply IH; [ intros; apply Hlen; lia | lia | exact Hr ].
Qed.

End ListFacts.

Section WindowFacts.

Variables GRID LAYERS : nat.

Local Abbreviation TOTAL := (TOTAL_INSTANCES GRID LAYERS).


Section Written.

Variables (m0 : list Position) (c0 : list Color).

Lemma written_block_loop (n m : nat) (body : nat -> nat * Scene -> nat * Scene)
    (block : nat -> list (Position * Color)) :
  (forall i, (i < n)%nat -> length (block i) = m) ->
  (forall i ds l, (i < n)%nat ->
     written m0 c0 ds l ->
     (length ds + m <= length m0)%nat -> (length ds + m <= length c0)%nat ->
     written m0 c0 (ds ++ block i) (body i l)) ->
  forall ds l,
    written m0 c0 ds l ->
    (length ds + n * m <= length m0)%nat ->
    (length ds + n * m <= length c0)%nat ->
    written m0 c0 (ds ++ concat (map block (seq 0 n))) (for_upto n body l).
Proof.
  induction n as [| n IH]; intros Hlen Hbody ds l Hw Hm Hc.
  - cbn. now rewrite app_nil_r.
  - rewrite for_upto_succ, seq_S, map_app, concat_app.
    cbn [map concat Nat.add]. rewrite app_nil_r, app_assoc.
    assert (Hpre : length (concat (map block (seq 0 n))) = (n * m)%nat)
      by (apply length_concat_uniform; intros; apply Hlen; lia).
    apply Hbody; [ lia | | rewrite length_app, Hpre; lia
                 | rewrite length_app, Hpre; lia ].
    apply IH; [ intros; apply Hlen; lia
              | intros; apply Hbody; [ lia | assumption .. ]
              | exact Hw | lia | lia ].
Qed.

Lemma written_layer (f : HeightFunction) (cx cz : Z) (i j d : nat)
    (ds : list (Position * Color)) (l : nat * Scene) :
  written m0 c0 ds l ->
  (length ds + 1 <= length m0)%nat -> (length ds + 1 <= length c0)%nat ->
  written m0 c0 (ds ++ [descriptor GRID f cx cz i j d])
    (layer (world GRID cx i) (world GRID cz j)
       (Qfloor (column_height GRID f cx cz i j))
       (BiomeClassifier.classify (column_height GRID f cx cz i j)) d l).
Proof.
  destruct l as [idx s]. intros (Hidx & Hm & Hc) Hlm Hlc.
  cbn [fst snd] in Hidx, Hm, Hc. subst idx.
  unfold layer, written. cbn [fst snd instanceMatrix instanceColor].
  rewrite Hm, Hc.
  split; [ rewrite length_app; cbn [length]; lia | split ].
  - apply (insert_after_mapped fst ds m0 (descriptor GRID f cx cz i j d)). lia.
  - rewrite <- (insert_after_mapped snd ds c0 (descriptor GRID f cx cz i j d))
      by lia.
    f_equal. unfold descriptor. cbn [snd]. destruct d as [| d]; reflexivity.
Qed.

Lemma length_column_descriptors (f : HeightFunction) (cx cz : Z) (i j : nat) :
  length (column_descriptors GRID LAYERS f cx cz i j) = LAYERS.
Proof. unfold column_descriptors. now rewrite length_map, length_seq. Qed.

Lemma length_row_descriptors (f : HeightFunction) (cx cz : Z) (i : nat) :
  length (row_descriptors GRID LAYERS f cx cz i) = (GRID * LAYERS)%nat.
Proof.
  unfold row_descriptors. apply length_concat_uniform.
  intros j _. apply length_column_descriptors.
Qed.

Lemma length_window_descriptors (f : HeightFunction) (cx cz : Z) :
  length (window_descriptors GRID LAYERS f cx cz) = TOTAL.
Proof.
  unfold window_descriptors, TOTAL_INSTANCES.
  rewrite (length_concat_uniform _ (GRID * LAYERS) GRID)
    by (intros i _; apply length_row_descriptors).
  lia.
Qed.

Lemma written_column (f : HeightFunction) (cx cz : Z) (i j : nat)
    (ds : list (Position * Color)) (l : nat * Scene) :
  written m0 c0 ds l ->
  (length ds + LAYERS <= length m0)%nat ->
  (length ds + LAYERS <= length c0)%nat ->
  written m0 c0 (ds ++ column_descriptors GRID LAYERS f cx cz i j)
    (column LAYERS f cx cz (Z.of_nat GRID / 2) i j l).
Proof.
  destruct l as [idx s]. intros Hw Hm Hc.
  unfold column, column_descriptors.
  rewrite <- concat_map_singleton.
  apply (written_block_loop LAYERS 1
           (layer (world GRID cx i) (world GRID cz j)
              (Qfloor (column_height GRID f cx cz i j))
              (BiomeClassifier.classify (column_height GRID f cx cz i j)))
           (fun d => [descriptor GRID f cx cz i j d])).
  - reflexivity.
  - intros d ds' l' _ Hw' Hm' Hc'. now apply written_layer.
  - exact Hw.
  - lia.
  - lia.
Qed.

Lemma written_row (f : HeightFunction) (cx cz : Z) (i : nat)
    (ds : list (Position * Color)) (l : nat * Scene) :
  written m0 c0 ds l ->
  (length ds + GRID * LAYERS <= length m0)%nat ->
  (length ds + GRID * LAYERS <= length c0)%nat ->
  written m0 c0 (ds ++ row_descriptors GRID LAYERS f cx cz i)
    (for_upto GRID (fun j => column LAYERS f cx cz (Z.of_nat GRID / 2) i j) l).
Proof.
  intros Hw Hm Hc. unfold row_descriptors.
  apply (written_block_loop GRID LAYERS); try assumption.
  - intros j _. apply length_column_descriptors.
  - intros j ds' l' _ Hw' Hm' Hc'. now apply written_column.
Qed.

Lemma written_window (f : HeightFunction) (cx cz : Z) (s : Scene) :
  instanceMatrix s = m0 -> instanceColor s = c0 ->
  length m0 = TOTAL -> length c0 = TOTAL ->
  written m0 c0 (window_descriptors GRID LAYERS f cx cz)
    (for_upto GRID
       (fun i => for_upto GRID
                   (fun j => column LAYERS f cx cz (Z.of_nat GRID / 2) i j))
       (0%nat, s)).
Proof.
  intros Hm Hc Hlm Hlc. unfold window_descriptors.
  change (concat (map (row_descriptors GRID LAYERS f cx cz) (seq 0 GRID)))
    with ([] ++ concat (map (row_descriptors GRID LAYERS f cx cz) (seq 0 GRID))).
  apply (written_block_loop GRID (GRID * LAYERS)).
  - intros i _. apply length_row_descriptors.
  - intros i ds' l' _ Hw' Hm' Hc'. now apply written_row.
  - unfold written. cbn. now rewrite !drop_0.
  - cbn [length]. unfold TOTAL_INSTANCES in Hlm. lia.
  - cbn [length]. unfold TOTAL_INSTANCES in Hlc. lia.
Qed.

End Written.

(** The guard as the code tests it. *)
Lemma guard_test (force : bool) (ref : Q * Q) (st : State) :
  passes_guard force ref st ->
  negb force
  && (Z.abs (Qfloor (fst ref) - lastUpdateX st) <? 2)
  && (Z.abs (Qfloor (snd ref) - lastUpdateZ st) <? 2) = false.
Proof.
  intros [-> | [H | H]]; [ reflexivity | | ].
  - apply Z.ltb_ge in H. rewrite H. now rewrite andb_false_r.
  - apply Z.ltb_ge in H. rewrite H. now rewrite andb_false_r.
Qed.

Lemma guard_test_within (ref : Q * Q) (st : State) :
  Z.abs (Qfloor (fst ref) - lastUpdateX st) < 2 ->
  Z.abs (Qfloor (snd ref) - lastUpdateZ st) < 2 ->
  negb false
  && (Z.abs (Qfloor (fst ref) - lastUpdateX st) <? 2)
  && (Z.abs (Qfloor (snd ref) - lastUpdateZ st) <? 2) = true.
Proof.
  intros Hx Hz. apply Z.ltb_lt in Hx, Hz. now rewrite Hx, Hz.
Qed.

(** A refresh that passes the guard: the centre is recorded and the two
    buffers hold the descriptors of the window, in order. *)
Lemma updateTerrain_refresh (f : HeightFunction) (force : bool) (ref : Q * Q)
    (st : State) :
  compiledFunc st = Some f ->
  passes_guard force ref st ->
  length (instanceMatrix (scene st)) = TOTAL ->
  length (instanceColor (scene st)) = TOTAL ->
  let st' := updateTerrain GRID LAYERS force ref st in
  let ds := window_descriptors GRID LAYERS f (Qfloor (fst ref)) (Qfloor (snd ref)) in
  compiledFunc st' = Some f
  /\ lastUpdateX st' = Qfloor (fst ref)
  /\ lastUpdateZ st' = Qfloor (snd ref)
  /\ error_msg st' = error_msg st
  /\ instanceMatrix (scene st') = map fst ds
  /\ instanceColor (scene st') = map snd ds.
Proof.
  intros Hf Hguard Hlm Hlc. cbv zeta.
  unfold updateTerrain. rewrite Hf, (guard_test _ _ _ Hguard).
  pose proof (written_window _ _ f (Qfloor (fst ref)) (Qfloor (snd ref))
                (scene st) eq_refl eq_refl Hlm Hlc) as Hw.
  destruct (for_upto GRID _ _) as [idx sc].
  destruct Hw as (_ & Hm & Hc). cbn [fst snd] in Hm, Hc.
  rewrite length_window_descriptors in Hm, Hc.
  rewrite <- Hlm in Hm at 1. rewrite <- Hlc in Hc at 1.
  rewrite drop_all, app_nil_r in Hm.
  rewrite drop_all, app_nil_r in Hc.
  cbn [compiledFunc lastUpdateX lastUpdateZ error_msg scene].
  auto 10.
Qed.

(** Row-major order: layer [d] of column [(i, j)] stands at the index
    [(i * GRID + j) * LAYERS + d]. *)
Lemma window_descriptors_lookup (f : HeightFunction) (cx cz : Z) (i j d : nat) :
  (i < GRID)%nat -> (j < GRID)%nat -> (d < LAYERS)%nat ->
  window_descriptors GRID LAYERS f cx cz !! ((i * GRID + j) * LAYERS + d)%nat
  = Some (descriptor GRID f cx cz i j d).
Proof.
  intros Hi Hj Hd.
  replace ((i * GRID + j) * LAYERS + d)%nat
    with (i * (GRID * LAYERS) + (j * LAYERS + d))%nat by lia.
  unfold window_descriptors.
  rewrite (lookup_concat_uniform _ (GRID * LAYERS) GRID i)
    by (intros; try apply length_row_descriptors; nia).
  unfold row_descriptors.
  rewrite (lookup_concat_uniform _ LAYERS GRID j)
    by (intros; try apply length_column_descriptors; lia).
  unfold column_descriptors.
  change (map (descriptor GRID f cx cz i j) (seq 0 LAYERS))
    with (descriptor GRID f cx cz i j <$> seq 0 LAYERS).
  rewrite list_lookup_fmap, lookup_seq_lt by lia. reflexivity.
Qed.

End WindowFacts.

(* ===================================================================== *)
(** ** The refresh: order of the descriptors, failing columns, hysteresis *)
(* ===================================================================== *)


(** A window of 2 by 2 columns and 2 layers around the origin, formula
    [x + z]: the columns (-1,-1), (-1,0), (0,-1), (0,0) in this order, each
    with its surface level and the level below. *)
Example refresh_two_by_two :
  instanceMatrix (scene (updateTerrain 2 2 true origin (compiled_state 2 2 sum_function)))
  = [ (-1, -2, -1); (-1, -3, -1); (-1, -1, 0); (-1, -2, 0);
      (0, -1, -1); (0, -2, -1); (0, 0, 0); (0, -1, 0) ].
Proof. vm_compute. reflexivity. Qed.

Example refresh_two_by_two_colors :
  map hex (instanceColor (scene (updateTerrain 2 2 true origin
                                   (compiled_state 2 2 sum_function))))
  = [ 0xdec28a; 0x808080; 0xdec28a; 0x808080;
      0xdec28a; 0x808080; 0xdec28a; 0x808080 ].
Proof. vm_compute. reflexivity. Qed.

Section WindowClaims.

Variables GRID LAYERS : nat.

Local Abbreviation TOTAL := (TOTAL_INSTANCES GRID LAYERS).

Lemma length_initial_buffers (box : ErrorBox) :
  length (instanceMatrix (scene (initial GRID LAYERS box))) = TOTAL
  /\ length (instanceColor (scene (initial GRID LAYERS box))) = TOTAL.
Proof. cbn. now rewrite !length_replicate. Qed.

(** The index of a descriptor determines its column and layer. *)
Lemma index_decomposition (k : nat) :
  (k < GRID * GRID * LAYERS)%nat ->
  let i := (k / (GRID * LAYERS))%nat in
  let j := ((k / LAYERS) mod GRID)%nat in
  let d := (k mod LAYERS)%nat in
  (i < GRID)%nat /\ (j < GRID)%nat /\ (d < LAYERS)%nat
  /\ k = ((i * GRID + j) * LAYERS + d)%nat.
Proof.
  intros Hk. cbv zeta.
  assert (HL : LAYERS <> 0%nat) by nia.
  assert (HG : GRID <> 0%nat) by nia.
  pose proof (Nat.div_mod_eq k LAYERS) as Hk1.
  pose proof (Nat.div_mod_eq (k / LAYERS) GRID) as Hk2.
  pose proof (Nat.mod_upper_bound k LAYERS HL) as Hd.
  pose proof (Nat.mod_upper_bound (k / LAYERS) GRID HG) as Hj.
  assert (Hi : (k / (GRID * LAYERS) < GRID)%nat)
    by (apply Nat.Div0.div_lt_upper_bound; nia).
  replace (k / (GRID * LAYERS))%nat with (k / LAYERS / GRID)%nat in *
    by (rewrite Nat.Div0.div_div; f_equal; lia).
  repeat split; try assumption. nia.
Qed.

(** The entries that a refresh passing the guard leaves, by column and
    layer. *)
Lemma refresh_writes_window_rows (f : HeightFunction) (force : bool)
    (ref : Q * Q) (st : State) :
  compiledFunc st = Some f ->
  passes_guard force ref st ->
  length (instanceMatrix (scene st)) = TOTAL ->
  length (instanceColor (scene st)) = TOTAL ->
  let st' := updateTerrain GRID LAYERS force ref st in
  let cx := Qfloor (fst ref) in
  let cz := Qfloor (snd ref) in
  length (instanceMatrix (scene st')) = TOTAL
  /\ length (instanceColor (scene st')) = TOTAL
  /\ (forall i j d, (i < GRID)%nat -> (j < GRID)%nat -> (d < LAYERS)%nat ->
        instanceMatrix (scene st') !! ((i * GRID + j) * LAYERS + d)%nat
        = Some (world GRID cx i,
                Qfloor (column_height GRID f cx cz i j) - Z.of_nat d,
                world GRID cz j)
        /\ instanceColor (scene st') !! ((i * GRID + j) * LAYERS + d)%nat
           = Some (snd (descriptor GRID f cx cz i j d))).
Proof.
  intros Hf Hguard Hlm Hlc. cbv zeta.
  destruct (updateTerrain_refresh GRID LAYERS f force ref st Hf Hguard Hlm Hlc)
    as (_ & _ & _ & _ & Hm & Hc).
  rewrite Hm, Hc, !length_map, length_window_descriptors.
  split; [ reflexivity | split; [ reflexivity | ] ].
  intros i j d Hi Hj Hd.
  change (map fst ?l) with (fst <$> l). change (map snd ?l) with (snd <$> l).
  rewrite !list_lookup_fmap, window_descriptors_lookup by assumption.
  split; reflexivity.
Qed.

(** C8.  A refresh that passes the guard leaves exactly
    [GRID * GRID * LAYERS] descriptors in each buffer, the whole window in
    row-major order: the entry at index [(i * GRID + j) * LAYERS + d] is layer
    [d] of column [(i, j)], at the column's world coordinates and [d] below
    its surface level; conversely the entry at any index [k] below the total
    belongs to column [(k / (GRID * LAYERS), (k / LAYERS) mod GRID)] and layer
    [k mod LAYERS], whatever the formula, the centre and the state before. *)
Theorem refresh_writes_window_row_major (f : HeightFunction) (force : bool)
    (ref : Q * Q) (st : State) :
  compiledFunc st = Some f ->
  passes_guard force ref st ->
  length (instanceMatrix (scene st)) = TOTAL ->
  length (instanceColor (scene st)) = TOTAL ->
  let st' := updateTerrain GRID LAYERS force ref st in
  let cx := Qfloor (fst ref) in
  let cz := Qfloor (snd ref) in
  length (instanceMatrix (scene st')) = (GRID * GRID * LAYERS)%nat
  /\ length (instanceColor (scene st')) = (GRID * GRID * LAYERS)%nat
  /\ (forall i j d, (i < GRID)%nat -> (j < GRID)%nat -> (d < LAYERS)%nat ->
        instanceMatrix (scene st') !! ((i * GRID + j) * LAYERS + d)%nat
        = Some (world GRID cx i,
                Qfloor (column_height GRID f cx cz i j) - Z.of_nat d,
                world GRID cz j)
        /\ instanceColor (scene st') !! ((i * GRID + j) * LAYERS + d)%nat
           = Some (snd (descriptor GRID f cx cz i j d)))
  /\ (forall k, (k < GRID * GRID * LAYERS)%nat ->
        instanceMatrix (scene st') !! k
        = Some (fst (descriptor GRID f cx cz (k / (GRID * LAYERS))
                       ((k / LAYERS) mod GRID) (k mod LAYERS)))).
Proof.
  intros Hf Hguard Hlm Hlc. cbv zeta.
  destruct (updateTerrain_refresh GRID LAYERS f force ref st Hf Hguard Hlm Hlc)
    as (_ & _ & _ & _ & Hm & Hc).
  rewrite Hm, Hc, !length_map, length_window_descriptors.
  assert (Hat : forall i j d, (i < GRID)%nat -> (j < GRID)%nat -> (d < LAYERS)%nat ->
            map fst (window_descriptors GRID LAYERS f (Qfloor (fst ref)) (Qfloor (snd ref)))
              !! ((i * GRID + j) * LAYERS + d)%nat
            = Some (fst (descriptor GRID f (Qfloor (fst ref)) (Qfloor (snd ref)) i j d))
            /\ map snd (window_descriptors GRID LAYERS f (Qfloor (fst ref)) (Qfloor (snd ref)))
                 !! ((i * GRID + j) * LAYERS + d)%nat
               = Some (snd (descriptor GRID f (Qfloor (fst ref)) (Qfloor (snd ref)) i j d))).
  { intros i j d Hi Hj Hd.
    change (map fst ?l) with (fst <$> l). change (map snd ?l) with (snd <$> l).
    rewrite !list_lookup_fmap, window_descriptors_lookup by assumption.
    split; reflexivity. }
  split; [ reflexivity | split; [ reflexivity | split ] ].
  - intros i j d Hi Hj Hd. exact (Hat i j d Hi Hj Hd).
  - intros k Hk.
    destruct (index_decomposition k Hk) as (Hi & Hj & Hd & Heq).
    rewrite Heq at 1. apply (Hat _ _ _ Hi Hj Hd).
Qed.

(** Two compiled functions that agree on a column leave the same
    descriptors there. *)
Lemma descriptor_agree (f g : HeightFunction) (cx cz : Z) (i j d : nat) :
  g (Ctx.mkCoords (world GRID cx i) (world GRID cz j))
    (world GRID cx i) (world GRID cz j)
  = f (Ctx.mkCoords (world GRID cx i) (world GRID cz j))
      (world GRID cx i) (world GRID cz j) ->
  descriptor GRID g cx cz i j d = descriptor GRID f cx cz i j d.
Proof.
  intros Hagree. unfold descriptor, column_height, height.
  now rewrite Hagree.
Qed.

Lemma height_of_failure (f : HeightFunction) (c : Ctx.Coords) (wx wz : Z) :
  (exists msg, f c wx wz = Throws msg) \/ f c wx wz = Returns NotFinite ->
  height f c wx wz = 0%Q.
Proof.
  unfold height. intros [[msg ->] | ->]; reflexivity.
Qed.


(** C3.  In a refresh, a column on which the compiled function throws or
    returns a value that is not finite gets the height 0: its layers stand at
    the levels 0, -1, ... with the colours of a column of height 0.  The
    refresh runs to its end (the centre is recorded and both buffers hold all
    their entries), and the entries of every other column are those that any
    function agreeing with the compiled one on the other columns would have
    left, for instance one that does not fail. *)
Theorem failing_column_gets_height_zero (f : HeightFunction) (force : bool)
    (ref : Q * Q) (st : State) (i j : nat) :
  compiledFunc st = Some f ->
  passes_guard force ref st ->
  length (instanceMatrix (scene st)) = TOTAL ->
  length (instanceColor (scene st)) = TOTAL ->
  (i < GRID)%nat -> (j < GRID)%nat ->
  let cx := Qfloor (fst ref) in
  let cz := Qfloor (snd ref) in
  let wx := world GRID cx i in
  let wz := world GRID cz j in
  (exists msg, f (Ctx.mkCoords wx wz) wx wz = Throws msg)
  \/ f (Ctx.mkCoords wx wz) wx wz = Returns NotFinite ->
  let st' := updateTerrain GRID LAYERS force ref st in
  column_height GRID f cx cz i j = 0%Q
  /\ (forall d, (d < LAYERS)%nat ->
        instanceMatrix (scene st') !! ((i * GRID + j) * LAYERS + d)%nat
        = Some (wx, 0 - Z.of_nat d, wz)
        /\ instanceColor (scene st') !! ((i * GRID + j) * LAYERS + d)%nat
           = Some (if Nat.eqb d 0 then colors.sand
                   else multiplyScalar colors.stone (85 # 100)))
  /\ lastUpdateX st' = cx /\ lastUpdateZ st' = cz
  /\ length (instanceMatrix (scene st')) = TOTAL
  /\ length (instanceColor (scene st')) = TOTAL
  /\ (forall g : HeightFunction,
        (forall i' j', (i' < GRID)%nat -> (j' < GRID)%nat -> (i', j') <> (i, j) ->
           g (Ctx.mkCoords (world GRID cx i') (world GRID cz j'))
             (world GRID cx i') (world GRID cz j')
           = f (Ctx.mkCoords (world GRID cx i') (world GRID cz j'))
               (world GRID cx i') (world GRID cz j')) ->
        let st'' := updateTerrain GRID LAYERS force ref (with_function g st) in
        forall i' j' d, (i' < GRID)%nat -> (j' < GRID)%nat -> (d < LAYERS)%nat ->
          (i', j') <> (i, j) ->
          instanceMatrix (scene st') !! ((i' * GRID + j') * LAYERS + d)%nat
          = instanceMatrix (scene st'') !! ((i' * GRID + j') * LAYERS + d)%nat
          /\ instanceColor (scene st') !! ((i' * GRID + j') * LAYERS + d)%nat
             = instanceColor (scene st'') !! ((i' * GRID + j') * LAYERS + d)%nat).
Proof.
  intros Hf Hguard Hlm Hlc Hi Hj. cbv zeta. intros Hfail.
  pose proof (height_of_failure _ _ _ _ Hfail) as Hzero.
  destruct (updateTerrain_refresh GRID LAYERS f force ref st Hf Hguard Hlm Hlc)
    as (_ & Hx & Hz & _ & _ & _).
  destruct (refresh_writes_window_rows f force ref st Hf Hguard Hlm Hlc)
    as (Hlen_m & Hlen_c & Hat).
  split; [ exact Hzero | ].
  split.
  { intros d Hd. destruct (Hat i j d Hi Hj Hd) as [Hm Hc].
    rewrite Hm, Hc. unfold descriptor, column_height.
    rewrite Hzero. cbn [snd].
    split; [ reflexivity | ].
    destruct d as [| d]; reflexivity. }
  split; [ exact Hx | split; [ exact Hz | ] ].
  split; [ exact Hlen_m | split; [ exact Hlen_c | ] ].
  intros g Hagree. cbv zeta. intros i' j' d Hi' Hj' Hd Hne.
  destruct (refresh_writes_window_rows g force ref (with_function g st)
              eq_refl Hguard Hlm Hlc) as (_ & _ & Hat').
  destruct (Hat i' j' d Hi' Hj' Hd) as [Hm Hc].
  destruct (Hat' i' j' d Hi' Hj' Hd) as [Hm' Hc'].
  rewrite (descriptor_agree f g _ _ i' j' d (Hagree i' j' Hi' Hj' Hne)) in Hc'.
  assert (Hh : column_height GRID g (Qfloor (fst ref)) (Qfloor (snd ref)) i' j'
               = column_height GRID f (Qfloor (fst ref)) (Qfloor (snd ref)) i' j')
    by (unfold column_height, height; now rewrite (Hagree i' j' Hi' Hj' Hne)).
  rewrite Hh in Hm'.
  split; [ exact (eq_trans Hm (eq_sym Hm')) | exact (eq_trans Hc (eq_sym Hc')) ].
Qed.

End WindowClaims.

(* ===================================================================== *)
(** ** The guard on the compiled function and failed compilations *)
(* ===================================================================== *)

Section GuardClaims.

Variables GRID LAYERS : nat.

Local Abbreviation TOTAL := (TOTAL_INSTANCES GRID LAYERS).

Lemma updateTerrain_without_function (force : bool) (ref : Q * Q) (st : State) :
  compiledFunc st = None -> updateTerrain GRID LAYERS force ref st = st.
Proof. intros Hnone. unfold updateTerrain. now rewrite Hnone. Qed.

Lemma updateTerrain_within_band (f : HeightFunction) (ref : Q * Q) (st : State) :
  compiledFunc st = Some f ->
  Z.abs (Qfloor (fst ref) - lastUpdateX st) < 2 ->
  Z.abs (Qfloor (snd ref) - lastUpdateZ st) < 2 ->
  updateTerrain GRID LAYERS false ref st = st.
Proof.
  intros Hf Hx Hz. unfold updateTerrain.
  now rewrite Hf, (guard_test_within ref st Hx Hz).
Qed.

(** C4, amended.  Without a compiled function the call is a no-op whatever
    the deltas are.  With a compiled function and [force = false]: if both
    deltas between the floored reference point and the last centre are below
    2 the call is a no-op (the state is unchanged, nothing is written); if
    one of them is 2 or more the call records the new centre and overwrites
    both buffers with the descriptors of the whole window. *)
Theorem hysteresis_with_compiled_function (ref : Q * Q) (st : State) :
  let cx := Qfloor (fst ref) in
  let cz := Qfloor (snd ref) in
  (compiledFunc st = None -> updateTerrain GRID LAYERS false ref st = st)
  /\ (forall f, compiledFunc st = Some f ->
        (Z.abs (cx - lastUpdateX st) < 2 -> Z.abs (cz - lastUpdateZ st) < 2 ->
         updateTerrain GRID LAYERS false ref st = st)
        /\ (2 <= Z.abs (cx - lastUpdateX st) \/ 2 <= Z.abs (cz - lastUpdateZ st) ->
            length (instanceMatrix (scene st)) = TOTAL ->
            length (instanceColor (scene st)) = TOTAL ->
            let st' := updateTerrain GRID LAYERS false ref st in
            lastUpdateX st' = cx /\ lastUpdateZ st' = cz
            /\ instanceMatrix (scene st')
               = map fst (window_descriptors GRID LAYERS f cx cz)
            /\ instanceColor (scene st')
               = map snd (window_descriptors GRID LAYERS f cx cz)
            /\ length (window_descriptors GRID LAYERS f cx cz)
               = (GRID * GRID * LAYERS)%nat)).
Proof.
  cbv zeta. split.
  - apply updateTerrain_without_function.
  - intros f Hf. split.
    + apply (updateTerrain_within_band f ref st Hf).
    + intros Hmoved Hlm Hlc.
      assert (Hguard : passes_guard false ref st) by (right; exact Hmoved).
      destruct (updateTerrain_refresh GRID LAYERS f false ref st Hf Hguard Hlm Hlc)
        as (_ & Hx & Hz & _ & Hm & Hc).
      rewrite length_window_descriptors.
      split; [ exact Hx | split; [ exact Hz | split; [ exact Hm | ] ] ].
      split; [ exact Hc | reflexivity ].
Qed.

Section InputClaims.

Variable newFunction : string -> Built.

Lemma on_input_error (text : string) (ref : Q * Q) (st : State) :
  compile_error newFunction text (ctx (scene st)) ->
  exists msg,
    on_input GRID LAYERS newFunction text ref st
    = mkState None (lastUpdateX st) (lastUpdateZ st) (scene st)
        (mkErrorBox (String.append warning_sign msg) false).
Proof.
  intros Herr. unfold on_input.
  destruct (compileFormula_error newFunction text (ctx (scene st))
              (error_msg st) Herr) as [msg ->].
  exists msg. reflexivity.
Qed.

(** C2, amended.  When the compilation of the text fails (the text does not
    parse, or the call at (0, 0) throws), the listener installs [null] as
    the compiled function: the function in effect before is discarded.
    What stays as it was is the terrain: the scene with both instance
    buffers and the last centre are unchanged, the error box shows the
    message after the warning sign, and every later [updateTerrain] is a
    no-op until a compilation succeeds. *)
Theorem failed_compile_installs_null (text : string) (ref : Q * Q) (st : State) :
  compile_error newFunction text (ctx (scene st)) ->
  let st' := on_input GRID LAYERS newFunction text ref st in
  compiledFunc st' = None
  /\ scene st' = scene st
  /\ lastUpdateX st' = lastUpdateX st
  /\ lastUpdateZ st' = lastUpdateZ st
  /\ error_hidden (error_msg st') = false
  /\ (exists msg, textContent (error_msg st') = String.append warning_sign msg)
  /\ (forall force ref', updateTerrain GRID LAYERS force ref' st' = st').
Proof.
  intros Herr. cbv zeta.
  destruct (on_input_error text ref st Herr) as [msg ->].
  cbn [compiledFunc scene lastUpdateX lastUpdateZ error_msg error_hidden
       textContent].
  split; [ reflexivity | ].
  split; [ reflexivity | ].
  split; [ reflexivity | ].
  split; [ reflexivity | ].
  split; [ reflexivity | ].
  split; [ now exists msg | ].
  intros force ref'. now apply updateTerrain_without_function.
Qed.

End InputClaims.

End GuardClaims.

(** The dangling operator is a compilation error of the host fragment. *)
Lemma dangling_operator_error (c : Ctx.Coords) :
  compile_error Host.newFunction "x +" c.
Proof. left. eexists. reflexivity. Qed.

(** After [x + z] was typed: the sum is installed, the window was refreshed
    around the origin, the buffers have their full length. *)
Lemma after_sum_state :
  compiledFunc after_sum = Some sum_function
  /\ lastUpdateX after_sum = 0
  /\ lastUpdateZ after_sum = 0
  /\ length (instanceMatrix (scene after_sum))
     = TOTAL_INSTANCES GRID_script LAYERS_source
  /\ length (instanceColor (scene after_sum))
     = TOTAL_INSTANCES GRID_script LAYERS_source.
Proof.
  unfold after_sum, on_input.
  change (compileFormula Host.newFunction "x + z"
            (ctx (scene (initial GRID_script LAYERS_source hidden_box)))
            (error_msg (initial GRID_script LAYERS_source hidden_box)))
    with (Some sum_function, mkErrorBox "" true).
  cbv iota beta.
  set (st := mkState (Some sum_function)
               (lastUpdateX (initial GRID_script LAYERS_source hidden_box))
               (lastUpdateZ (initial GRID_script LAYERS_source hidden_box))
               (scene (initial GRID_script LAYERS_source hidden_box))
               (mkErrorBox "" true)).
  destruct (length_initial_buffers GRID_script LAYERS_source hidden_box)
    as [Hlm Hlc].
  assert (Hguard : passes_guard true origin st) by (left; reflexivity).
  destruct (updateTerrain_refresh GRID_script LAYERS_source sum_function true
              origin st eq_refl Hguard Hlm Hlc) as (Hf & Hx & Hz & _).
  destruct (refresh_writes_window_rows GRID_script LAYERS_source sum_function
              true origin st eq_refl Hguard Hlm Hlc) as (Hlen_m & Hlen_c & _).
  split; [ exact Hf | split; [ exact Hx | split; [ exact Hz | ] ] ].
  split; [ exact Hlen_m | exact Hlen_c ].
Qed.

(** After the text was shortened to [x +]: no function is installed, the
    last centre is still the origin. *)
Lemma after_dangling_state :
  compiledFunc after_dangling = None
  /\ lastUpdateX after_dangling = 0
  /\ lastUpdateZ after_dangling = 0
  /\ scene after_dangling = scene after_sum.
Proof.
  unfold after_dangling.
  destruct (on_input_error GRID_script LAYERS_source Host.newFunction "x +"
              origin after_sum (dangling_operator_error _)) as [msg ->].
  destruct after_sum_state as (_ & Hx & Hz & _).
  cbn [compiledFunc lastUpdateX lastUpdateZ scene].
  split; [ reflexivity | split; [ exact Hx | split; [ exact Hz | reflexivity ] ] ].
Qed.

(** C2, as stated, fails: with [x + z] installed, the input of [x +] is a
    compilation error and leaves no compiled function, not the one in effect
    before. *)
Lemma failed_compile_discards_function :
  compile_error Host.newFunction "x +" (ctx (scene after_sum))
  /\ compiledFunc after_sum = Some sum_function
  /\ compiledFunc after_dangling = None
  /\ compiledFunc after_dangling <> compiledFunc after_sum.
Proof.
  destruct after_sum_state as (Hsum & _).
  destruct after_dangling_state as (Hnone & _).
  split; [ apply dangling_operator_error | ].
  split; [ exact Hsum | split; [ exact Hnone | ] ].
  rewrite Hsum, Hnone. discriminate.
Qed.

Lemma failed_compile_installs_null_witness :
  let st' := on_input GRID_script LAYERS_source Host.newFunction "x +" origin
               after_sum in
  compile_error Host.newFunction "x +" (ctx (scene after_sum))
  /\ compiledFunc st' = None
  /\ scene st' = scene after_sum
  /\ lastUpdateX st' = lastUpdateX after_sum.
Proof.
  cbv zeta.
  destruct (failed_compile_installs_null GRID_script LAYERS_source
              Host.newFunction "x +" origin after_sum
              (dangling_operator_error _))
    as (Hnull & Hscene & Hx & _).
  split; [ apply dangling_operator_error | ].
  split; [ exact Hnull | split; [ exact Hscene | exact Hx ] ].
Defined.

(** C4, as stated, fails: after the failed compilation no function is
    installed; with the reference point 3 units from the last centre and
    [force = false], the call changes nothing and the new centre is not
    recorded. *)
Lemma moved_without_function_no_refresh :
  let st' := updateTerrain GRID_script LAYERS_source false three_east
               after_dangling in
  Z.abs (Qfloor (fst three_east) - lastUpdateX after_dangling) = 3
  /\ Z.abs (Qfloor (snd three_east) - lastUpdateZ after_dangling) = 0
  /\ st' = after_dangling
  /\ lastUpdateX st' <> Qfloor (fst three_east).
Proof.
  cbv zeta.
  destruct after_dangling_state as (Hnone & Hx & Hz & _).
  rewrite (updateTerrain_without_function GRID_script LAYERS_source false
             three_east after_dangling Hnone).
  rewrite Hx, Hz.
  split; [ reflexivity | split; [ reflexivity | split; [ reflexivity | ] ] ].
  discriminate.
Qed.

Lemma hysteresis_with_compiled_function_witness :
  Z.abs (Qfloor (fst (1 # 2, 3 # 2)%Q) - lastUpdateX after_sum) < 2
  /\ Z.abs (Qfloor (snd (1 # 2, 3 # 2)%Q) - lastUpdateZ after_sum) < 2
  /\ updateTerrain GRID_script LAYERS_source false (1 # 2, 3 # 2)%Q after_sum
     = after_sum
  /\ 2 <= Z.abs (Qfloor (fst three_east) - lastUpdateX after_sum)
  /\ lastUpdateX (updateTerrain GRID_script LAYERS_source false three_east
                    after_sum) = 3
  /\ updateTerrain GRID_script LAYERS_source false three_east after_dangling
     = after_dangling.
Proof.
  destruct after_sum_state as (Hsum & Hx0 & Hz0 & Hlm & Hlc).
  destruct after_dangling_state as (Hnone0 & _).
  pose proof (hysteresis_with_compiled_function GRID_script LAYERS_source
                (1 # 2, 3 # 2)%Q after_sum) as [_ Hnear].
  pose proof (hysteresis_with_compiled_function GRID_script LAYERS_source
                three_east after_sum) as [_ Hfar].
  pose proof (hysteresis_with_compiled_function GRID_script LAYERS_source
                three_east after_dangling) as [Hnone _].
  destruct (Hnear sum_function Hsum) as [Hnoop _].
  destruct (Hfar sum_function Hsum) as [_ Hrefresh].
  assert (Hx : Z.abs (Qfloor (fst (1 # 2, 3 # 2)%Q) - lastUpdateX after_sum) < 2)
    by (rewrite Hx0; reflexivity).
  assert (Hz : Z.abs (Qfloor (snd (1 # 2, 3 # 2)%Q) - lastUpdateZ after_sum) < 2)
    by (rewrite Hz0; reflexivity).
  assert (Hmoved : 2 <= Z.abs (Qfloor (fst three_east) - lastUpdateX after_sum))
    by (rewrite Hx0; discriminate).
  split; [ exact Hx | split; [ exact Hz | split; [ exact (Hnoop Hx Hz) | ] ] ].
  split; [ exact Hmoved | ].
  destruct (Hrefresh (or_introl Hmoved) Hlm Hlc) as (Hcx & _).
  split; [ exact Hcx | exact (Hnone Hnone0) ].
Defined.

(** The window of script.js around the origin, formula [x + z]: the first
    entry is the top layer of the column at (-80, -80), and the entry at
    index [(80 * 160 + 80) * 4 + 1] is the layer below the surface of the
    column at the origin. *)
Lemma refresh_writes_window_row_major_witness :
  let st := compiled_state GRID_script LAYERS_source sum_function in
  let st' := updateTerrain GRID_script LAYERS_source true origin st in
  compiledFunc st = Some sum_function
  /\ passes_guard true origin st
  /\ length (instanceMatrix (scene st)) = TOTAL_INSTANCES GRID_script LAYERS_source
  /\ length (instanceColor (scene st)) = TOTAL_INSTANCES GRID_script LAYERS_source
  /\ length (instanceMatrix (scene st'))
     = (GRID_script * GRID_script * LAYERS_source)%nat
  /\ instanceMatrix (scene st') !! ((0 * GRID_script + 0) * LAYERS_source + 0)%nat
     = Some (-80, -160, -80)
  /\ instanceMatrix (scene st') !! ((80 * GRID_script + 80) * LAYERS_source + 1)%nat
     = Some (0, -1, 0).
Proof.
  cbv zeta.
  destruct (length_initial_buffers GRID_script LAYERS_source hidden_box)
    as [Hlm Hlc].
  assert (Hguard : passes_guard true origin
                     (compiled_state GRID_script LAYERS_source sum_function))
    by (left; reflexivity).
  destruct (refresh_writes_window_row_major GRID_script LAYERS_source
              sum_function true origin
              (compiled_state GRID_script LAYERS_source sum_function)
              eq_refl Hguard Hlm Hlc) as (Hlen & _ & Hat & _).
  split; [ reflexivity | split; [ exact Hguard | ] ].
  split; [ exact Hlm | split; [ exact Hlc | split; [ exact Hlen | ] ] ].
  split.
  - destruct (Hat 0%nat 0%nat 0%nat) as [Hm _];
      [ unfold GRID_script; lia | unfold GRID_script; lia
      | unfold LAYERS_source; lia | ].
    exact Hm.
  - destruct (Hat 80%nat 80%nat 1%nat) as [Hm _];
      [ unfold GRID_script; lia | unfold GRID_script; lia
      | unfold LAYERS_source; lia | ].
    exact Hm.
Defined.

(** The window of script.js around the origin with a formula that throws on
    the column at the origin: that column, of index (80, 80), stands at
    height 0. *)
Lemma failing_column_gets_height_zero_witness :
  let st := compiled_state GRID_script LAYERS_source throwing_at_origin in
  let st' := updateTerrain GRID_script LAYERS_source true origin st in
  compiledFunc st = Some throwing_at_origin
  /\ passes_guard true origin st
  /\ (exists msg, throwing_at_origin (Ctx.mkCoords 0 0) 0 0 = Throws msg)
  /\ column_height GRID_script throwing_at_origin 0 0 80 80 = 0%Q
  /\ instanceMatrix (scene st') !! ((80 * GRID_script + 80) * LAYERS_source + 0)%nat
     = Some (0, 0, 0)
  /\ lastUpdateX st' = 0.
Proof.
  cbv zeta.
  destruct (length_initial_buffers GRID_script LAYERS_source hidden_box)
    as [Hlm Hlc].
  assert (Hguard : passes_guard true origin
                     (compiled_state GRID_script LAYERS_source throwing_at_origin))
    by (left; reflexivity).
  assert (Hthrow : exists msg, throwing_at_origin (Ctx.mkCoords 0 0) 0 0 = Throws msg)
    by (eexists; reflexivity).
  assert (Hi : (80 < GRID_script)%nat) by (unfold GRID_script; lia).
  destruct (failing_column_gets_height_zero GRID_script LAYERS_source
              throwing_at_origin true origin
              (compiled_state GRID_script LAYERS_source throwing_at_origin)
              80%nat 80%nat eq_refl Hguard Hlm Hlc Hi Hi (or_introl Hthrow))
    as (Hzero & Hat & Hx & _).
  split; [ reflexivity | split; [ exact Hguard | split; [ exact Hthrow | ] ] ].
  split; [ exact Hzero | ].
  split; [ | exact Hx ].
  destruct (Hat 0%nat) as [Hm _]; [ unfold LAYERS_source; lia | ].
  exact Hm.
Defined.

(* ===================================================================== *)
(** ** Properties of the formula builder *)
(* ===================================================================== *)

Example toFixed_samples :
  (toFixed (999 # 100) 1, toFixed (5 # 1000) 2, toFixed (1234 # 100) 0,
   toFixed 0 3, toFixed (25 # 10) 0)
  = ("10.0", "0.01", "12", "0.000", "3")%string.
Proof. vm_compute. reflexivity. Qed.

Section NumeralFacts.
Import Syntax.

Lemma uint_chars_digits (u : Decimal.uint) :
  Forall digit (list_ascii_of_string (NilEmpty.string_of_uint u)).
Proof.
  induction u; cbn; constructor; try assumption; reflexivity.
Qed.

Lemma nzhead_not_zero (u : Decimal.uint) :
  match Decimal.nzhead u with Decimal.D0 _ => False | _ => True end.
Proof. induction u; cbn; trivial. Qed.

Lemma to_uint_normal (n : N) : N.to_uint n = Decimal.unorm (N.to_uint n).
Proof.
  rewrite <- (DecimalN.Unsigned.to_of (N.to_uint n)).
  now rewrite DecimalN.Unsigned.of_to.
Qed.

Lemma digits_of_integer_part (n : Z) : IntegerPart (digits_of n).
Proof.
  unfold digits_of. rewrite to_uint_normal. unfold Decimal.unorm.
  pose proof (nzhead_not_zero (N.to_uint (Z.to_N n))) as Hnz.
  destruct (Decimal.nzhead (N.to_uint (Z.to_N n))) as [| u | u | u | u | u | u | u | u | u | u ];
    [ apply IP_zero | contradiction | .. ];
    cbn; (apply IP_nonzero;
          [ reflexivity | discriminate | apply uint_chars_digits ]).
Qed.

Lemma IntegerPart_digits (m : list ascii) : IntegerPart m -> Forall digit m.
Proof.
  intros [| c rest Hc _ Hrest]; constructor; try assumption.
  - reflexivity.
  - constructor.
Qed.

(** The padded digits split into an integer part and [f] digits. *)
Lemma pad_zeros_split (f : nat) (m : list ascii) :
  f <> 0%nat -> IntegerPart m ->
  let p := pad_zeros (S f) m in
  IntegerPart (take (length p - f) p)
  /\ drop (length p - f) p <> []
  /\ Forall digit (drop (length p - f) p).
Proof.
  intros Hf Hm. cbv zeta. unfold pad_zeros.
  pose proof (IntegerPart_digits m Hm) as Hdigits.
  assert (Hzero : digit "0"%char) by reflexivity.
  destruct (le_lt_dec (length m) f) as [Hshort | Hlong].
  - replace (S f - length m)%nat with (S (f - length m)) by lia.
    cbn [replicate]. rewrite length_app. cbn [length].
    rewrite length_replicate.
    replace (S (f - length m) + length m - f)%nat with 1%nat by lia.
    cbn [take drop firstn skipn app].
    split; [ apply IP_zero | split ].
    + intros Hnil. apply app_eq_nil in Hnil as [_ ->]. inversion Hm.
    + apply Forall_app. split; [ now apply Forall_replicate | exact Hdigits ].
  - replace (S f - length m)%nat with 0%nat by lia. cbn [replicate app].
    split; [ | split ].
    + destruct Hm as [| c rest Hc Hne Hrest]; [ cbn in Hlong; lia | ].
      cbn [length] in *.
      replace (S (length rest) - f)%nat with (S (length rest - f)) by lia.
      cbn [take firstn]. apply IP_nonzero; try assumption.
      now apply Forall_take.
    + intros Hnil. apply (f_equal (@length ascii)) in Hnil.
      rewrite length_drop in Hnil. cbn in Hnil. lia.
    + now apply Forall_drop.
Qed.

(** [toFixed] of a number that is not negative is a decimal literal. *)
Lemma toFixed_numeral (x : Q) (f : nat) : (0 <= x)%Q -> Numeral (toFixed x f).
Proof.
  intros Hx. unfold toFixed.
  assert (Hsign : Qltb x 0 = false)
    by (apply Qltb_nlt; now apply Qle_not_lt).
  rewrite Hsign. cbn [app].
  destruct (Nat.eqb_spec f 0) as [-> | Hf].
  - apply N_integer, digits_of_integer_part.
  - destruct (pad_zeros_split f _ Hf (digits_of_integer_part
               (Qfloor (Qabs x * inject_Z (10 ^ Z.of_nat f) + (1 # 2)))))
      as (Hip & Hne & Hfp).
    now apply N_fraction.
Qed.

End NumeralFacts.


Section GenFacts.

Context {A B : Type}.

Lemma yields_ret (a : A) (P : A -> Prop) : P a -> yields 0 (ret a) P.
Proof. intros Ha r _. cbn. repeat split; [ exact Ha | lia | lia ]. Qed.

Lemma yields_bind (n1 n2 : nat) (m : Gen A) (k : A -> Gen B)
    (P : A -> Prop) (Q : B -> Prop) :
  yields n1 m P ->
  (forall a, P a -> yields n2 (k a) Q) ->
  yields (n1 + n2) (bind m k) Q.
Proof.
  intros Hm Hk r Hr. unfold bind.
  destruct (Hm r Hr) as (Ha & Hdraws & Hused).
  destruct (m r) as [a r']. cbn [fst snd] in *.
  assert (Hr' : unit_draws r') by (unfold unit_draws; now rewrite Hdraws).
  destruct (Hk a Ha r' Hr') as (Hb & Hdraws' & Hused').
  split; [ exact Hb | split; [ congruence | lia ] ].
Qed.

Lemma yields_weaken (n n' : nat) (m : Gen A) (P Q : A -> Prop) :
  yields n m P -> (n <= n')%nat -> (forall a, P a -> Q a) -> yields n' m Q.
Proof.
  intros Hm Hle Himp r Hr. destruct (Hm r Hr) as (Ha & Hdraws & Hused).
  split; [ now apply Himp | split; [ exact Hdraws | lia ] ].
Qed.

End GenFacts.

Lemma yields_random :
  yields 1 random (fun q => (0 <= q)%Q /\ (q < 1)%Q).
Proof.
  intros r Hr. cbn. split; [ apply Hr | split; [ reflexivity | lia ] ].
Qed.

(** A draw scaled to the length of an array and floored is an index of it. *)
Lemma scaled_index (q : Q) (len : nat) :
  (0 <= q)%Q -> (q < 1)%Q -> (0 < len)%nat ->
  0 <= Qfloor (q * inject_Z (Z.of_nat len)) < Z.of_nat len.
Proof.
  intros Hlo Hhi Hlen.
  assert (Hl : (0 < inject_Z (Z.of_nat len))%Q)
    by (change 0%Q with (inject_Z 0); rewrite <- Zlt_Qlt; lia).
  split.
  - change 0 with (Qfloor 0). apply Qfloor_resp_le.
    apply Qmult_le_0_compat; [ exact Hlo | now apply Qlt_le_weak ].
  - rewrite Zlt_Qlt.
    apply Qle_lt_trans with (q * inject_Z (Z.of_nat len))%Q;
      [ apply Qfloor_le | ].
    rewrite <- (Qmult_1_l (inject_Z (Z.of_nat len))) at 2.
    now apply Qmult_lt_compat_r.
Qed.

Lemma yields_pick (arr : list string) :
  arr <> [] -> yields 1 (pick arr) (fun s => In s arr).
Proof.
  intros Harr. unfold pick.
  apply (yields_bind 1 0 random _ (fun q => (0 <= q)%Q /\ (q < 1)%Q));
    [ apply yields_random | ].
  intros q [Hlo Hhi]. apply yields_ret.
  assert (Hlen : (0 < length arr)%nat)
    by (destruct arr; [ congruence | cbn; lia ]).
  destruct (scaled_index q (length arr) Hlo Hhi Hlen) as [Hidx0 Hidx1].
  destruct (Z.ltb_spec (Qfloor (q * inject_Z (Z.of_nat (length arr)))) 0);
    [ lia | ].
  apply nth_In. lia.
Qed.

Section FormulaFacts.
Import Syntax.

Lemma string_append_assoc (a b c : string) :
  (a +++ b) +++ c = a +++ (b +++ c).
Proof. induction a as [| ch a IH]; cbn; [ reflexivity | now rewrite IH ]. Qed.

Lemma numeral_zero : Numeral "0".
Proof. apply (N_integer ["0"%char]), IP_zero. Qed.

Lemma numeral_ten : Numeral "10".
Proof.
  apply (N_integer ["1"%char; "0"%char]), IP_nonzero;
    [ reflexivity | discriminate | repeat constructor ].
Qed.

Lemma numeral_twentieth : Numeral "0.05".
Proof.
  apply (N_fraction ["0"%char] ["0"%char; "5"%char]);
    [ apply IP_zero | discriminate | repeat constructor ].
Qed.

Lemma operator_of_ops (op : string) : In op ["+"; "-"; "*"]%string -> Operator op.
Proof. unfold Operator. cbn. intuition auto. Qed.

Lemma formula_coordinate (v num : string) :
  v = "x"%string \/ v = "z"%string -> Numeral num ->
  Formula (v +++ "*" +++ num).
Proof.
  intros Hv Hnum.
  apply (F_binary v "" "*" "" num);
    [ | reflexivity | right; right; reflexivity | reflexivity
      | now apply F_numeral ].
  apply F_name. destruct Hv as [-> | ->]; reflexivity.
Qed.

Lemma formula_base (s : string) : BaseTerm s -> Formula s.
Proof.
  intros [Hnum | (v & num & Hv & Hnum & ->)];
    [ now apply F_numeral | now apply formula_coordinate ].
Qed.

Lemma formula_binary_paren (a op b : string) :
  Formula a -> Operator op -> Formula b ->
  Formula ("(" +++ a +++ " " +++ op +++ " " +++ b +++ ")").
Proof.
  intros Ha Hop Hb.
  replace (a +++ " " +++ op +++ " " +++ b +++ ")")
    with ((a +++ " " +++ op +++ " " +++ b) +++ ")")
    by (now rewrite !string_append_assoc).
  apply F_paren. apply F_binary; try assumption; reflexivity.
Qed.

Lemma formula_unary (f a : string) :
  Identifier f -> Formula a -> Formula (f +++ "(" +++ a +++ ")").
Proof. intros Hf Ha. apply F_call; [ exact Hf | now apply A_last ]. Qed.

(** [name(x*a, 0, z*b) * k] *)
Lemma formula_noise_call (name a b k : string) :
  Identifier name -> Numeral a -> Numeral b -> Numeral k ->
  Formula (name +++ "(x*" +++ a +++ ", 0, z*" +++ b +++ ") * " +++ k).
Proof.
  intros Hname Ha Hb Hk.
  replace (name +++ "(x*" +++ a +++ ", 0, z*" +++ b +++ ") * " +++ k)
    with ((name +++ "("
           +++ (("x" +++ "*" +++ a) +++ "," +++ " "
                +++ "0" +++ "," +++ " " +++ ("z" +++ "*" +++ b))
           +++ ")")
          +++ " " +++ "*" +++ " " +++ k)
    by (rewrite !string_append_assoc; reflexivity).
  apply F_binary;
    [ | reflexivity | right; right; reflexivity | reflexivity
      | now apply F_numeral ].
  apply F_call; [ exact Hname | ].
  apply A_more; [ apply formula_coordinate; auto | reflexivity | ].
  apply A_more; [ apply F_numeral, numeral_zero | reflexivity | ].
  apply A_last, formula_coordinate; auto.
Qed.

End FormulaFacts.

Lemma draws_bound_succ (d : nat) :
  draws_bound (S d) = (2 * draws_bound d + 2)%nat.
Proof.
  unfold draws_bound. rewrite Nat.pow_succ_r'.
  assert (1 <= 2 ^ d)%nat by (apply Nat.neq_0_lt_0, Nat.pow_nonzero; lia).
  lia.
Qed.

Lemma draws_bound_base (d : nat) : (3 <= draws_bound d)%nat.
Proof.
  unfold draws_bound.
  assert (1 <= 2 ^ d)%nat by (apply Nat.neq_0_lt_0, Nat.pow_nonzero; lia).
  lia.
Qed.

Lemma Qscaled_nonneg (v c d : Q) :
  (0 <= v)%Q -> (0 <= c)%Q -> (0 <= d)%Q -> (0 <= v * c + d)%Q.
Proof.
  intros Hv Hc Hd.
  apply Qle_trans with (0 + 0)%Q; [ discriminate | ].
  apply Qplus_le_compat; [ now apply Qmult_le_0_compat | exact Hd ].
Qed.

Section ScriptGenerator.
Import Syntax.

Local Abbreviation unit_interval := (fun q : Q => (0 <= q)%Q /\ (q < 1)%Q).

(** The base case of script.js: at most three draws, a base term. *)
Lemma genExpr_script_base (depth : Z) :
  depth <= 0 -> yields 3 (Generator_script.genExpr depth) BaseTerm.
Proof.
  intros Hdepth. rewrite Generator_script.genExpr_equation_1.
  destruct (Z_le_gt_dec depth 0) as [Hle | Hgt]; [ | lia ].
  cbn [Generator_script.genExpr_unfold_clause_1].
  apply (yields_bind 1 2 random _ unit_interval); [ apply yields_random | ].
  intros r _. destruct (Qltb r (6 # 10)).
  - apply (yields_bind 1 1 random _ unit_interval); [ apply yields_random | ].
    intros c _.
    apply (yields_bind 1 0 random _ unit_interval); [ apply yields_random | ].
    intros v [Hv _]. apply yields_ret. right.
    exists (if Qltb c (1 # 2) then "x" else "z")%string,
           (toFixed (v * (15 # 100)) 3).
    split; [ destruct (Qltb c (1 # 2)); auto | ].
    split; [ | reflexivity ].
    apply toFixed_numeral. apply Qmult_le_0_compat; [ exact Hv | discriminate ].
  - apply (yields_weaken 1 2 _ BaseTerm); [ | lia | auto ].
    apply (yields_bind 1 0 random _ unit_interval); [ apply yields_random | ].
    intros v [Hv _]. apply yields_ret. left.
    apply toFixed_numeral. apply Qmult_le_0_compat; [ exact Hv | discriminate ].
Qed.

Lemma genExpr_script_formula (n : nat) :
  forall depth, Z.to_nat depth = n ->
    yields (draws_bound n) (Generator_script.genExpr depth) Formula.
Proof.
  induction n as [| n IH]; intros depth Hn.
  - apply (yields_weaken 3 _ _ BaseTerm);
      [ apply genExpr_script_base; lia | apply draws_bound_base
      | apply formula_base ].
  - assert (IHd : yields (draws_bound n)
                    (fun r => Generator_script.genExpr (depth - 1) r) Formula)
      by (apply IH; lia).
    rewrite Generator_script.genExpr_equation_1.
    destruct (Z_le_gt_dec depth 0) as [Hle | Hgt]; [ lia | ].
    cbn [Generator_script.genExpr_unfold_clause_1].
    rewrite draws_bound_succ.
    apply (yields_weaken (1 + (2 * draws_bound n + 1)) _ _ Formula);
      [ | lia | auto ].
    apply (yields_bind 1 _ random _ unit_interval); [ apply yields_random | ].
    intros type _. destruct (Qltb type (3 # 10)); [ | destruct (Qltb type (6 # 10)) ].
    + apply (yields_weaken (draws_bound n + (1 + (draws_bound n + 0))) _ _ Formula);
        [ | lia | auto ].
      apply (yields_bind _ _ _ _ Formula); [ exact IHd | ]. intros a Ha.
      apply (yields_bind _ _ _ _ (fun s => In s Generator_script.ops));
        [ apply yields_pick; discriminate | ]. intros op Hop.
      apply (yields_bind _ _ _ _ Formula); [ exact IHd | ]. intros b Hb.
      apply yields_ret.
      apply formula_binary_paren; [ exact Ha | now apply operator_of_ops | exact Hb ].
    + apply (yields_weaken (1 + (draws_bound n + 0)) _ _ Formula);
        [ | lia | auto ].
      apply (yields_bind _ _ _ _ (fun s => In s Generator_script.funcs));
        [ apply yields_pick; discriminate | ]. intros f Hf.
      apply (yields_bind _ _ _ _ Formula); [ exact IHd | ]. intros a Ha.
      apply yields_ret. apply formula_unary; [ | exact Ha ].
      cbn in Hf. repeat destruct Hf as [<- | Hf]; try reflexivity. contradiction.
    + apply (yields_weaken (1 + 0) _ _ Formula); [ | lia | auto ].
      apply (yields_bind _ _ _ _ (fun s => In s Generator_script.noise));
        [ apply yields_pick; discriminate | ]. intros name Hname.
      apply yields_ret.
      change (name +++ "(x*0.05, 0, z*0.05) * 10")
        with (name +++ "(x*" +++ "0.05" +++ ", 0, z*" +++ "0.05" +++ ") * " +++ "10").
      apply formula_noise_call;
        [ | apply numeral_twentieth | apply numeral_twentieth | apply numeral_ten ].
      cbn in Hname. repeat destruct Hname as [<- | Hname]; try reflexivity.
      contradiction.
Qed.

End ScriptGenerator.

Section Part000Generator.
Import Syntax.

Local Abbreviation unit_interval := (fun q : Q => (0 <= q)%Q /\ (q < 1)%Q).

Variable noiseKey : string.
Hypothesis noiseKey_listed : In noiseKey Generator_part_000.noiseTypes.

Lemma noiseKey_identifier : Identifier (toLowerCase noiseKey).
Proof.
  pose proof noiseKey_listed as Hin. cbn in Hin.
  repeat destruct Hin as [<- | Hin]; try reflexivity. contradiction.
Qed.

Lemma genExpr_part_000_base (depth : Z) :
  depth <= 0 -> yields 3 (Generator_part_000.genExpr depth noiseKey) BaseTerm.
Proof.
  intros Hdepth. rewrite Generator_part_000.genExpr_equation_1.
  destruct (Z_le_gt_dec depth 0) as [Hle | Hgt]; [ | lia ].
  cbn [Generator_part_000.genExpr_unfold_clause_1].
  apply (yields_bind 1 2 random _ unit_interval); [ apply yields_random | ].
  intros r _. destruct (Qltb r (6 # 10)).
  - apply (yields_bind 1 1 random _ unit_interval); [ apply yields_random | ].
    intros c _.
    apply (yields_bind 1 0 random _ unit_interval); [ apply yields_random | ].
    intros v [Hv _]. apply yields_ret. right.
    exists (if Qltb c (1 # 2) then "x" else "z")%string,
           (toFixed (v * (15 # 100) + (1 # 100)) 3).
    split; [ destruct (Qltb c (1 # 2)); auto | ].
    split; [ | reflexivity ].
    apply toFixed_numeral. apply Qscaled_nonneg; [ exact Hv | discriminate .. ].
  - apply (yields_weaken 1 2 _ BaseTerm); [ | lia | auto ].
    apply (yields_bind 1 0 random _ unit_interval); [ apply yields_random | ].
    intros v [Hv _]. apply yields_ret. left.
    apply toFixed_numeral. apply Qmult_le_0_compat; [ exact Hv | discriminate ].
Qed.

Lemma genExpr_part_000_formula (n : nat) :
  forall depth, Z.to_nat depth = n ->
    yields (draws_bound n) (Generator_part_000.genExpr depth noiseKey) Formula.
Proof.
  induction n as [| n IH]; intros depth Hn.
  - apply (yields_weaken 3 _ _ BaseTerm);
      [ apply genExpr_part_000_base; lia | apply draws_bound_base
      | apply formula_base ].
  - assert (IHd : yields (draws_bound n)
                    (fun r => Generator_part_000.genExpr (depth - 1) noiseKey r)
                    Formula)
      by (apply IH; lia).
    rewrite Generator_part_000.genExpr_equation_1.
    destruct (Z_le_gt_dec depth 0) as [Hle | Hgt]; [ lia | ].
    cbn [Generator_part_000.genExpr_unfold_clause_1].
    rewrite draws_bound_succ.
    pose proof (draws_bound_base n) as Hbase.
    apply (yields_weaken (1 + (2 * draws_bound n + 1)) _ _ Formula);
      [ | lia | auto ].
    apply (yields_bind 1 _ random _ unit_interval); [ apply yields_random | ].
    intros type _. destruct (Qltb type (3 # 10)); [ | destruct (Qltb type (6 # 10)) ].
    + apply (yields_weaken (draws_bound n + (1 + (draws_bound n + 0))) _ _ Formula);
        [ | lia | auto ].
      apply (yields_bind _ _ _ _ Formula); [ exact IHd | ]. intros a Ha.
      apply (yields_bind _ _ _ _ (fun s => In s Generator_part_000.ops));
        [ apply yields_pick; discriminate | ]. intros op Hop.
      apply (yields_bind _ _ _ _ Formula); [ exact IHd | ]. intros b Hb.
      apply yields_ret.
      apply formula_binary_paren; [ exact Ha | now apply operator_of_ops | exact Hb ].
    + apply (yields_weaken (1 + (draws_bound n + 0)) _ _ Formula);
        [ | lia | auto ].
      apply (yields_bind _ _ _ _ (fun s => In s Generator_part_000.funcs));
        [ apply yields_pick; discriminate | ]. intros f Hf.
      apply (yields_bind _ _ _ _ Formula); [ exact IHd | ]. intros a Ha.
      apply yields_ret. apply formula_unary; [ | exact Ha ].
      cbn in Hf. repeat destruct Hf as [<- | Hf]; try reflexivity. contradiction.
    + cbv zeta.
      apply (yields_weaken (1 + (1 + (1 + 0))) _ _ Formula); [ | lia | auto ].
      apply (yields_bind 1 _ random _ unit_interval); [ apply yields_random | ].
      intros fx [Hfx _].
      apply (yields_bind 1 _ random _ unit_interval); [ apply yields_random | ].
      intros fz [Hfz _].
      apply (yields_bind 1 _ random _ unit_interval); [ apply yields_random | ].
      intros k [Hk _]. apply yields_ret.
      apply formula_noise_call;
        [ apply noiseKey_identifier
        | apply toFixed_numeral, Qmult_le_0_compat; [ exact Hfx | discriminate ]
        | apply toFixed_numeral, Qmult_le_0_compat; [ exact Hfz | discriminate ]
        | apply toFixed_numeral, Qscaled_nonneg; [ exact Hk | discriminate .. ] ].
Qed.

End Part000Generator.


Example genExpr_script_half :
  Generator_script.genExpr 1 half_draws
  = ("abs(z*0.075)"%string, mkRandom (draws half_draws) 5).
Proof. vm_compute. reflexivity. Qed.

Example genExpr_script_stepping :
  fst (Generator_script.genExpr 3 stepping_draws)
  = "(abs((z*0.033 - 3.3)) * (floor(z*0.138) + simplex(x*0.05, 0, z*0.05) * 10))"%string.
Proof. vm_compute. reflexivity. Qed.

Example genExpr_part_000_stepping :
  fst (Generator_part_000.genExpr 2 "Perlin" (mkRandom (draws stepping_draws) 7))
  = "sqrt(round(x*0.132))"%string
  /\ fst (Generator_part_000.genExpr 2 "Perlin" (mkRandom (draws stepping_draws) 2))
     = "perlin(x*0.011, 0, z*0.048) * 22"%string.
Proof. split; vm_compute; reflexivity. Qed.

Example genExpr_negative_depth :
  fst (Generator_script.genExpr (-5) stepping_draws) = "x*0.111"%string.
Proof. vm_compute. reflexivity. Qed.

(** The recursive builder.  For every integer depth and every sequence of
    draws from the unit interval, [genExpr] of script.js and [genExpr] of part_000 (with a noise
    key of [noiseTypes]) are total: defined by recursion on the depth, every
    recursive call at the depth less one, a depth of zero or less being the
    base case.  The call consumes at most [draws_bound] draws of the
    sequence, and the text it returns is a formula of the syntax of the
    engine; at a depth of zero or less it is a coordinate term or a
    literal. *)
Theorem genExpr_total_and_well_formed (depth : Z) (r : Random) :
  unit_draws r ->
  (Syntax.Formula (fst (Generator_script.genExpr depth r))
   /\ draws (snd (Generator_script.genExpr depth r)) = draws r
   /\ (used r <= used (snd (Generator_script.genExpr depth r))
       <= used r + draws_bound (Z.to_nat depth))%nat
   /\ (depth <= 0 -> Syntax.BaseTerm (fst (Generator_script.genExpr depth r))))
  /\ (forall noiseKey, In noiseKey Generator_part_000.noiseTypes ->
        Syntax.Formula (fst (Generator_part_000.genExpr depth noiseKey r))
        /\ draws (snd (Generator_part_000.genExpr depth noiseKey r)) = draws r
        /\ (used r <= used (snd (Generator_part_000.genExpr depth noiseKey r))
            <= used r + draws_bound (Z.to_nat depth))%nat
        /\ (depth <= 0 ->
            Syntax.BaseTerm (fst (Generator_part_000.genExpr depth noiseKey r)))).
Proof.
  intros Hr. split.
  - destruct (genExpr_script_formula (Z.to_nat depth) depth eq_refl r Hr)
      as (Hformula & Hdraws & Hused).
    split; [ exact Hformula | split; [ exact Hdraws | split; [ exact Hused | ] ] ].
    intros Hdepth. apply (genExpr_script_base depth Hdepth r Hr).
  - intros noiseKey Hkey.
    destruct (genExpr_part_000_formula noiseKey Hkey (Z.to_nat depth) depth
                eq_refl r Hr) as (Hformula & Hdraws & Hused).
    split; [ exact Hformula | split; [ exact Hdraws | split; [ exact Hused | ] ] ].
    intros Hdepth. apply (genExpr_part_000_base noiseKey depth Hdepth r Hr).
Qed.

Lemma half_draws_unit : unit_draws half_draws.
Proof. intros n. split; [ discriminate | reflexivity ]. Qed.

(** With every draw at one half and depth 1, script.js builds
    [abs(z*0.075)] from five draws. *)
Lemma genExpr_total_and_well_formed_witness :
  unit_draws half_draws
  /\ Syntax.Formula "abs(z*0.075)"
  /\ (used (snd (Generator_script.genExpr 1 half_draws)) <= 8)%nat.
Proof.
  destruct (genExpr_total_and_well_formed 1 half_draws half_draws_unit)
    as [(Hformula & _ & Hused & _) _].
  split; [ exact half_draws_unit | split ].
  - rewrite genExpr_script_half in Hformula. exact Hformula.
  - exact (proj2 Hused).
Defined.

(* ===================================================================== *)
(** ** Further properties of the hash, the modulo and the caret rewrite *)
(* ===================================================================== *)

Section HashFacts.
Import Int32.

Lemma lxor_uint32 (h v : Z) :
  0 <= h < 2 ^ 32 -> 0 <= v < 2 ^ 32 -> 0 <= Z.lxor h v < 2 ^ 32.
Proof.
  intros Hh Hv.
  pose proof (toUint32_lxor h v) as Hx. unfold toUint32 in Hx.
  rewrite (Z.mod_small h), (Z.mod_small v) in Hx by assumption.
  rewrite <- Hx. apply Z.mod_pos_bound. lia.
Qed.

(** Multiplication by the prime is undone by its inverse modulo 2^32. *)
Lemma fnv_prime_invertible (a : Z) :
  0 <= a < 2 ^ 32 ->
  ((a * Hash.fnv_prime) mod 2 ^ 32 * 899433627) mod 2 ^ 32 = a.
Proof.
  intros Ha. unfold Hash.fnv_prime.
  rewrite Z.mul_mod_idemp_l by lia.
  rewrite <- Z.mul_assoc.
  rewrite <- Z.mul_mod_idemp_r by lia.
  change ((16777619 * 899433627) mod 2 ^ 32) with 1.
  rewrite Z.mul_1_r. now apply Z.mod_small.
Qed.

Lemma fnv_fold_range (h v : Z) : 0 <= Hash.fnv_fold h v < 2 ^ 32.
Proof. unfold Hash.fnv_fold. apply Z.mod_pos_bound. lia. Qed.

Lemma fnv_fold_inj_value (h v v' : Z) :
  0 <= h < 2 ^ 32 ->
  Hash.fnv_fold h v = Hash.fnv_fold h v' -> v mod 2 ^ 32 = v' mod 2 ^ 32.
Proof.
  intros Hh Heq. unfold Hash.fnv_fold in Heq.
  pose proof (Z.mod_pos_bound v (2 ^ 32) ltac:(lia)) as Hv.
  pose proof (Z.mod_pos_bound v' (2 ^ 32) ltac:(lia)) as Hv'.
  apply (f_equal (fun w => (w * 899433627) mod 2 ^ 32)) in Heq.
  rewrite !fnv_prime_invertible in Heq by (now apply lxor_uint32).
  apply (f_equal (Z.lxor h)) in Heq.
  now rewrite <- !Z.lxor_assoc, Z.lxor_nilpotent, !Z.lxor_0_l in Heq.
Qed.

Lemma fnv_fold_inj_state (h h' v : Z) :
  0 <= h < 2 ^ 32 -> 0 <= h' < 2 ^ 32 ->
  Hash.fnv_fold h v = Hash.fnv_fold h' v -> h = h'.
Proof.
  intros Hh Hh' Heq. unfold Hash.fnv_fold in Heq.
  pose proof (Z.mod_pos_bound v (2 ^ 32) ltac:(lia)) as Hv.
  apply (f_equal (fun w => (w * 899433627) mod 2 ^ 32)) in Heq.
  rewrite !fnv_prime_invertible in Heq by (now apply lxor_uint32).
  apply (f_equal (fun w => Z.lxor w (v mod 2 ^ 32))) in Heq.
  now rewrite !Z.lxor_assoc, Z.lxor_nilpotent, !Z.lxor_0_r in Heq.
Qed.

Lemma int32_mod_inj (a a' : Z) :
  is_int32 a -> is_int32 a' -> a mod 2 ^ 32 = a' mod 2 ^ 32 -> a = a'.
Proof.
  unfold is_int32. intros Ha Ha' Heq.
  pose proof (Z.div_mod a (2 ^ 32) ltac:(lia)) as Hd.
  pose proof (Z.div_mod a' (2 ^ 32) ltac:(lia)) as Hd'.
  pose proof (Z.mod_pos_bound a (2 ^ 32) ltac:(lia)) as Hm.
  pose proof (Z.mod_pos_bound a' (2 ^ 32) ltac:(lia)) as Hm'.
  rewrite Heq in *.
  change (2 ^ 32) with 4294967296 in *. change (2 ^ 31) with 2147483648 in *.
  lia.
Qed.

Lemma intHash_fnv1a (a b : Z) :
  Hash.intHash a b = Qmake (Hash.fnv1a a b) 4294967296.
Proof. unfold Hash.intHash. f_equal. apply intHashMix_fnv1a. Qed.

Lemma fnv_basis_range : 0 <= Hash.fnv_basis < 2 ^ 32.
Proof. unfold Hash.fnv_basis. split; [ lia | reflexivity ]. Qed.

End HashFacts.

Lemma intHash_shift (a b k l : Z) :
  Hash.intHash (a + k * 2 ^ 32) (b + l * 2 ^ 32) = Hash.intHash a b.
Proof.
  rewrite !intHash_fnv1a. f_equal.
  unfold Hash.fnv1a, Hash.fnv_fold.
  now rewrite !Z.mod_add by lia.
Qed.

(** X1.  The hash wraps: shifting either argument by a multiple of 2^32 leaves
    it unchanged, so that arguments outside the signed 32-bit range hash as
    their 32-bit wrap does. *)
Theorem intHash_wraps_modulo_word (a b k l : Z) :
  Hash.intHash (a + k * 2 ^ 32) (b + l * 2 ^ 32) = Hash.intHash a b
  /\ Hash.intHash (Int32.toInt32 a) (Int32.toInt32 b) = Hash.intHash a b.
Proof.
  split; [ apply intHash_shift | ].
  rewrite !intHash_fnv1a. f_equal.
  unfold Hash.fnv1a, Hash.fnv_fold.
  pose proof (toUint32_toInt32 a) as Ha.
  pose proof (toUint32_toInt32 b) as Hb.
  unfold Int32.toUint32 in Ha, Hb. now rewrite Ha, Hb.
Qed.

(** X3.  Within the 32-bit range the hash has no collision along a row or a
    column: with one argument fixed it is injective in the other. *)
Theorem intHash_injective_per_axis (a a' b b' : Z) :
  Int32.is_int32 a -> Int32.is_int32 a' ->
  Int32.is_int32 b -> Int32.is_int32 b' ->
  (Hash.intHash a b = Hash.intHash a' b -> a = a')
  /\ (Hash.intHash a b = Hash.intHash a b' -> b = b').
Proof.
  intros Ha Ha' Hb Hb'. rewrite !intHash_fnv1a. unfold Hash.fnv1a. split.
  - intros Heq. injection Heq as Heq.
    apply fnv_fold_inj_state in Heq; try apply fnv_fold_range.
    apply fnv_fold_inj_value in Heq; [ | apply fnv_basis_range ].
    now apply int32_mod_inj.
  - intros Heq. injection Heq as Heq.
    apply fnv_fold_inj_value in Heq; [ | apply fnv_fold_range ].
    now apply int32_mod_inj.
Qed.

Lemma intHash_injective_per_axis_witness :
  Int32.is_int32 7 /\ Int32.is_int32 (-3)
  /\ (Hash.intHash 7 (-3) = Hash.intHash 7 (-3) -> (-3) = (-3)).
Proof.
  assert (H7 : Int32.is_int32 7) by (unfold Int32.is_int32; lia).
  assert (H3 : Int32.is_int32 (-3)) by (unfold Int32.is_int32; lia).
  split; [ exact H7 | split; [ exact H3 | ] ].
  exact (proj2 (intHash_injective_per_axis 7 7 (-3) (-3) H7 H7 H3 H3)).
Defined.

Lemma round_integer_small (n : Z) :
  Z.abs n < 2 ^ 53 -> Double.round_integer n = Some n.
Proof.
  intros Hn. unfold Double.round_integer.
  destruct (Z.ltb_spec (Z.abs n) (2 ^ 53)) as [_ | Hge]; [ reflexivity | lia ].
Qed.

(** The two remainders of the source give the floored modulo. *)
Lemma rem_rem_floored (x y : Z) :
  y <> 0 -> Z.rem (Z.rem x y + y) y = x mod y.
Proof.
  intros Hy.
  pose proof (Z.quot_rem' x y) as Hx.
  pose proof (Z.quot_rem' (Z.rem x y + y) y) as Hr.
  destruct (Z.lt_trichotomy y 0) as [Hneg | [Hz | Hpos]]; [ | lia | ].
  - pose proof (Z.rem_bound_abs x y Hy) as Habs.
    assert (Hle : Z.rem x y + y <= 0) by lia.
    pose proof (Z.rem_nonpos (Z.rem x y + y) y Hy Hle) as Hnp.
    pose proof (Z.rem_bound_abs (Z.rem x y + y) y Hy) as Habs'.
    apply (Z.mod_unique_neg x y (x ÷ y + (Z.rem x y + y) ÷ y - 1)); lia.
  - pose proof (Z.rem_bound_abs x y Hy) as Habs.
    assert (Hge : 0 <= Z.rem x y + y) by lia.
    pose proof (Z.rem_nonneg (Z.rem x y + y) y Hy Hge) as Hnn.
    pose proof (Z.rem_bound_abs (Z.rem x y + y) y Hy) as Habs'.
    apply (Z.mod_unique_pos x y (x ÷ y + (Z.rem x y + y) ÷ y - 1)); lia.
Qed.

(** X4.  On doubles with integer values and a divisor of magnitude at most
    2^52 the corrected modulo is the floored modulo: for a divisor that is
    not zero the result is [x mod y], which has the sign of the divisor and
    lies between 0 and [y] for a positive one, also for a negative [x]; for
    the divisor zero it is NaN.  The bound keeps the sum [(x % y) + y]
    below 2^53, where it is a double. *)
Theorem mod_is_floored_modulo (x y : Z) :
  Z.abs y <= 2 ^ 52 ->
  (y <> 0 -> Ctx.mod_ x y = Finite (inject_Z (x mod y)))
  /\ (0 < y -> exists r, Ctx.mod_ x y = Finite (inject_Z r) /\ 0 <= r < y)
  /\ (y = 0 -> Ctx.mod_ x y = NotFinite).
Proof.
  intros Hsmall.
  assert (Hmain : y <> 0 -> Ctx.mod_ x y = Finite (inject_Z (x mod y))).
  { intros Hy. unfold Ctx.mod_.
    destruct (Z.eqb_spec y 0) as [| _]; [ contradiction | ].
    pose proof (Z.rem_bound_abs x y Hy) as Habs.
    rewrite round_integer_small
      by (change (2 ^ 53) with (2 ^ 52 + 2 ^ 52); lia).
    now rewrite rem_rem_floored. }
  split; [ exact Hmain | split ].
  - intros Hpos. exists (x mod y).
    split; [ apply Hmain; lia | apply Z.mod_pos_bound; lia ].
  - intros ->. reflexivity.
Qed.

(** Beyond the bound the sum is rounded: the code and the definition give
    2^53 where the floored modulo is 2^53 + 1. *)
Example mod_rounds_large_divisor :
  Ctx.mod_ (-1) (2 ^ 53 + 2) = Finite (inject_Z (2 ^ 53))
  /\ (-1) mod (2 ^ 53 + 2) = 2 ^ 53 + 1.
Proof. split; vm_compute; reflexivity. Qed.

Example mod_negative_dividend : Ctx.mod_ (-7) 5 = Finite 3.
Proof. reflexivity. Qed.

Lemma mod_is_floored_modulo_witness :
  Z.abs 5 <= 2 ^ 52 /\ Ctx.mod_ (-7) 5 = Finite (inject_Z ((-7) mod 5)).
Proof.
  assert (Hsmall : Z.abs 5 <= 2 ^ 52) by (vm_compute; discriminate).
  split; [ exact Hsmall | ].
  apply (proj1 (mod_is_floored_modulo (-7) 5 Hsmall)). discriminate.
Defined.

(** X5.  The caret rewrite leaves no caret, lengthens the text by one character
    per caret, keeps a text without caret as it is (so a second pass changes
    nothing), and works piece by piece. *)
Theorem replace_caret_removes_every_caret (s t : string) :
  has_char "^" (replace_caret s) = false
  /\ String.length (replace_caret s) = (String.length s + carets s)%nat
  /\ (has_char "^" s = false -> replace_caret s = s)
  /\ replace_caret (replace_caret s) = replace_caret s
  /\ replace_caret (String.append s t)
     = String.append (replace_caret s) (replace_caret t).
Proof.
  assert (Hnone : forall u, has_char "^" (replace_caret u) = false).
  { induction u as [| c u IH]; [ reflexivity | ].
    cbn [replace_caret]. destruct (Ascii.eqb c "^") eqn:Hc.
    - cbn. exact IH.
    - cbn [has_char]. rewrite Ascii.eqb_sym, Hc. exact IH. }
  assert (Hfix : forall u, has_char "^" u = false -> replace_caret u = u).
  { induction u as [| c u IH]; [ reflexivity | ].
    cbn [has_char replace_caret]. intros Hno.
    apply orb_false_iff in Hno as [Hc Hu].
    rewrite Ascii.eqb_sym, Hc. now rewrite IH. }
  split; [ apply Hnone | split; [ | split; [ apply Hfix | split ] ] ].
  - induction s as [| c s IH]; [ reflexivity | ].
    cbn [replace_caret carets String.length].
    destruct (Ascii.eqb c "^"); cbn [String.length]; rewrite IH; lia.
  - apply Hfix, Hnone.
  - induction s as [| c s IH]; [ reflexivity | ].
    cbn [replace_caret String.append].
    destruct (Ascii.eqb c "^"); cbn [String.append]; now rewrite IH.
Qed.

Lemma replace_caret_removes_every_caret_witness :
  has_char "^" "x*x + z" = false /\ replace_caret "x*x + z" = "x*x + z"%string.
Proof.
  split; [ reflexivity | ].
  apply (proj1 (proj2 (proj2 (replace_caret_removes_every_caret
                                "x*x + z" "")))).
  reflexivity.
Defined.

(* ===================================================================== *)
(** ** Properties of the permutation table and of the noise field *)
(* ===================================================================== *)

Lemma yields_for_upto_gen {St : Type} (n k : nat) (body : nat -> St -> Gen St)
    (P : St -> Prop) (s : St) :
  P s ->
  (forall i s, (i < n)%nat -> P s -> yields k (body i s) P) ->
  yields (n * k) (for_upto_gen n body s) P.
Proof.
  intros Hs Hbody. induction n as [| n IH].
  - apply yields_ret. exact Hs.
  - unfold for_upto_gen. rewrite seq_S, fold_left_app. cbn [fold_left Nat.add].
    replace (S n * k)%nat with (n * k + k)%nat by lia.
    apply (yields_bind _ _ _ _ P).
    + apply IH. intros i s' Hi. apply Hbody. lia.
    + intros s' Hs'. apply Hbody; [ lia | exact Hs' ].
Qed.

Section SeedFacts.

Lemma get_lookup (p : list Z) (i : nat) (x : Z) :
  p !! i = Some x -> Uint8Array.get p (Z.of_nat i) = x.
Proof.
  intros Hx. unfold Uint8Array.get.
  destruct (Z.ltb_spec (Z.of_nat i) 0); [ lia | ].
  rewrite Nat2Z.id. now apply nth_lookup_Some with (d := 0) in Hx.
Qed.

Lemma swapped_lookup (p : list Z) (i r k : nat) (x y : Z) :
  p !! i = Some x -> p !! r = Some y ->
  <[r := x]> (<[i := y]> p) !! k
  = if decide (k = r) then Some x
    else if decide (k = i) then Some y else p !! k.
Proof.
  intros Hx Hy.
  assert (Hi : (i < length p)%nat) by (apply lookup_lt_is_Some; eauto).
  assert (Hr : (r < length p)%nat) by (apply lookup_lt_is_Some; eauto).
  destruct (decide (k = r)) as [-> | Hkr].
  - apply list_lookup_insert_eq. now rewrite length_insert.
  - rewrite list_lookup_insert_ne by lia.
    destruct (decide (k = i)) as [-> | Hki].
    + now apply list_lookup_insert_eq.
    + now rewrite list_lookup_insert_ne by lia.
Qed.

Lemma swapped_shuffled (p : list Z) (i r : nat) (x y : Z) :
  shuffled p -> p !! i = Some x -> p !! r = Some y ->
  shuffled (<[r := x]> (<[i := y]> p)).
Proof.
  intros (Hlen & Hnd & Hall) Hx Hy.
  pose proof (swapped_lookup p i r) as Hlk.
  split; [ now rewrite !length_insert | split ].
  - apply NoDup_alt. intros a b v Ha Hb.
    rewrite (Hlk a x y Hx Hy) in Ha. rewrite (Hlk b x y Hx Hy) in Hb.
    pose proof (proj1 (NoDup_alt p) Hnd) as Hinj.
    destruct (decide (a = r)), (decide (a = i)), (decide (b = r)),
      (decide (b = i)); subst;
      repeat match goal with
             | H : Some _ = Some _ |- _ => injection H as H; subst
             end;
      repeat match goal with
             | H1 : p !! ?u = Some ?w, H2 : p !! ?u' = Some ?w |- _ =>
                 lazymatch u with u' => fail | _ => idtac end;
                 lazymatch goal with
                 | E : u = u' |- _ => fail
                 | _ => assert (u = u') by exact (Hinj _ _ _ H1 H2)
                 end
             end;
      lia.
  - apply Forall_lookup. intros k v Hk.
    rewrite (Hlk k x y Hx Hy) in Hk.
    pose proof (proj1 (Forall_lookup _ p) Hall) as Hp.
    destruct (decide (k = r)), (decide (k = i)); subst;
      try (injection Hk as <-); eauto.
Qed.

Lemma and_255 (z : Z) : Int32.and z 255 = z mod 256.
Proof.
  unfold Int32.and.
  change (Int32.toInt32 255) with (Z.ones 8).
  rewrite Z.land_ones by lia. change (2 ^ 8) with 256.
  assert (Hmod : Int32.toInt32 z mod 256 = z mod 256).
  { unfold Int32.toInt32.
    pose proof (Z.div_mod (z + 2 ^ 31) (2 ^ 32) ltac:(lia)) as Hd.
    replace ((z + 2 ^ 31) mod 2 ^ 32 - 2 ^ 31)
      with (z + (- ((z + 2 ^ 31) / 2 ^ 32) * 16777216) * 256)
      by (change (2 ^ 32) with (16777216 * 256) in *; lia).
    apply Z.mod_add. lia. }
  rewrite Hmod. apply toInt32_id.
  pose proof (Z.mod_pos_bound z 256 ltac:(lia)).
  unfold Int32.is_int32. change (2 ^ 31) with 2147483648. lia.
Qed.

Lemma yields_swap (i : nat) (p : list Z) :
  shuffled p -> (i < 256)%nat -> yields 1 (NoiseSeed.swap i p) shuffled.
Proof.
  intros Hp Hi. unfold NoiseSeed.swap.
  apply (yields_bind 1 0 random _ (fun q => (0 <= q)%Q /\ (q < 1)%Q));
    [ apply yields_random | ].
  intros q [Hlo Hhi]. apply yields_ret.
  pose proof (scaled_index q 256 Hlo Hhi ltac:(lia)) as Hr.
  change (inject_Z (Z.of_nat 256)) with 256%Q in Hr.
  change (Z.of_nat 256) with 256 in Hr.
  set (r := Qfloor (q * 256)) in *.
  destruct Hp as (Hlen & Hnd & Hall).
  destruct (lookup_lt_is_Some_2 p i ltac:(lia)) as [x Hx].
  destruct (lookup_lt_is_Some_2 p (Z.to_nat r) ltac:(lia)) as [y Hy].
  pose proof (proj1 (Forall_lookup _ p) Hall) as Hrange.
  rewrite (get_lookup p i x Hx).
  replace (Uint8Array.get p r) with y
    by (rewrite <- (Z2Nat.id r) by lia; symmetry; now apply get_lookup).
  unfold Uint8Array.set.
  destruct (Z.ltb_spec (Z.of_nat i) 0); [ lia | ].
  destruct (Z.ltb_spec r 0); [ lia | ].
  rewrite Nat2Z.id.
  rewrite (Z.mod_small y), (Z.mod_small x) by eauto.
  apply swapped_shuffled; [ now repeat split | exact Hx | exact Hy ].
Qed.

(** Writing [g i] at every index below [n], in order, leaves the values of
    [g] as bytes, followed by the rest of the array. *)
Lemma fill_bytes (g : nat -> Z) (n : nat) (l0 : list Z) :
  (n <= length l0)%nat ->
  for_upto n (fun i l => Uint8Array.set l (Z.of_nat i) (g i)) l0
  = map (fun i => g i mod 256) (seq 0 n) ++ drop n l0.
Proof.
  induction n as [| n IH]; intros Hn; [ reflexivity | ].
  rewrite for_upto_succ, IH by lia.
  unfold Uint8Array.set. destruct (Z.ltb_spec (Z.of_nat n) 0); [ lia | ].
  rewrite Nat2Z.id, seq_S. cbn [Nat.add].
  pose proof (insert_after_mapped (fun i => g i mod 256) (seq 0 n) l0 n) as Hins.
  rewrite length_app, length_seq in Hins. cbn [length] in Hins.
  replace (n + 1)%nat with (S n) in Hins by lia.
  apply Hins. lia.
Qed.

Lemma initial_bytes :
  for_upto 256 (fun i p => Uint8Array.set p (Z.of_nat i) (Z.of_nat i))
    (Uint8Array.make 256)
  = map Z.of_nat (seq 0 256).
Proof. vm_compute. reflexivity. Qed.

Lemma initial_bytes_shuffled : shuffled (map Z.of_nat (seq 0 256)).
Proof.
  split; [ reflexivity | split ].
  - apply NoDup_fmap_2; [ intros a b; lia | apply NoDup_seq ].
  - apply Forall_forall. intros x Hx.
    apply list_elem_of_fmap in Hx as (k & -> & Hk).
    apply elem_of_seq in Hk. lia.
Qed.

Lemma shuffled_permutation (p : list Z) :
  shuffled p -> p ≡ₚ map Z.of_nat (seq 0 256).
Proof.
  intros (Hlen & Hnd & Hall).
  apply submseteq_length_Permutation.
  - apply NoDup_submseteq; [ exact Hnd | ].
    intros x Hx. pose proof (proj1 (Forall_forall _ p) Hall x Hx) as Hr.
    cbv beta in Hr.
    apply list_elem_of_fmap. exists (Z.to_nat x).
    split; [ lia | apply elem_of_seq; lia ].
  - rewrite length_map, length_seq. lia.
Qed.

Lemma table_of_shuffled (p perm : list Z) :
  shuffled p -> length perm = 512%nat ->
  seeded (for_upto 512
            (fun i perm =>
               Uint8Array.set perm (Z.of_nat i)
                 (Uint8Array.get p (Int32.and (Z.of_nat i) 255)))
            perm).
Proof.
  intros Hp Hperm.
  rewrite fill_bytes by lia. rewrite <- Hperm, drop_all, app_nil_r.
  destruct Hp as (Hlen & Hnd & Hall).
  pose proof (proj1 (Forall_lookup _ p) Hall) as Hrange.
  set (t := map _ _).
  assert (Hat : forall k, (k < 512)%nat -> t !! k = p !! (k mod 256)%nat).
  { intros k Hk. subst t.
    change (map ?g ?l) with (g <$> l).
    rewrite list_lookup_fmap, lookup_seq_lt by lia. cbn [fmap option_fmap option_map Nat.add].
    pose proof (Nat.mod_upper_bound k 256 ltac:(lia)) as Hm.
    destruct (lookup_lt_is_Some_2 p (k mod 256) ltac:(lia)) as [x Hx].
    rewrite Hx, and_255. f_equal.
    replace (Z.of_nat k mod 256) with (Z.of_nat (k mod 256))
      by (rewrite Nat2Z.inj_mod; reflexivity).
    rewrite (get_lookup p _ x Hx). apply Z.mod_small. eauto. }
  assert (Hlt : length t = 512%nat) by (subst t; now rewrite length_map, length_seq).
  assert (Htake : take 256 t = p).
  { apply list_eq. intros k. destruct (le_lt_dec 256 k) as [Hge | Hlt'].
    - rewrite lookup_take_ge by lia. symmetry. apply lookup_ge_None. lia.
    - rewrite lookup_take_lt by lia. rewrite Hat by lia.
      now rewrite Nat.mod_small by lia. }
  split; [ exact Hlt | split; [ | split ] ].
  - rewrite Htake. now apply shuffled_permutation.
  - intros i Hi. rewrite !Hat by lia.
    replace ((256 + i) mod 256)%nat with (i mod 256)%nat; [ reflexivity | ].
    rewrite <- (Nat.Div0.mod_add i 1 256). f_equal. lia.
  - apply Forall_lookup. intros k x Hk.
    assert (Hk' : (k < 512)%nat) by (rewrite <- Hlt; apply lookup_lt_is_Some; eauto).
    rewrite Hat in Hk by lia. eauto.
Qed.

End SeedFacts.

(** X6.  Whatever the draws, [Noise.seed] leaves a table of 512 bytes whose first
    half is a permutation of the bytes 0 to 255 and whose second half repeats
    the first; it makes at most 256 draws and only reads the generator. *)
Theorem seed_leaves_permutation_table (perm : list Z) (r : Random) :
  unit_draws r -> length perm = 512%nat ->
  seeded (fst (NoiseSeed.seed perm r))
  /\ draws (snd (NoiseSeed.seed perm r)) = draws r
  /\ (used r <= used (snd (NoiseSeed.seed perm r)) <= used r + 256)%nat.
Proof.
  intros Hr Hperm.
  assert (Hy : yields (256 * 1 + 0) (NoiseSeed.seed perm) seeded).
  { unfold NoiseSeed.seed. rewrite initial_bytes.
    apply (yields_bind _ _ _ _ shuffled).
    - apply yields_for_upto_gen; [ apply initial_bytes_shuffled | ].
      intros i p Hi Hp. now apply yields_swap.
    - intros p Hp. apply yields_ret. now apply table_of_shuffled. }
  apply (Hy r Hr).
Qed.

Lemma seed_leaves_permutation_table_witness :
  unit_draws half_draws
  /\ length (Uint8Array.make 512) = 512%nat
  /\ length (fst (NoiseSeed.seed (Uint8Array.make 512) half_draws)) = 512%nat.
Proof.
  split; [ exact half_draws_unit | split; [ reflexivity | ] ].
  exact (proj1 (proj1 (seed_leaves_permutation_table (Uint8Array.make 512)
                         half_draws half_draws_unit eq_refl))).
Defined.

Section SimplexFacts.

Lemma and_255_range (z : Z) : 0 <= Int32.and z 255 < 256.
Proof. rewrite and_255. apply Z.mod_pos_bound. lia. Qed.

Lemma perm_at_range (perm : list Z) (k : Z) :
  length perm = 512%nat -> Forall (fun x => 0 <= x < 256) perm ->
  0 <= k < 512 -> 0 <= Noise.perm_at perm k < 256.
Proof.
  intros Hlen Hall Hk. unfold Noise.perm_at.
  destruct (lookup_lt_is_Some_2 perm (Z.to_nat k) ltac:(lia)) as [x Hx].
  pose proof (proj1 (Forall_lookup _ perm) Hall _ _ Hx) as Hr.
  apply nth_lookup_Some with (d := 0) in Hx. now rewrite Hx.
Qed.

Lemma perm_at_app (perm junk : list Z) (k : Z) :
  length perm = 512%nat -> 0 <= k < 512 ->
  Noise.perm_at (perm ++ junk) k = Noise.perm_at perm k.
Proof.
  intros Hlen Hk. unfold Noise.perm_at. apply app_nth1. lia.
Qed.

(** X7.  On a table of 512 bytes the field reads inside the table only: whatever
    follows the 512 entries has no influence on any sample. *)
Theorem simplex_reads_inside_table (perm junk : list Z) (x y : Q) :
  length perm = 512%nat -> Forall (fun b => 0 <= b < 256) perm ->
  Noise.simplex (perm ++ junk) x y = Noise.simplex perm x y.
Proof.
  intros Hlen Hall. unfold Noise.simplex. cbv zeta.
  set (a := Int32.and _ 255). set (b := Int32.and _ 255).
  pose proof (and_255_range (Qfloor (x + (x + y) * ((1 # 2) * (Noise.sqrt3 - 1)))))
    as Ha.
  pose proof (and_255_range (Qfloor (y + (x + y) * ((1 # 2) * (Noise.sqrt3 - 1)))))
    as Hb.
  assert (Hin : forall k, 0 <= k < 512 ->
            Noise.perm_at (perm ++ junk) k = Noise.perm_at perm k)
    by (intros; now apply perm_at_app).
  assert (Hby : forall k, 0 <= k < 512 -> 0 <= Noise.perm_at perm k < 256)
    by (intros; now apply perm_at_range).
  assert (Hinner : forall k, 0 <= k <= 256 ->
            Noise.perm_at (perm ++ junk) k = Noise.perm_at perm k
            /\ 0 <= Noise.perm_at perm k < 256)
    by (intros k Hk; split; [ apply Hin | apply Hby ]; lia).
  assert (Houter : forall k c, 0 <= k <= 256 -> 0 <= c <= 256 ->
            Noise.perm_at (perm ++ junk) (c + Noise.perm_at (perm ++ junk) k)
            = Noise.perm_at perm (c + Noise.perm_at perm k)).
  { intros k c Hk Hc. destruct (Hinner k Hk) as [-> Hr]. apply Hin. lia. }
  fold a in Ha. fold b in Hb.
  destruct (Qltb _ _); rewrite !Houter by lia; reflexivity.
Qed.

End SimplexFacts.

Lemma identity_perm_bytes : Forall (fun b => 0 <= b < 256) Noise.identity_perm.
Proof.
  unfold Noise.identity_perm. apply Forall_forall. intros b Hb.
  apply list_elem_of_fmap in Hb as (k & -> & _).
  apply Z.mod_pos_bound. lia.
Qed.

Lemma simplex_reads_inside_table_witness :
  length Noise.identity_perm = 512%nat
  /\ Forall (fun b => 0 <= b < 256) Noise.identity_perm
  /\ Noise.simplex (Noise.identity_perm ++ [999]) (7 # 3) (-5 # 2)
     = Noise.simplex Noise.identity_perm (7 # 3) (-5 # 2).
Proof.
  split; [ reflexivity | split; [ exact identity_perm_bytes | ] ].
  exact (simplex_reads_inside_table Noise.identity_perm [999] (7 # 3) (-5 # 2)
           eq_refl identity_perm_bytes).
Defined.

Section NoiseBounds.

Local Open Scope Q_scope.

Lemma Qsquare_nonneg (a : Q) : 0 <= a * a.
Proof. nra. Qed.

(** Inside the disc of radius [sqrt (1/2)] every gradient of the table, and
    the null gradient, has a dot product between -1 and 1. *)
Lemma dot_bound (gi : Z) (x y : Q) :
  x * x + y * y <= 1 # 2 ->
  -1 <= Noise.dot (Noise.grad_at gi) x y /\ Noise.dot (Noise.grad_at gi) x y <= 1.
Proof.
  intros Hdisc.
  pose proof (Qsquare_nonneg (x - y)) as Hm.
  pose proof (Qsquare_nonneg (x + y)) as Hp.
  pose proof (Qsquare_nonneg x) as Hx.
  pose proof (Qsquare_nonneg y) as Hy.
  assert (Hs : (x + y) * (x + y) <= 1) by nra.
  assert (Hd : (x - y) * (x - y) <= 1) by nra.
  unfold Noise.grad_at. generalize (Z.to_nat gi) as n. intros n.
  do 12 (destruct n as [| n]; [ cbn; unfold inject_Z; split; nra | ]).
  destruct n; cbn; unfold inject_Z; split; nra.
Qed.

(** One corner contributes between -1/16 and 1/16. *)
Lemma corner_bound (gi : Z) (x y : Q) :
  - (1 # 16) <= Noise.corner ((1 # 2) - x * x - y * y) gi x y
  /\ Noise.corner ((1 # 2) - x * x - y * y) gi x y <= 1 # 16.
Proof.
  unfold Noise.corner.
  destruct (Qltb ((1 # 2) - x * x - y * y) 0) eqn:Hneg; [ split; discriminate | ].
  apply Qltb_nlt in Hneg. apply Qnot_lt_le in Hneg.
  pose proof (Qsquare_nonneg x) as Hx.
  pose proof (Qsquare_nonneg y) as Hy.
  assert (Hdisc : x * x + y * y <= 1 # 2) by lra.
  destruct (dot_bound gi x y Hdisc) as [Hlo Hhi].
  set (d := Noise.dot (Noise.grad_at gi) x y) in *. clearbody d.
  set (t := (1 # 2) - x * x - y * y) in *.
  assert (Ht : t <= 1 # 2) by (subst t; lra).
  clearbody t.
  assert (Hu : 0 <= t * t /\ t * t <= 1 # 4) by (split; nra).
  destruct Hu as [Hu0 Hu1].
  assert (Hw : 0 <= t * t * (t * t) /\ t * t * (t * t) <= 1 # 16) by (split; nra).
  destruct Hw as [Hw0 Hw1].
  split; nra.
Qed.

(** Replaces every corner term of the goal by a number between -1/16 and
    1/16. *)
Ltac bound_corners :=
  repeat match goal with
         | |- context [Noise.corner ?t ?g ?a ?b] =>
             let H := fresh "Hc" in
             pose proof (corner_bound g a b) as H;
             let n := fresh "n" in
             set (n := Noise.corner t g a b) in *; clearbody n
         end.

Lemma simplex_range (perm : list Z) (x y : Q) :
  - (105 # 8) <= Noise.simplex perm x y /\ Noise.simplex perm x y <= 105 # 8.
Proof.
  unfold Noise.simplex. cbv zeta.
  destruct (Qltb _ _); bound_corners; split; lra.
Qed.

(** X8.  Every sample of the field at a point of the world, on every table,
    lies between -105/8 and 105/8: each of the three corners contributes at
    most 1/16 in magnitude, whichever triangle of the cell holds the
    point. *)
Theorem simplex_bounded (perm : list Z) (x y : Q) :
  in_world x -> in_world y ->
  - (105 # 8) <= Noise.simplex perm x y /\ Noise.simplex perm x y <= 105 # 8.
Proof.
  intros _ _. unfold Noise.simplex. cbv zeta.
  destruct (Qltb _ _).
  - (* the lower triangle of the cell: the middle corner is (1, 0) *)
    bound_corners. split; lra.
  - (* the upper triangle: the middle corner is (0, 1) *)
    bound_corners. split; lra.
Qed.

End NoiseBounds.

Section OctavedBounds.

Local Open Scope Q_scope.

Variable perm : list Z.

Lemma orDefault_positive (per : Q) : 0 <= per -> 0 < orDefault per (1 # 2).
Proof.
  intros Hper. unfold orDefault.
  destruct (Qeq_bool per 0) eqn:Hz; [ reflexivity | ].
  apply Qeq_bool_neq in Hz.
  apply Qle_lteq in Hper as [Hlt | Heq]; [ exact Hlt | ].
  exfalso. apply Hz. now symmetry.
Qed.

Lemma balanced_pass (x z per : Q) (s : Ctx.Octaves) :
  0 <= per -> balanced s ->
  balanced (Ctx.octave_pass perm x z per s)
  /\ 0 < Ctx.max (Ctx.octave_pass perm x z per s).
Proof.
  intros Hper (Hamp & Hmax & Hlo & Hhi).
  pose proof (orDefault_positive per Hper) as Hq.
  unfold Ctx.octave_pass, balanced. cbn [Ctx.total Ctx.amp Ctx.max Ctx.freq].
  destruct (simplex_range perm (x * Ctx.freq s) (z * Ctx.freq s)) as [Hs0 Hs1].
  set (v := Noise.simplex perm _ _) in *. clearbody v.
  set (q := orDefault per (1 # 2)) in *. clearbody q.
  destruct s as [t a f m]. cbn [Ctx.total Ctx.amp Ctx.max Ctx.freq] in *.
  repeat split; nra.
Qed.

Lemma balanced_iter (x z per : Q) (n : nat) :
  0 <= per ->
  let s := Nat.iter (S n) (Ctx.octave_pass perm x z per) (Ctx.mkOctaves 0 1 1 0) in
  balanced s /\ 0 < Ctx.max s.
Proof.
  intros Hper. cbv zeta.
  assert (Hk : forall k, balanced (Nat.iter k (Ctx.octave_pass perm x z per)
                                     (Ctx.mkOctaves 0 1 1 0))).
  { induction k as [| k IH].
    - cbn. unfold balanced. cbn. repeat split; discriminate.
    - cbn [Nat.iter nat_rect]. now apply balanced_pass. }
  cbn [Nat.iter nat_rect]. apply balanced_pass; [ exact Hper | apply Hk ].
Qed.

Lemma passes_positive (oct : Q) : 0 <= oct -> (0 < passes (orDefault oct 4))%nat.
Proof.
  intros Hoct. unfold orDefault.
  destruct (Qeq_bool oct 0) eqn:Hz; [ change (passes 4) with 4%nat; lia | ].
  apply Qeq_bool_neq in Hz.
  assert (Hpos : 0 < oct).
  { apply Qle_lteq in Hoct as [Hlt | Heq]; [ exact Hlt | ].
    exfalso. apply Hz. now symmetry. }
  unfold passes.
  pose proof (Qle_ceiling oct) as Hc.
  assert (Hc0 : inject_Z 0 < inject_Z (Qceiling oct))
    by (apply Qlt_le_trans with oct; assumption).
  rewrite <- Zlt_Qlt in Hc0. lia.
Qed.

(** X9.  At a point of the world, with a persistence between 0 and 1 and an
    octave count between 0 and 64 (0 standing for the defaults 0.5 and 4),
    [octaved] returns a finite number within the bounds of a single sample;
    with a negative octave count the loop does not run and the quotient 0/0
    is returned. *)
Theorem octaved_stays_in_range (x z oct per : Q) :
  in_world x -> in_world z -> per <= 1 -> oct <= 64 ->
  (0 <= per -> 0 <= oct ->
   exists v, Ctx.octaved perm x z oct per = Finite v
             /\ - (105 # 8) <= v /\ v <= 105 # 8)
  /\ (oct < 0 -> Ctx.octaved perm x z oct per = NotFinite).
Proof.
  intros _ _ _ _. split.
  - intros Hper Hoct. unfold Ctx.octaved. cbv zeta.
    pose proof (passes_positive oct Hoct) as Hn.
    destruct (passes (orDefault oct 4)) as [| n]; [ lia | ].
    destruct (balanced_iter x z per n Hper) as ((_ & _ & Hlo & Hhi) & Hmax).
    set (s := Nat.iter (S n) _ _) in *. clearbody s.
    unfold Number_div.
    destruct (Qeq_bool (Ctx.max s) 0) eqn:Hz.
    + apply Qeq_bool_iff in Hz. rewrite Hz in Hmax. discriminate.
    + eexists. split; [ reflexivity | split ].
      * apply Qle_shift_div_l; [ exact Hmax | exact Hlo ].
      * apply Qle_shift_div_r; [ exact Hmax | exact Hhi ].
  - intros Hneg. unfold Ctx.octaved. cbv zeta.
    assert (Hnz : ~ oct == 0) by (intros Hz; rewrite Hz in Hneg; discriminate).
    rewrite (orDefault_nonzero oct 4 Hnz).
    assert (Hp : passes oct = 0%nat).
    { unfold passes. pose proof (Qceiling_lt oct) as Hc.
      assert (Hc0 : inject_Z (Qceiling oct - 1) < inject_Z 0)
        by (apply Qlt_trans with oct; assumption).
      rewrite <- Zlt_Qlt in Hc0. lia. }
    rewrite Hp. reflexivity.
Qed.

End OctavedBounds.

Lemma in_world_fraction (n : Z) (d : positive) :
  Z.abs n <= 2 ^ 31 -> in_world (n # d).
Proof.
  intros Hn. unfold in_world, Qle, Qabs. cbn [Qnum Qden inject_Z].
  rewrite Z.mul_1_r.
  assert (1 <= Z.pos d) by lia.
  assert (0 <= Z.abs n) by lia.
  nia.
Qed.

Lemma simplex_bounded_witness :
  in_world (7 # 3) /\ in_world (-5 # 2)
  /\ (Noise.simplex Noise.identity_perm (7 # 3) (-5 # 2) <= 105 # 8)%Q.
Proof.
  assert (Hx : in_world (7 # 3)) by (apply in_world_fraction; vm_compute; discriminate).
  assert (Hy : in_world (-5 # 2)) by (apply in_world_fraction; vm_compute; discriminate).
  split; [ exact Hx | split; [ exact Hy | ] ].
  exact (proj2 (simplex_bounded Noise.identity_perm (7 # 3) (-5 # 2) Hx Hy)).
Defined.

Lemma octaved_stays_in_range_witness :
  in_world (1 # 3) /\ in_world (2 # 5) /\ (0 <= 1 # 2 <= 1)%Q /\ (0 <= 3 <= 64)%Q
  /\ exists v, Ctx.octaved Noise.identity_perm (1 # 3) (2 # 5) 3 (1 # 2) = Finite v
               /\ (v <= 105 # 8)%Q.
Proof.
  assert (Hx : in_world (1 # 3)) by (apply in_world_fraction; vm_compute; discriminate).
  assert (Hz : in_world (2 # 5)) by (apply in_world_fraction; vm_compute; discriminate).
  assert (Hper : (0 <= 1 # 2)%Q) by discriminate.
  assert (Hper1 : (1 # 2 <= 1)%Q) by discriminate.
  assert (Hoct : (0 <= 3)%Q) by discriminate.
  assert (Hoct1 : (3 <= 64)%Q) by discriminate.
  split; [ exact Hx | split; [ exact Hz | ] ].
  split; [ split; assumption | split; [ split; assumption | ] ].
  destruct (proj1 (octaved_stays_in_range Noise.identity_perm (1 # 3) (2 # 5)
                     3 (1 # 2) Hx Hz Hper1 Hoct1) Hper Hoct)
    as (v & Hv & _ & Hhi).
  exists v. split; [ exact Hv | exact Hhi ].
Defined.

(* ===================================================================== *)
(** ** Further properties of the refresh *)
(* ===================================================================== *)

Lemma for_upto_preserves {St : Type} (P : St -> Prop) (n : nat)
    (body : nat -> St -> St) (s : St) :
  P s -> (forall i s, P s -> P (body i s)) -> P (for_upto n body s).
Proof.
  intros Hs Hbody. induction n as [| n IH]; [ exact Hs | ].
  rewrite for_upto_succ. now apply Hbody.
Qed.

Section RefreshFacts.

Variables GRID LAYERS : nat.

Local Abbreviation TOTAL := (TOTAL_INSTANCES GRID LAYERS).

(** What [updateTerrain] returns: the state it was given, or that state
    with the new centre and the scene that the loops leave. *)
Lemma updateTerrain_cases (force : bool) (ref : Q * Q) (st : State) :
  updateTerrain GRID LAYERS force ref st = st
  \/ exists f,
       compiledFunc st = Some f
       /\ passes_guard force ref st
       /\ updateTerrain GRID LAYERS force ref st
          = mkState (Some f) (Qfloor (fst ref)) (Qfloor (snd ref))
              (snd (refresh_loops GRID LAYERS f (Qfloor (fst ref)) (Qfloor (snd ref)) (scene st)))
              (error_msg st).
Proof.
  unfold updateTerrain, refresh_loops.
  destruct (compiledFunc st) as [f |] eqn:Hf; [ | now left ].
  destruct force; cbn [negb andb].
  - right. exists f. split; [ reflexivity | split; [ now left | ] ].
    destruct (for_upto GRID _ _) as [idx sc]. reflexivity.
  - destruct (Z.ltb_spec (Z.abs (Qfloor (fst ref) - lastUpdateX st)) 2) as [Hx | Hx];
      [ destruct (Z.ltb_spec (Z.abs (Qfloor (snd ref) - lastUpdateZ st)) 2) as [Hz | Hz] | ];
      cbn [andb]; [ now left | | ];
      right; exists f;
      (split; [ reflexivity | split; [ right; auto | ] ]);
      destruct (for_upto GRID _ _) as [idx sc]; reflexivity.
Qed.

Lemma written_window_within (f : HeightFunction) (cx cz : Z) (s : Scene) :
  (TOTAL <= length (instanceMatrix s))%nat ->
  (TOTAL <= length (instanceColor s))%nat ->
  written (instanceMatrix s) (instanceColor s)
    (window_descriptors GRID LAYERS f cx cz)
    (refresh_loops GRID LAYERS f cx cz s).
Proof.
  intros Hlm Hlc. unfold window_descriptors, refresh_loops.
  change (concat (map (row_descriptors GRID LAYERS f cx cz) (seq 0 GRID)))
    with ([] ++ concat (map (row_descriptors GRID LAYERS f cx cz) (seq 0 GRID))).
  apply (written_block_loop _ _ GRID (GRID * LAYERS)).
  - intros i _. apply length_row_descriptors.
  - intros i ds' l' _ Hw' Hm' Hc'. now apply written_row.
  - unfold written. cbn. now rewrite !drop_0.
  - cbn [length]. unfold TOTAL_INSTANCES in Hlm. lia.
  - cbn [length]. unfold TOTAL_INSTANCES in Hlc. lia.
Qed.

(** X10.  A refresh writes the instances of index 0 to [TOTAL_INSTANCES] - 1
    and no other.  On buffers that hold at least [TOTAL_INSTANCES] entries
    (the mesh may be allotted more), the instance index stands at
    [TOTAL_INSTANCES] when the loops end, the first [TOTAL_INSTANCES]
    entries of both buffers are the window, and every entry from the index
    [TOTAL_INSTANCES] on is the one that stood there before. *)
Theorem refresh_stays_within_the_window (f : HeightFunction) (force : bool)
    (ref : Q * Q) (st : State) :
  compiledFunc st = Some f ->
  passes_guard force ref st ->
  (TOTAL <= length (instanceMatrix (scene st)))%nat ->
  (TOTAL <= length (instanceColor (scene st)))%nat ->
  let st' := updateTerrain GRID LAYERS force ref st in
  let ds := window_descriptors GRID LAYERS f (Qfloor (fst ref)) (Qfloor (snd ref)) in
  fst (refresh_loops GRID LAYERS f (Qfloor (fst ref)) (Qfloor (snd ref)) (scene st))
  = TOTAL
  /\ instanceMatrix (scene st')
     = map fst ds ++ drop TOTAL (instanceMatrix (scene st))
  /\ instanceColor (scene st')
     = map snd ds ++ drop TOTAL (instanceColor (scene st)).
Proof.
  intros Hf Hguard Hlm Hlc. cbv zeta.
  pose proof (written_window_within f (Qfloor (fst ref)) (Qfloor (snd ref))
                (scene st) Hlm Hlc) as (Hidx & Hm & Hc).
  rewrite length_window_descriptors in Hidx, Hm, Hc.
  split; [ exact Hidx | ].
  unfold updateTerrain. rewrite Hf, (guard_test _ _ _ Hguard).
  fold (refresh_loops GRID LAYERS f (Qfloor (fst ref)) (Qfloor (snd ref)) (scene st)).
  destruct (refresh_loops GRID LAYERS f _ _ _) as [idx sc].
  cbn [scene]. cbn [snd] in Hm, Hc. split; assumption.
Qed.

(** X11.  A call without force that follows a call at the same reference point
    does nothing: either the first call did nothing and the guard answers
    the same, or it recorded the centre, from which the reference point is
    then 0 away. *)
Theorem tick_after_call_is_noop (force : bool) (ref : Q * Q) (st : State) :
  updateTerrain GRID LAYERS false ref (updateTerrain GRID LAYERS force ref st)
  = updateTerrain GRID LAYERS force ref st.
Proof.
  destruct (updateTerrain_cases force ref st) as [Hsame | (f & Hf & _ & Heq)].
  - rewrite Hsame.
    destruct (updateTerrain_cases false ref st) as [Hnoop | (f & Hf & Hguard & _)];
      [ exact Hnoop | ].
    destruct force.
    + destruct (updateTerrain_cases true ref st) as [_ | (g & Hg & _ & Heq)].
      * (* the forced call did nothing: no function is installed *)
        unfold updateTerrain in Hsame. rewrite Hf in Hsame. cbn in Hsame.
        destruct (for_upto GRID _ _) as [idx sc] in Hsame.
        unfold updateTerrain. rewrite Hf.
        destruct Hguard as [Hforce | Hmoved]; [ discriminate | ].
        rewrite <- Hsame in Hmoved. cbn [lastUpdateX lastUpdateZ] in Hmoved.
        rewrite !Z.sub_diag in Hmoved. cbn in Hmoved. lia.
      * unfold updateTerrain in Hsame. rewrite Hf in Hsame. cbn in Hsame.
        destruct (for_upto GRID _ _) as [idx sc] in Hsame.
        destruct Hguard as [Hforce | Hmoved]; [ discriminate | ].
        rewrite <- Hsame in Hmoved. cbn [lastUpdateX lastUpdateZ] in Hmoved.
        rewrite !Z.sub_diag in Hmoved. cbn in Hmoved. lia.
    + exact Hsame.
  - rewrite Heq. unfold updateTerrain. cbn [compiledFunc lastUpdateX lastUpdateZ].
    rewrite !Z.sub_diag. reflexivity.
Qed.


Lemma for_upto_last {St : Type} (n : nat) (body : nat -> St -> St) (s : St) :
  (0 < n)%nat ->
  for_upto n body s = body (n - 1)%nat (for_upto (n - 1) body s).
Proof.
  intros Hn. destruct n as [| n]; [ lia | ].
  rewrite for_upto_succ. now replace (S n - 1)%nat with n by lia.
Qed.

Lemma layers_keep_ctx (wx wz surfaceY : Z) (biome : Biome) (n : nat)
    (l : nat * Scene) :
  ctx (snd (for_upto n (layer wx wz surfaceY biome) l)) = ctx (snd l).
Proof.
  apply (for_upto_preserves (fun l' : nat * Scene => ctx (snd l') = ctx (snd l)));
    [ reflexivity | ].
  intros d [idx s] Hs. exact Hs.
Qed.

(** What the last pass of a column leaves in the context and in the scratch
    colour. *)
Lemma column_leaves (f : HeightFunction) (cx cz : Z) (i j : nat)
    (l : nat * Scene) :
  (0 < LAYERS)%nat ->
  ctx (snd (column LAYERS f cx cz (Z.of_nat GRID / 2) i j l))
  = Ctx.mkCoords (world GRID cx i) (world GRID cz j)
  /\ color (snd (column LAYERS f cx cz (Z.of_nat GRID / 2) i j l))
     = snd (descriptor GRID f cx cz i j (LAYERS - 1)).
Proof.
  intros HL. destruct l as [idx s]. unfold column.
  rewrite (for_upto_last LAYERS) by exact HL.
  pose proof (layers_keep_ctx
                (cx - Z.of_nat GRID / 2 + Z.of_nat i)
                (cz - Z.of_nat GRID / 2 + Z.of_nat j)
                (Qfloor (height f (Ctx.mkCoords (cx - Z.of_nat GRID / 2 + Z.of_nat i)
                                     (cz - Z.of_nat GRID / 2 + Z.of_nat j))
                           (cx - Z.of_nat GRID / 2 + Z.of_nat i)
                           (cz - Z.of_nat GRID / 2 + Z.of_nat j)))
                (BiomeClassifier.classify
                   (height f (Ctx.mkCoords (cx - Z.of_nat GRID / 2 + Z.of_nat i)
                                (cz - Z.of_nat GRID / 2 + Z.of_nat j))
                      (cx - Z.of_nat GRID / 2 + Z.of_nat i)
                      (cz - Z.of_nat GRID / 2 + Z.of_nat j)))
                (LAYERS - 1)
                (idx, mkScene (Ctx.mkCoords (cx - Z.of_nat GRID / 2 + Z.of_nat i)
                                 (cz - Z.of_nat GRID / 2 + Z.of_nat j))
                        (instanceMatrix s) (instanceColor s) (color s))) as Hctx.
  destruct (for_upto (LAYERS - 1) _ _) as [idx' s'].
  cbn [snd ctx] in Hctx. cbn [layer snd ctx color].
  split; [ exact Hctx | ].
  unfold descriptor, column_height, world. cbn [snd].
  destruct (LAYERS - 1)%nat; reflexivity.
Qed.

(** What a refresh leaves in the scene: the window in the two buffers, the
    coordinates of the last column in the context, the colour of its
    deepest layer in the scratch colour. *)
Lemma refresh_loops_scene (f : HeightFunction) (cx cz : Z) (sc : Scene) :
  (0 < GRID)%nat -> (0 < LAYERS)%nat ->
  length (instanceMatrix sc) = TOTAL ->
  length (instanceColor sc) = TOTAL ->
  snd (refresh_loops GRID LAYERS f cx cz sc)
  = mkScene
      (Ctx.mkCoords (world GRID cx (GRID - 1)) (world GRID cz (GRID - 1)))
      (map fst (window_descriptors GRID LAYERS f cx cz))
      (map snd (window_descriptors GRID LAYERS f cx cz))
      (snd (descriptor GRID f cx cz (GRID - 1) (GRID - 1) (LAYERS - 1))).
Proof.
  intros HG HL Hlm Hlc.
  pose proof (written_window GRID LAYERS _ _ f cx cz sc eq_refl eq_refl Hlm Hlc)
    as (_ & Hm & Hc).
  fold (refresh_loops GRID LAYERS f cx cz sc) in Hm, Hc.
  rewrite length_window_descriptors in Hm, Hc.
  rewrite <- Hlm in Hm at 1. rewrite <- Hlc in Hc at 1.
  rewrite drop_all, app_nil_r in Hm.
  rewrite drop_all, app_nil_r in Hc.
  assert (Hlast : ctx (snd (refresh_loops GRID LAYERS f cx cz sc))
                  = Ctx.mkCoords (world GRID cx (GRID - 1)) (world GRID cz (GRID - 1))
                  /\ color (snd (refresh_loops GRID LAYERS f cx cz sc))
                     = snd (descriptor GRID f cx cz (GRID - 1) (GRID - 1) (LAYERS - 1))).
  { unfold refresh_loops.
    rewrite (for_upto_last GRID) by exact HG.
    rewrite (for_upto_last GRID) by exact HG.
    now apply column_leaves. }
  destruct Hlast as [Hctx Hcol].
  destruct (snd (refresh_loops GRID LAYERS f cx cz sc)) as [c m cs k].
  cbn [ctx instanceMatrix instanceColor color] in *. congruence.
Qed.

Lemma updateTerrain_forced (f : HeightFunction) (ref : Q * Q) (st : State) :
  compiledFunc st = Some f ->
  updateTerrain GRID LAYERS true ref st
  = mkState (Some f) (Qfloor (fst ref)) (Qfloor (snd ref))
      (snd (refresh_loops GRID LAYERS f (Qfloor (fst ref)) (Qfloor (snd ref))
              (scene st)))
      (error_msg st).
Proof.
  intros Hf. unfold updateTerrain, refresh_loops. rewrite Hf.
  cbn [negb andb]. destruct (for_upto GRID _ _) as [idx sc]. reflexivity.
Qed.

(** X12.  A forced refresh forgets the past: from two states that hold the same
    compiled function and the same error box, whatever their buffers (of
    the mesh's size), centres, context and scratch colour hold, a forced
    call at the same reference point leaves the same state. *)
Theorem forced_refresh_forgets_previous_scene (f : HeightFunction)
    (ref : Q * Q) (st1 st2 : State) :
  (0 < GRID)%nat -> (0 < LAYERS)%nat ->
  compiledFunc st1 = Some f -> compiledFunc st2 = Some f ->
  error_msg st1 = error_msg st2 ->
  length (instanceMatrix (scene st1)) = TOTAL ->
  length (instanceColor (scene st1)) = TOTAL ->
  length (instanceMatrix (scene st2)) = TOTAL ->
  length (instanceColor (scene st2)) = TOTAL ->
  updateTerrain GRID LAYERS true ref st1 = updateTerrain GRID LAYERS true ref st2.
Proof.
  intros HG HL Hf1 Hf2 Herr Hm1 Hc1 Hm2 Hc2.
  rewrite (updateTerrain_forced f ref st1 Hf1), (updateTerrain_forced f ref st2 Hf2).
  rewrite !refresh_loops_scene by assumption. now rewrite Herr.
Qed.


Lemma descriptor_shift (f : HeightFunction) (cx cz : Z) (a b i j d : nat) :
  descriptor GRID f (cx + Z.of_nat a) (cz + Z.of_nat b) i j d
  = descriptor GRID f cx cz (i + a) (j + b) d.
Proof.
  unfold descriptor, column_height, world.
  replace (cx + Z.of_nat a - Z.of_nat GRID / 2 + Z.of_nat i)
    with (cx - Z.of_nat GRID / 2 + Z.of_nat (i + a)) by lia.
  replace (cz + Z.of_nat b - Z.of_nat GRID / 2 + Z.of_nat j)
    with (cz - Z.of_nat GRID / 2 + Z.of_nat (j + b)) by lia.
  reflexivity.
Qed.

Lemma refreshed_entry (f : HeightFunction) (ref : Q * Q) (st : State)
    (i j d : nat) :
  compiledFunc st = Some f ->
  length (instanceMatrix (scene st)) = TOTAL ->
  length (instanceColor (scene st)) = TOTAL ->
  (i < GRID)%nat -> (j < GRID)%nat -> (d < LAYERS)%nat ->
  let st' := updateTerrain GRID LAYERS true ref st in
  let e := descriptor GRID f (Qfloor (fst ref)) (Qfloor (snd ref)) i j d in
  instanceMatrix (scene st') !! ((i * GRID + j) * LAYERS + d)%nat = Some (fst e)
  /\ instanceColor (scene st') !! ((i * GRID + j) * LAYERS + d)%nat = Some (snd e).
Proof.
  intros Hf Hlm Hlc Hi Hj Hd. cbv zeta.
  destruct (updateTerrain_refresh GRID LAYERS f true ref st Hf
              (or_introl eq_refl) Hlm Hlc) as (_ & _ & _ & _ & -> & ->).
  rewrite !list_lookup_fmap, window_descriptors_lookup by assumption.
  split; reflexivity.
Qed.

(** X13.  The window follows the centre.  When the floored reference point of a
    second refresh lies [a] columns further along x and [b] columns further
    along z than that of a first one, with the same compiled function, the
    block that the first refresh wrote for the column [(i + a, j + b)]
    is the block that the second writes for the column [(i, j)]: the same
    world position, the same height, the same colour, layer by layer. *)
Theorem window_follows_the_centre (f : HeightFunction) (ref1 ref2 : Q * Q)
    (st1 st2 : State) (a b : nat) :
  compiledFunc st1 = Some f -> compiledFunc st2 = Some f ->
  length (instanceMatrix (scene st1)) = TOTAL ->
  length (instanceColor (scene st1)) = TOTAL ->
  length (instanceMatrix (scene st2)) = TOTAL ->
  length (instanceColor (scene st2)) = TOTAL ->
  Qfloor (fst ref2) = Qfloor (fst ref1) + Z.of_nat a ->
  Qfloor (snd ref2) = Qfloor (snd ref1) + Z.of_nat b ->
  let w1 := updateTerrain GRID LAYERS true ref1 st1 in
  let w2 := updateTerrain GRID LAYERS true ref2 st2 in
  forall i j d, (i + a < GRID)%nat -> (j + b < GRID)%nat -> (d < LAYERS)%nat ->
    instanceMatrix (scene w2) !! ((i * GRID + j) * LAYERS + d)%nat
    = instanceMatrix (scene w1) !! (((i + a) * GRID + (j + b)) * LAYERS + d)%nat
    /\ instanceColor (scene w2) !! ((i * GRID + j) * LAYERS + d)%nat
       = instanceColor (scene w1) !! (((i + a) * GRID + (j + b)) * LAYERS + d)%nat.
Proof.
  intros Hf1 Hf2 Hm1 Hc1 Hm2 Hc2 Hx Hz. cbv zeta. intros i j d Hi Hj Hd.
  destruct (refreshed_entry f ref1 st1 (i + a) (j + b) d Hf1 Hm1 Hc1 Hi Hj Hd)
    as [-> ->].
  destruct (refreshed_entry f ref2 st2 i j d Hf2 Hm2 Hc2) as [-> ->];
    [ lia | lia | exact Hd | ].
  rewrite Hx, Hz, descriptor_shift. split; reflexivity.
Qed.

Section InputFacts.

Variable newFunction : string -> Built.

Lemma compileFormula_accepts (text : string) (c : Ctx.Coords) (box : ErrorBox)
    (f : HeightFunction) (v : Number) :
  newFunction (function_body (replace_caret text)) = Callable f ->
  f c 0 0 = Returns v ->
  compileFormula newFunction text c box = (Some f, mkErrorBox (textContent box) true).
Proof.
  intros Hbuilt Hcall. unfold compileFormula. now rewrite Hbuilt, Hcall.
Qed.

(** X14.  A text that compiles takes effect at once.  When the constructor accepts
    the body and the trial call at (0, 0) returns (any value, finite or
    not), the listener of the formula input installs the function, hides
    the error box and keeps its text, and redraws the whole window around
    the floored reference point even if the centre has not moved. *)
Theorem accepted_formula_is_installed_and_drawn (text : string) (ref : Q * Q)
    (st : State) (f : HeightFunction) (v : Number) :
  newFunction (function_body (replace_caret text)) = Callable f ->
  f (ctx (scene st)) 0 0 = Returns v ->
  length (instanceMatrix (scene st)) = TOTAL ->
  length (instanceColor (scene st)) = TOTAL ->
  let st' := on_input GRID LAYERS newFunction text ref st in
  let ds := window_descriptors GRID LAYERS f (Qfloor (fst ref)) (Qfloor (snd ref)) in
  compiledFunc st' = Some f
  /\ error_msg st' = mkErrorBox (textContent (error_msg st)) true
  /\ lastUpdateX st' = Qfloor (fst ref)
  /\ lastUpdateZ st' = Qfloor (snd ref)
  /\ instanceMatrix (scene st') = map fst ds
  /\ instanceColor (scene st') = map snd ds.
Proof.
  intros Hbuilt Hcall Hlm Hlc. cbv zeta. unfold on_input.
  rewrite (compileFormula_accepts text _ _ f v Hbuilt Hcall).
  destruct (updateTerrain_refresh GRID LAYERS f true ref
              (mkState (Some f) (lastUpdateX st) (lastUpdateZ st) (scene st)
                 (mkErrorBox (textContent (error_msg st)) true))
              eq_refl (or_introl eq_refl) Hlm Hlc)
    as (H1 & H2 & H3 & H4 & H5 & H6).
  auto 10.
Qed.

End InputFacts.

End RefreshFacts.

Lemma forced_refresh_forgets_previous_scene_witness :
  let st1 := compiled_state GRID_script LAYERS_source sum_function in
  let st2 := updateTerrain GRID_script LAYERS_source true three_east st1 in
  lastUpdateX st1 = -999999 /\ lastUpdateX st2 = 3
  /\ updateTerrain GRID_script LAYERS_source true origin st1
     = updateTerrain GRID_script LAYERS_source true origin st2.
Proof.
  cbv zeta.
  destruct (length_initial_buffers GRID_script LAYERS_source hidden_box)
    as [Hlm Hlc].
  destruct (updateTerrain_refresh GRID_script LAYERS_source sum_function true
              three_east (compiled_state GRID_script LAYERS_source sum_function)
              eq_refl (or_introl eq_refl) Hlm Hlc) as (Hf & Hx & _ & Herr & _).
  destruct (refresh_writes_window_rows GRID_script LAYERS_source sum_function
              true three_east
              (compiled_state GRID_script LAYERS_source sum_function)
              eq_refl (or_introl eq_refl) Hlm Hlc) as (Hlen_m & Hlen_c & _).
  split; [ reflexivity | split; [ exact Hx | ] ].
  apply (forced_refresh_forgets_previous_scene GRID_script LAYERS_source
           sum_function origin);
    [ unfold GRID_script; lia | unfold LAYERS_source; lia | reflexivity
    | exact Hf | symmetry; exact Herr | exact Hlm | exact Hlc
    | exact Hlen_m | exact Hlen_c ].
Defined.

(** script.js, formula [x + z]: the first refresh is around the origin, the
    second around a point 3 units east.  The column of index (0, 0) of the
    second window is the column of index (3, 0) of the first one. *)
Lemma window_follows_the_centre_witness :
  let st := compiled_state GRID_script LAYERS_source sum_function in
  let w1 := updateTerrain GRID_script LAYERS_source true origin st in
  let w2 := updateTerrain GRID_script LAYERS_source true three_east st in
  Qfloor (fst three_east) = Qfloor (fst origin) + Z.of_nat 3
  /\ instanceMatrix (scene w2) !! ((0 * GRID_script + 0) * LAYERS_source + 0)%nat
     = instanceMatrix (scene w1)
         !! (((0 + 3) * GRID_script + (0 + 0)) * LAYERS_source + 0)%nat.
Proof.
  cbv zeta.
  destruct (length_initial_buffers GRID_script LAYERS_source hidden_box)
    as [Hlm Hlc].
  assert (Hi : (0 + 3 < GRID_script)%nat) by (unfold GRID_script; lia).
  assert (Hj : (0 + 0 < GRID_script)%nat) by (unfold GRID_script; lia).
  assert (Hd : (0 < LAYERS_source)%nat) by (unfold LAYERS_source; lia).
  assert (Hx : Qfloor (fst three_east) = Qfloor (fst origin) + Z.of_nat 3)
    by reflexivity.
  assert (Hz : Qfloor (snd three_east) = Qfloor (snd origin) + Z.of_nat 0)
    by reflexivity.
  split; [ exact Hx | ].
  destruct (window_follows_the_centre GRID_script LAYERS_source sum_function
              origin three_east
              (compiled_state GRID_script LAYERS_source sum_function)
              (compiled_state GRID_script LAYERS_source sum_function)
              3 0 eq_refl eq_refl Hlm Hlc Hlm Hlc Hx Hz 0%nat 0%nat 0%nat
              Hi Hj Hd) as [Hm _].
  exact Hm.
Defined.

(** script.js: the text [x + z] typed into the input of the initial page. *)
Lemma accepted_formula_is_installed_and_drawn_witness :
  let st := initial GRID_script LAYERS_source hidden_box in
  let st' := on_input GRID_script LAYERS_source Host.newFunction "x + z" origin st in
  Host.newFunction (function_body (replace_caret "x + z")) = Callable sum_function
  /\ sum_function (ctx (scene st)) 0 0 = Returns (Finite 0)
  /\ compiledFunc st' = Some sum_function
  /\ lastUpdateX st' = 0.
Proof.
  cbv zeta.
  destruct (length_initial_buffers GRID_script LAYERS_source hidden_box)
    as [Hlm Hlc].
  assert (Hbuilt : Host.newFunction (function_body (replace_caret "x + z"))
                   = Callable sum_function) by reflexivity.
  assert (Hcall : sum_function
                    (ctx (scene (initial GRID_script LAYERS_source hidden_box))) 0 0
                  = Returns (Finite 0)) by reflexivity.
  destruct (accepted_formula_is_installed_and_drawn GRID_script LAYERS_source
              Host.newFunction "x + z" origin
              (initial GRID_script LAYERS_source hidden_box)
              sum_function (Finite 0) Hbuilt Hcall Hlm Hlc)
    as (Hf & _ & Hx & _).
  split; [ exact Hbuilt | split; [ exact Hcall | split; [ exact Hf | exact Hx ] ] ].
Defined.

(** A mesh of six instances under a window of two columns by two with one
    layer: the last two entries keep what they held. *)
Lemma refresh_stays_within_the_window_witness :
  let st := mkState (Some sum_function) (-999999) (-999999)
              (mkScene (Ctx.mkCoords 0 0)
                 (replicate 6 (9, 9, 9)) (replicate 6 colors.neon) colors.neon)
              hidden_box in
  length (instanceMatrix (scene st)) = 6%nat
  /\ TOTAL_INSTANCES 2 1 = 4%nat
  /\ instanceMatrix (scene (updateTerrain 2 1 true origin st))
     = [(-1, -2, -1); (-1, -1, 0); (0, -1, -1); (0, 0, 0); (9, 9, 9); (9, 9, 9)].
Proof.
  cbv zeta.
  set (st := mkState (Some sum_function) (-999999) (-999999)
               (mkScene (Ctx.mkCoords 0 0)
                  (replicate 6 (9, 9, 9)) (replicate 6 colors.neon) colors.neon)
               hidden_box).
  assert (Hlm : (TOTAL_INSTANCES 2 1 <= length (instanceMatrix (scene st)))%nat)
    by (vm_compute; lia).
  assert (Hlc : (TOTAL_INSTANCES 2 1 <= length (instanceColor (scene st)))%nat)
    by (vm_compute; lia).
  split; [ reflexivity | split; [ reflexivity | ] ].
  destruct (refresh_stays_within_the_window 2 1 sum_function true origin st
              eq_refl (or_introl eq_refl) Hlm Hlc) as (_ & Hm & _).
  rewrite Hm. reflexivity.
Defined.

(* ===================================================================== *)
(** ** The texts that [Generator.create] of script.js builds *)
(* ===================================================================== *)

Section CreateFacts.
Import Syntax.

Lemma numeral_tenth : Numeral "0.1".
Proof.
  apply (N_fraction ["0"%char] ["1"%char]);
    [ apply IP_zero | discriminate | repeat constructor ].
Qed.

Lemma numeral_fifteen : Numeral "15".
Proof.
  apply (N_integer ["1"%char; "5"%char]), IP_nonzero;
    [ reflexivity | discriminate | repeat constructor ].
Qed.

Lemma formula_product (a b : string) :
  Formula a -> Formula b -> Formula (a +++ "" +++ "*" +++ "" +++ b).
Proof.
  intros Ha Hb.
  apply F_binary; [ exact Ha | reflexivity | right; right; reflexivity
                  | reflexivity | exact Hb ].
Qed.

Lemma hardcoded_formula : Formula "floor(sin(x*0.1)*cos(z*0.1)*10)".
Proof.
  change "floor(sin(x*0.1)*cos(z*0.1)*10)"%string
    with ("floor" +++ "("
          +++ ((("sin" +++ "(" +++ ("x" +++ "*" +++ "0.1") +++ ")")
                +++ "" +++ "*" +++ ""
                +++ ("cos" +++ "(" +++ ("z" +++ "*" +++ "0.1") +++ ")"))
               +++ "" +++ "*" +++ "" +++ "10")
          +++ ")").
  apply formula_unary; [ reflexivity | ].
  apply formula_product; [ | apply F_numeral, numeral_ten ].
  apply formula_product;
    (apply formula_unary;
     [ reflexivity | apply formula_coordinate; [ auto | apply numeral_tenth ] ]).
Qed.

Lemma create_yields_formula (type : string) :
  yields 38 (Generator_script.create type) Formula.
Proof.
  unfold Generator_script.create.
  destruct (String.eqb type "HARDCODED").
  - apply (yields_weaken 0 _ _ Formula); [ | lia | auto ].
    apply yields_ret, hardcoded_formula.
  - destruct (String.eqb type "LONG MATH").
    + apply (yields_weaken (draws_bound 2 + (draws_bound 2 + 0)) _ _ Formula);
        [ | cbn; lia | auto ].
      apply (yields_bind _ _ _ _ Formula);
        [ apply (genExpr_script_formula 2 2 eq_refl) | ]. intros a Ha.
      apply (yields_bind _ _ _ _ Formula);
        [ apply (genExpr_script_formula 2 2 eq_refl) | ]. intros b Hb.
      apply yields_ret.
      change (a +++ " + " +++ b) with (a +++ " " +++ "+" +++ " " +++ b).
      apply F_binary; [ exact Ha | reflexivity | left; reflexivity
                      | reflexivity | exact Hb ].
    + apply (yields_weaken (draws_bound 3 + 0) _ _ Formula);
        [ | cbn; lia | auto ].
      apply (yields_bind _ _ _ _ Formula);
        [ apply (genExpr_script_formula 3 3 eq_refl) | ]. intros a Ha.
      apply yields_ret.
      change (a +++ " * 15") with (a +++ " " +++ "*" +++ " " +++ "15").
      apply F_binary; [ exact Ha | reflexivity | right; right; reflexivity
                      | reflexivity | apply F_numeral, numeral_fifteen ].
Qed.

(** X15.  Whatever the category name, [Generator.create] of script.js returns
    after at most 38 calls of [Math.random()] (none for [HARDCODED]), reads
    the draws without changing them, and the text it returns is a formula
    of the syntax of the engine. *)
Theorem create_total_and_well_formed (type : string) (r : Random) :
  unit_draws r ->
  Formula (fst (Generator_script.create type r))
  /\ draws (snd (Generator_script.create type r)) = draws r
  /\ (used r <= used (snd (Generator_script.create type r)) <= used r + 38)%nat
  /\ (type = "HARDCODED"%string ->
      used (snd (Generator_script.create type r)) = used r).
Proof.
  intros Hr.
  destruct (create_yields_formula type r Hr) as (Hformula & Hdraws & Hused).
  split; [ exact Hformula | split; [ exact Hdraws | split; [ exact Hused | ] ] ].
  intros ->. reflexivity.
Qed.

End CreateFacts.

(** With every draw at one half, the category [LONG MATH] gives the sum of
    two nested calls of [abs]. *)
Lemma create_total_and_well_formed_witness :
  unit_draws half_draws
  /\ fst (Generator_script.create "LONG MATH" half_draws)
     = "abs(abs(z*0.075)) + abs(abs(z*0.075))"%string
  /\ Syntax.Formula (fst (Generator_script.create "LONG MATH" half_draws)).
Proof.
  split; [ apply half_draws_unit | ].
  split; [ vm_compute; reflexivity | ].
  apply (create_total_and_well_formed "LONG MATH" half_draws half_draws_unit).
Defined.

(* ===================================================================== *)
(** ** [Generator.create] of part_000 *)
(* ===================================================================== *)

Section Part000Create.
Import Syntax.

Lemma numeral_four : Numeral "4".
Proof.
  apply (N_integer ["4"%char]), IP_nonzero;
    [ reflexivity | discriminate | constructor ].
Qed.

Lemma numeral_half : Numeral "0.5".
Proof.
  apply (N_fraction ["0"%char] ["5"%char]);
    [ apply IP_zero | discriminate | repeat constructor ].
Qed.

(** [octaved(x*s, z*s, 4, 0.5) * h] *)
Lemma formula_octaved_call (s h : string) :
  Numeral s -> Numeral h ->
  Formula ("octaved(x*" +++ s +++ ", z*" +++ s +++ ", 4, 0.5) * " +++ h).
Proof.
  intros Hs Hh.
  replace ("octaved(x*" +++ s +++ ", z*" +++ s +++ ", 4, 0.5) * " +++ h)
    with (("octaved" +++ "("
           +++ (("x" +++ "*" +++ s) +++ "," +++ " "
                +++ ("z" +++ "*" +++ s) +++ "," +++ " "
                +++ "4" +++ "," +++ " " +++ "0.5")
           +++ ")")
          +++ " " +++ "*" +++ " " +++ h)
    by (rewrite !string_append_assoc; reflexivity).
  apply F_binary;
    [ | reflexivity | right; right; reflexivity | reflexivity
      | now apply F_numeral ].
  apply F_call; [ reflexivity | ].
  apply A_more; [ apply formula_coordinate; auto | reflexivity | ].
  apply A_more; [ apply formula_coordinate; auto | reflexivity | ].
  apply A_more; [ apply F_numeral, numeral_four | reflexivity | ].
  apply A_last, F_numeral, numeral_half.
Qed.

Local Abbreviation unit_interval := (fun q : Q => (0 <= q)%Q /\ (q < 1)%Q).

Lemma realistic_formula_is_formula (t : string) :
  realistic_formula t -> Formula t.
Proof. intros (s & h & Hs & Hh & ->). now apply formula_octaved_call. Qed.

Lemma getFormulaForTheme_realistic (noiseKey level : string) :
  yields 2
    (Generator_part_000.getFormulaForTheme true "Realistic" noiseKey level)
    realistic_formula.
Proof.
  unfold Generator_part_000.getFormulaForTheme.
  change (String.eqb "Realistic" "Realistic" && true) with true. cbv iota.
  apply (yields_bind 1 1 random _ unit_interval); [ apply yields_random | ].
  intros s [Hs _]. cbv zeta.
  apply (yields_bind 1 0 random _ unit_interval); [ apply yields_random | ].
  intros h [Hh _]. apply yields_ret.
  exists (toFixed (s * (2 # 100) + (5 # 1000)) 4), (toFixed (h * 30 + 15) 0).
  split; [ | split; [ | reflexivity ] ];
    apply toFixed_numeral, Qscaled_nonneg; first [ assumption | discriminate ].
Qed.

Lemma getFormulaForTheme_themed (theme noiseKey level : string) :
  In noiseKey Generator_part_000.noiseTypes ->
  yields 158
    (Generator_part_000.getFormulaForTheme false theme noiseKey level)
    (themed_formula theme noiseKey).
Proof.
  intros Hkey. unfold Generator_part_000.getFormulaForTheme.
  rewrite andb_false_r. cbv zeta.
  assert (Hdepth :
            forall n : nat, (n <= 5)%nat ->
              yields 158
                (randExpr <- Generator_part_000.genExpr (Z.of_nat n) noiseKey ;;
                 ret (Generator_part_000.theme_formula theme
                        (toLowerCase noiseKey +++ "(x*0.05, 0, z*0.05)")
                        randExpr))
                (themed_formula theme noiseKey)).
  { intros n Hn.
    apply (yields_weaken (draws_bound n + 0) _ _ (themed_formula theme noiseKey));
      [ | | auto ].
    - apply (yields_bind _ _ _ _ Formula);
        [ apply (genExpr_part_000_formula noiseKey Hkey n); lia | ].
      intros a Ha. apply yields_ret. now exists a.
    - unfold draws_bound.
      assert (2 ^ n <= 2 ^ 5)%nat by (apply Nat.pow_le_mono_r; lia).
      change (2 ^ 5)%nat with 32%nat in *. lia. }
  destruct (String.eqb level "Hardcoded");
    [ apply (Hdepth 1%nat); lia | ].
  destruct (String.eqb level "Long Math");
    [ apply (Hdepth 5%nat); lia | ].
  destruct (String.eqb level "Expert");
    [ apply (Hdepth 4%nat); lia | apply (Hdepth 3%nat); lia ].
Qed.

Lemma create_yields_listed (isRealisticOnly : bool) :
  yields (if isRealisticOnly then 3 else 161)
    (Generator_part_000.create isRealisticOnly) (listed isRealisticOnly).
Proof.
  unfold Generator_part_000.create. destruct isRealisticOnly; cbv zeta.
  - apply (yields_bind 1 2 _ _ (fun s => In s Generator_part_000.noiseTypes));
      [ apply yields_pick; discriminate | ]. intros noise Hnoise.
    apply (yields_weaken (2 + 0) _ _ (listed true)); [ | lia | auto ].
    apply (yields_bind _ _ _ _ realistic_formula);
      [ apply getFormulaForTheme_realistic | ]. intros formula Hformula.
    apply yields_ret. unfold listed.
    cbn [Generator_part_000.noise Generator_part_000.type
         Generator_part_000.level Generator_part_000.formula].
    split; [ exact Hnoise | split; [ | split; [ | split ] ] ];
      [ | | auto | discriminate ].
    + cbn. do 17 right. now left.
    + cbn. do 4 right. now left.
  - apply (yields_weaken (1 + (1 + (1 + (158 + 0)))) _ _ (listed false));
      [ | lia | auto ].
    apply (yields_bind _ _ _ _ (fun s => In s Generator_part_000.themes));
      [ apply yields_pick; discriminate | ]. intros theme Htheme.
    apply (yields_bind _ _ _ _ (fun s => In s Generator_part_000.levels));
      [ apply yields_pick; discriminate | ]. intros level Hlevel.
    apply (yields_bind _ _ _ _ (fun s => In s Generator_part_000.noiseTypes));
      [ apply yields_pick; discriminate | ]. intros noise Hnoise.
    apply (yields_bind _ _ _ _ (themed_formula theme noise));
      [ now apply getFormulaForTheme_themed | ]. intros formula Hformula.
    apply yields_ret. unfold listed.
    cbn [Generator_part_000.noise Generator_part_000.type
         Generator_part_000.level Generator_part_000.formula].
    split; [ exact Hnoise | split; [ exact Htheme | split; [ exact Hlevel | ] ] ].
    split; [ discriminate | intros _; exact Hformula ].
Qed.

(** X16.  [create] of part_000 returns after at most 161 calls of
    [Math.random()], which it reads without changing them, and the noise,
    the theme and the level of the object it returns are entries of
    [noiseTypes], [themes] and [levels], never [undefined].  When
    [isRealisticOnly] is set, at most 3 calls are made, the theme is
    Realistic, the level Intermediate, and the formula is
    [octaved(x*s, z*s, 4, 0.5) * h] with one decimal literal [s] for both
    coordinates and a decimal literal [h], a formula of the syntax of the
    engine.  Otherwise the formula is the template of the theme, filled with
    the base noise call of the noise drawn and with a random expression of
    that syntax. *)
Theorem create_part_000_returns_listed_values (isRealisticOnly : bool)
    (r : Random) :
  unit_draws r ->
  let d := fst (Generator_part_000.create isRealisticOnly r) in
  let r' := snd (Generator_part_000.create isRealisticOnly r) in
  In (Generator_part_000.noise d) Generator_part_000.noiseTypes
  /\ In (Generator_part_000.type d) Generator_part_000.themes
  /\ In (Generator_part_000.level d) Generator_part_000.levels
  /\ draws r' = draws r
  /\ (used r <= used r' <= used r + 161)%nat
  /\ (isRealisticOnly = true ->
      Generator_part_000.type d = "Realistic"%string
      /\ Generator_part_000.level d = "Intermediate"%string
      /\ realistic_formula (Generator_part_000.formula d)
      /\ Formula (Generator_part_000.formula d)
      /\ (used r' <= used r + 3)%nat)
  /\ (isRealisticOnly = false ->
      themed_formula (Generator_part_000.type d) (Generator_part_000.noise d)
        (Generator_part_000.formula d)).
Proof.
  intros Hr. cbv zeta.
  destruct (create_yields_listed isRealisticOnly r Hr)
    as ((Hnoise & Htheme & Hlevel & Hreal & Hthemed) & Hdraws & Hused).
  split; [ exact Hnoise | split; [ exact Htheme | split; [ exact Hlevel | ] ] ].
  split; [ exact Hdraws | split; [ | split; [ | exact Hthemed ] ] ].
  - destruct isRealisticOnly; lia.
  - intros ->. destruct (Hreal eq_refl) as (Ht & Hl & Hf).
    split; [ exact Ht | split; [ exact Hl | split; [ exact Hf | split ] ] ];
      [ now apply realistic_formula_is_formula | lia ].
Qed.

End Part000Create.

(** With every draw at one half and [isRealisticOnly] set. *)
Lemma create_part_000_returns_listed_values_witness :
  unit_draws half_draws
  /\ Generator_part_000.formula (fst (Generator_part_000.create true half_draws))
     = "octaved(x*0.0150, z*0.0150, 4, 0.5) * 30"%string
  /\ Generator_part_000.noise (fst (Generator_part_000.create true half_draws))
     = "Normal"%string
  /\ realistic_formula
       (Generator_part_000.formula (fst (Generator_part_000.create true half_draws))).
Proof.
  split; [ apply half_draws_unit | ].
  split; [ vm_compute; reflexivity | split; [ vm_compute; reflexivity | ] ].
  apply (create_part_000_returns_listed_values true half_draws half_draws_unit).
  reflexivity.
Defined.

(* ===================================================================== *)
(** ** The history and the saved list *)
(* ===================================================================== *)

Section SidebarFacts.
Import Sidebar.

Lemma addToHistory_take (item : Item) (l : list Item) :
  addToHistory item (take 50 l) = take 50 (item :: l).
Proof.
  unfold addToHistory.
  destruct (le_lt_dec 50 (length l)) as [Hlong | Hshort].
  - assert (Hlen : length (item :: take 50 l) = 51%nat)
      by (cbn [length]; rewrite length_take; lia).
    rewrite Hlen. change (Nat.ltb 50 51) with true. cbv iota.
    change (item :: take 50 l) with (firstn 51 (item :: l)).
    apply removelast_firstn. cbn [length]. lia.
  - rewrite (take_ge l 50) by lia.
    rewrite (take_ge (item :: l) 50) by (cbn [length]; lia).
    destruct (Nat.ltb_spec 50 (length (item :: l))) as [Hlt | _];
      [ cbn [length] in Hlt; lia | reflexivity ].
Qed.

(** X17.  The history holds the 50 newest items, the newest first: after any
    number of calls of [addToHistory] on the empty history, the list is the
    first 50 entries of the logged items in reverse order.  In particular
    it never holds more than 50 entries. *)
Theorem history_keeps_newest_fifty (items : list Item) :
  logged items = take 50 (rev items)
  /\ length (logged items) = Nat.min 50 (length items).
Proof.
  assert (Heq : logged items = take 50 (rev items)).
  { unfold logged. induction items as [| item items IH] using rev_ind;
      [ reflexivity | ].
    rewrite fold_left_app, IH. cbn [fold_left].
    rewrite rev_unit. apply addToHistory_take. }
  split; [ exact Heq | ].
  rewrite Heq, length_take, length_rev. reflexivity.
Qed.

Lemma already_saved (item : Item) (l : list Item) :
  existsb (fun s => String.eqb (formula s) (formula item)) l = true
  <-> In (formula item) (map formula l).
Proof.
  rewrite existsb_exists, in_map_iff. split.
  - intros (s & Hin & Heq). apply String.eqb_eq in Heq. now exists s.
  - intros (s & Heq & Hin). exists s. split; [ exact Hin | ].
    now apply String.eqb_eq.
Qed.

Lemma saveCurrent_NoDup (item : Item) (l : list Item) :
  NoDup (map formula l) -> NoDup (map formula (fst (saveCurrent item l))).
Proof.
  intros Hl. unfold saveCurrent.
  destruct (existsb _ l) eqn:Hsaved; cbn [negb fst map]; [ exact Hl | ].
  constructor; [ | exact Hl ].
  rewrite list_elem_of_In, <- already_saved, Hsaved. discriminate.
Qed.

Lemma saveCurrent_keeps (item : Item) (l : list Item) (s : string) :
  In s (map formula l) -> In s (map formula (fst (saveCurrent item l))).
Proof.
  intros Hs. unfold saveCurrent.
  destruct (existsb _ l); cbn [negb fst map]; [ exact Hs | now right ].
Qed.

Lemma saveCurrent_holds (item : Item) (l : list Item) :
  In (formula item) (map formula (fst (saveCurrent item l))).
Proof.
  unfold saveCurrent.
  destruct (existsb _ l) eqn:Hsaved; cbn [negb fst map];
    [ now apply already_saved | now left ].
Qed.

Lemma saved_from (items : list Item) :
  forall l,
    NoDup (map formula l) ->
    let l' := fold_left (fun savedList item => fst (saveCurrent item savedList))
                items l in
    NoDup (map formula l')
    /\ (forall s, In s (map formula l) -> In s (map formula l'))
    /\ (forall item, In item items -> In (formula item) (map formula l')).
Proof.
  induction items as [| item items IH]; intros l Hl; cbn [fold_left].
  - split; [ exact Hl | split; [ auto | intros item [] ] ].
  - destruct (IH (fst (saveCurrent item l)) (saveCurrent_NoDup item l Hl))
      as (Hnodup & Hkeeps & Hall).
    split; [ exact Hnodup | split ].
    + intros s Hs. now apply Hkeeps, saveCurrent_keeps.
    + intros item' [<- | Hin]; [ apply Hkeeps, saveCurrent_holds | now apply Hall ].
Qed.

(** X18.  The saved list never holds a formula twice.  After any number of calls
    of [saveCurrent] on the empty list, the formulas of the entries are
    pairwise distinct and the formula of every item that was saved is among
    them; saving an item whose formula is in the list leaves the list as it
    is and shows ALREADY SAVED, and any other item is put in front and
    shows SAVED!. *)
Theorem saved_list_never_repeats_a_formula (items : list Item) (item : Item) :
  NoDup (map formula (saved items))
  /\ (forall i, In i items -> In (formula i) (map formula (saved items)))
  /\ (In (formula item) (map formula (saved items)) ->
      saveCurrent item (saved items) = (saved items, "ALREADY SAVED"%string))
  /\ (~ In (formula item) (map formula (saved items)) ->
      saveCurrent item (saved items) = (item :: saved items, "SAVED!"%string)).
Proof.
  destruct (saved_from items [] (NoDup_nil_2)) as (Hnodup & _ & Hall).
  split; [ exact Hnodup | split; [ exact Hall | split ] ].
  - intros Hin. apply already_saved in Hin. unfold saveCurrent.
    now rewrite Hin.
  - intros Hout. unfold saveCurrent.
    destruct (existsb _ (saved items)) eqn:Hsaved; [ | reflexivity ].
    exfalso. now apply Hout, already_saved.
Qed.

Lemma addToHistory_length (item : Item) (l : list Item) :
  (length l <= 50)%nat -> (length (addToHistory item l) <= 50)%nat.
Proof.
  intros Hl. rewrite <- (take_ge l 50) by lia.
  rewrite addToHistory_take, length_take. lia.
Qed.

(** X19.  The two invariants of the sidebar hold whatever is done to the lists:
    after any sequence of logged generations, saves and deletions of rows
    (at any index, in any order) on a page that starts with both lists
    empty, the history holds at most 50 entries and no two entries of the
    saved list have the same formula. *)
Theorem sidebar_lists_keep_their_invariants (actions : list Action) :
  (length (historyList (after actions)) <= 50)%nat
  /\ NoDup (map formula (savedList (after actions))).
Proof.
  unfold after. induction actions as [| a actions IH] using rev_ind.
  - split; [ cbn; lia | constructor ].
  - rewrite fold_left_app. cbn [fold_left].
    destruct IH as [Hlen Hnodup].
    destruct a as [item | item | index | index]; cbn [act historyList savedList].
    + split; [ now apply addToHistory_length | exact Hnodup ].
    + split; [ exact Hlen | now apply saveCurrent_NoDup ].
    + split; [ | exact Hnodup ].
      unfold deleteRow.
      pose proof (sublist_length _ _ (sublist_delete
                    (historyList (fold_left act actions (mkLists [] []))) index)).
      lia.
    + split; [ exact Hlen | ].
      unfold deleteRow.
      apply (sublist_NoDup _ _ Hnodup).
      change map with (@fmap list _) at 1.
      rewrite list_fmap_delete. apply sublist_delete.
Qed.

End SidebarFacts.

(* ===================================================================== *)
(** ** The hash values behind [Ctx.randnormal] *)
(* ===================================================================== *)

(** A hash value is a multiple of 2^-32 below 1. *)
Lemma intHash_grid (a b : Z) :
  exists k, 0 <= k < 2 ^ 32 /\ Hash.intHash a b = Qmake k 4294967296.
Proof.
  exists (Int32.toUint32 (Hash.intHashMix a b)).
  split; [ apply toUint32_range | reflexivity ].
Qed.

(** X20.  [randnormal] takes the logarithm of a number strictly between 0
    and 1.  At every column the first hash value, after the guard [u<=0]
    has replaced 0 by 0.0001, lies between 2^-32 and 1 - 2^-32, and the
    second one between 0 and 1 - 2^-32. *)
Theorem randnormal_takes_log_of_fraction (c : Ctx.Coords) :
  let u := fst (Ctx.randnormal_seeds c) in
  let v := snd (Ctx.randnormal_seeds c) in
  ((1 # 4294967296) <= u)%Q /\ (u <= 1 - (1 # 4294967296))%Q
  /\ (0 <= v)%Q /\ (v <= 1 - (1 # 4294967296))%Q.
Proof.
  cbv zeta. unfold Ctx.randnormal_seeds. cbn [fst snd].
  destruct (intHash_grid
              (Double.integer_operand (Double.round_integer (Ctx._x c * 167)))
              (Double.integer_operand (Double.round_integer (Ctx._z c * 167))))
    as (k & Hk & ->).
  destruct (intHash_grid
              (Double.integer_operand (Double.round_integer (Ctx._x c * 253)))
              (Double.integer_operand (Double.round_integer (Ctx._z c * 253))))
    as (l & Hl & ->).
  change (2 ^ 32) with 4294967296 in Hk, Hl.
  assert (Hv : (0 <= l # 4294967296)%Q /\ (l # 4294967296 <= 1 - (1 # 4294967296))%Q)
    by (unfold Qle; cbn [Qnum Qden Qminus Qplus Qopp]; lia).
  destruct (Qle_bool (k # 4294967296) 0) eqn:Hzero.
  - split; [ discriminate | split; [ discriminate | exact Hv ] ].
  - assert (Hpos : 0 < k).
    { destruct (Z.lt_trichotomy k 0) as [Hneg | [-> | Hpos]];
        [ lia | discriminate Hzero | exact Hpos ]. }
    split; [ | split; [ | exact Hv ] ];
      unfold Qle; cbn [Qnum Qden Qminus Qplus Qopp]; lia.
Qed.

(* ===================================================================== *)
(** ** The theme Star of part_000 *)
(* ===================================================================== *)

Example tokens_call :
  HostCalls.tokens "f(x, 2)"
  = [ HostCalls.Tok (Host.TIdent "f"); HostCalls.Tok Host.TLParen;
      HostCalls.Tok (Host.TIdent "x"); HostCalls.TComma;
      HostCalls.Tok (Host.TNum 2); HostCalls.Tok Host.TRParen ].
Proof. reflexivity. Qed.

(** On the host with exact arithmetic: a sum of products, a call of a
    function of [Ctx], a call of a number, and a name that is bound
    nowhere, which is looked up before the arguments are evaluated. *)
Example exact_host_samples :
  HostCalls.newFunction exact_host Ctx.functions_part_000
    (function_body "with") = SyntaxError "Unexpected token"
  /\ (forall f,
        HostCalls.newFunction exact_host Ctx.functions_part_000
          (function_body "x*x + -z*3") = Callable f ->
        f (Ctx.mkCoords 0 0) 2 5 = Returns (Finite (-11)))
  /\ (forall f,
        HostCalls.newFunction exact_host Ctx.functions_part_000
          (function_body "abs(x) + 1") = Callable f ->
        f (Ctx.mkCoords 0 0) 2 5 = Returns NotFinite)
  /\ (forall f,
        HostCalls.newFunction exact_host Ctx.functions_part_000
          (function_body "z(nowhere)") = Callable f ->
        f (Ctx.mkCoords 0 0) 2 5 = Throws "nowhere is not defined")
  /\ (forall f,
        HostCalls.newFunction exact_host Ctx.functions_part_000
          (function_body "z(x)") = Callable f ->
        f (Ctx.mkCoords 0 0) 2 5 = Throws "z is not a function")
  /\ (forall f,
        HostCalls.newFunction exact_host Ctx.functions_part_000
          (function_body "nowhere(missing)") = Callable f ->
        f (Ctx.mkCoords 0 0) 2 5 = Throws "nowhere is not defined").
Proof.
  split; [ reflexivity | ].
  repeat split; intros f Hf; vm_compute in Hf; injection Hf as <-;
    vm_compute; reflexivity.
Qed.

Lemma star_formula_parses :
  HostCalls.parse_body (HostCalls.tokens (function_body (replace_caret star_formula)))
  = Some (Some star_expression).
Proof. vm_compute. reflexivity. Qed.


Section Star.

Variable host : HostCalls.Primitives.

Hypothesis atan2_nowhere : HostCalls.elsewhere host "atan2" = false.

Local Abbreviation newFunction :=
  (HostCalls.newFunction host Ctx.functions_part_000).

(** At every column the evaluation of the text stops at the call of
    [atan2]: the square root before it has returned, the sine after it is
    not called. *)
Lemma star_expression_throws (c : Ctx.Coords) (x z : Z) :
  HostCalls.eval host Ctx.functions_part_000 star_expression c x z
  = inr "atan2 is not defined"%string.
Proof. reflexivity. Qed.

Lemma star_formula_builds :
  newFunction (function_body (replace_caret star_formula))
  = Callable (HostCalls.call host Ctx.functions_part_000 (Some star_expression)).
Proof.
  unfold HostCalls.newFunction. rewrite star_formula_parses.
  unfold HostCalls.inside, star_expression.
  cbn [HostCalls.names flat_map app forallb].
  cbn [HostCalls.bound_here Ctx.constants Ctx.functions_part_000 existsb
       String.eqb Ascii.eqb Bool.eqb orb andb negb].
  rewrite atan2_nowhere. reflexivity.
Qed.

Lemma star_formula_compile_error (c : Ctx.Coords) :
  compile_error newFunction star_formula c.
Proof.
  right. eexists. exists "atan2 is not defined"%string.
  split; [ apply star_formula_builds | ].
  unfold HostCalls.call. now rewrite star_expression_throws.
Qed.


End Star.


